(** * Content matching and ranking engine of the IPTV Stremio addon

    A shallow embedding of the [ContentMatcher] class and of the two
    real-time search methods of the addon:
    - [normalizeTitle], [fuzzyMatch], [extractQuality], [extractSource],
      [extractYear], [findAllMatches], [findBestMatch] (current version),
    - the earlier [findBestMatch] of [addon.js] (module [Legacy]),
    - [searchMovieByImdbId] and [searchEpisodeByImdbId] with their caches.

    JavaScript numbers are IEEE 754 binary64 values and are modelled by
    Rocq's primitive floats, so that every score computed here is the very
    double the program computes.  Strings are sequences of 8-bit code units
    (the Latin-1 range of JavaScript's UTF-16 code units). *)

From stdpp Require Import gmap strings.
From Stdlib Require Import ZArith List Bool Ascii String Lia Floats Permutation DecimalString Sorted.
From Stdlib Require DecimalPos.
Import ListNotations.

Set Warnings "-inexact-float".

Local Open Scope Z_scope.
Local Open Scope string_scope.
Local Open Scope list_scope.

(** ** JavaScript numbers *)

(** The Number value of a mathematical integer: the nearest double, ties to
    even (exact below 2^53). *)
Definition Number_of_Z (z : Z) : float :=
  SF2Prim (binary_normalize prec emax z 0 false).

Definition Number_of_nat (n : nat) : float := Number_of_Z (Z.of_nat n).

(** [Math.max] on two arguments: NaN if either is NaN, and +0 is larger
    than -0. *)
Definition Math_max (a b : float) : float :=
  if is_nan a || is_nan b then nan
  else if PrimFloat.ltb a b then b
  else if PrimFloat.ltb b a then a
  else if is_zero a && get_sign a then b else a.

(** [ToBoolean] of a number: false for +0, -0 and NaN. *)
Definition truthyNumber (x : float) : bool := negb (is_zero x || is_nan x).

(** ** JavaScript strings *)

Definition chars := list ascii.

Definition code (c : ascii) : N := N_of_ascii c.

Definition inRange (lo hi : N) (c : ascii) : bool :=
  (N.leb lo (code c) && N.leb (code c) hi)%bool.

Definition isDigit (c : ascii) : bool := inRange 48 57 c.
Definition isUpper (c : ascii) : bool := inRange 65 90 c.
Definition isLower (c : ascii) : bool := inRange 97 122 c.

(** [\w] is [A-Za-z0-9_]. *)
Definition isWord (c : ascii) : bool :=
  (isUpper c || isLower c || isDigit c || N.eqb (code c) 95)%bool.

(** [\s] restricted to 8-bit code units: TAB, LF, VT, FF, CR, SP, NBSP. *)
Definition isSpace (c : ascii) : bool :=
  (inRange 9 13 c || N.eqb (code c) 32 || N.eqb (code c) 160)%bool.

(** [toLowerCase] on one code unit: A-Z, and the Latin-1 capitals
    U+00C0..U+00DE except the multiplication sign U+00D7. *)
Definition lowerChar (c : ascii) : ascii :=
  if (isUpper c || (inRange 192 222 c && negb (N.eqb (code c) 215)))%bool
  then ascii_of_N (code c + 32) else c.

Definition toLowerCase (s : chars) : chars := List.map lowerChar s.

Definition chars_eqb (a b : chars) : bool :=
  if list_eq_dec ascii_dec a b then true else false.

(** [s.replace(/[^\w\s]/g, ' ')] *)
Definition replaceSpecial (s : chars) : chars :=
  List.map (fun c => if (isWord c || isSpace c)%bool then c else " "%char) s.

(** [s.replace(/\s+/g, ' ')]: [inrun] tells that the previous code unit was
    white space, whose run has already produced its single space. *)
Fixpoint collapseFrom (inrun : bool) (s : chars) : chars :=
  match s with
  | [] => []
  | c :: s' =>
      if isSpace c
      then (if inrun then collapseFrom true s' else " "%char :: collapseFrom true s')
      else c :: collapseFrom false s'
  end.

Definition collapseWhitespace (s : chars) : chars := collapseFrom false s.

(** A global replacement [s.replace(/\b(w1|w2|...)\b/g, '')] whose
    alternatives consist of word characters only.  A match starts and ends
    at a word boundary and contains word characters only, so it is a
    maximal run of word characters; the replacement deletes every maximal
    run that the alternatives accept ([p]) and keeps all other code units.
    [cur] is the run read so far. *)
Definition keepRun (p : chars -> bool) (w : chars) : chars :=
  if p w then [] else w.

Fixpoint removeWordsFrom (p : chars -> bool) (cur s : chars) : chars :=
  match s with
  | [] => keepRun p cur
  | c :: s' =>
      if isWord c then removeWordsFrom p (cur ++ [c]) s'
      else keepRun p cur ++ c :: removeWordsFrom p [] s'
  end.

Definition removeWords (p : chars -> bool) (s : chars) : chars :=
  removeWordsFrom p [] s.

(** [(19|20)\d{2}] against a whole run. *)
Definition isYearToken (w : chars) : bool :=
  match w with
  | [a; b; c; d] =>
      ((chars_eqb [a; b] (list_ascii_of_string "19")
        || chars_eqb [a; b] (list_ascii_of_string "20"))
       && isDigit c && isDigit d)%bool
  | _ => false
  end.

(** An alternation of literal words under the [i] flag. *)
Definition oneOf (ws : list string) (w : chars) : bool :=
  existsb (fun x => chars_eqb (toLowerCase w) (list_ascii_of_string x)) ws.

Definition qualityWords : list string :=
  ["hdtv"; "1080p"; "720p"; "hd"; "4k"; "uhd"; "bluray"; "webrip"; "dvdrip"].
Definition languageWords : list string :=
  ["dubbed"; "hindi"; "english"; "arabic"; "french"; "spanish"].
Definition seriesWords : list string :=
  ["complete"; "season"; "series"; "episode"; "ep"].

(** [s.trim()] *)
Fixpoint trimStart (s : chars) : chars :=
  match s with
  | [] => []
  | c :: s' => if isSpace c then trimStart s' else s
  end.

Definition trimEnd (s : chars) : chars := rev (trimStart (rev s)).
Definition trim (s : chars) : chars := trimEnd (trimStart s).

(** ** ContentMatcher.normalizeTitle *)

Definition normalizeChars (s : chars) : chars :=
  trim
    (removeWords (oneOf seriesWords)
       (removeWords (oneOf languageWords)
          (removeWords (oneOf qualityWords)
             (removeWords isYearToken
                (collapseWhitespace (replaceSpecial (toLowerCase s))))))).

Definition normalizeTitle (title : string) : string :=
  if String.eqb title "" then ""
  else string_of_list_ascii (normalizeChars (list_ascii_of_string title)).

(** ** ContentMatcher.fuzzyMatch *)

(** [s.split(/\s+/)]: the fields between maximal runs of white space; the
    empty string has the single field [""], and white space at either end
    gives an empty field there. *)
Fixpoint splitFrom (cur : chars) (inrun : bool) (s : chars) : list chars :=
  match s with
  | [] => [cur]
  | c :: s' =>
      if isSpace c
      then (if inrun then splitFrom [] true s' else cur :: splitFrom [] true s')
      else splitFrom (cur ++ [c]) false s'
  end.

Definition splitWhitespace (s : chars) : list chars := splitFrom [] false s.

(** [norm.split(/\s+/).filter(w => w.length > 2)] *)
Definition titleWords (norm : string) : list chars :=
  List.filter (fun w => Nat.ltb 2 (List.length w))
    (splitWhitespace (list_ascii_of_string norm)).

(** [words.includes(word)] *)
Definition includesWord (ws : list chars) (w : chars) : bool :=
  existsb (chars_eqb w) ws.

Definition fuzzyMatch (title1 title2 : string) : float :=
  let norm1 := normalizeTitle title1 in
  let norm2 := normalizeTitle title2 in
  if String.eqb norm1 norm2 then 1%float
  else
    let words1 := titleWords norm1 in
    let words2 := titleWords norm2 in
    if (Nat.eqb (List.length words1) 0 || Nat.eqb (List.length words2) 0)%bool then 0%float
    else
      let matches := List.length (List.filter (includesWord words2) words1) in
      PrimFloat.div (Number_of_nat matches)
        (Number_of_nat (Nat.max (List.length words1) (List.length words2))).

(** ** Tag extraction *)

Fixpoint isPrefix (p s : chars) : bool :=
  match p, s with
  | [], _ => true
  | _ :: _, [] => false
  | a :: p', b :: s' => (Ascii.eqb a b && isPrefix p' s')%bool
  end.

(** [s.includes(sub)] *)
Fixpoint includes (sub s : chars) : bool :=
  (isPrefix sub s || match s with [] => false | _ :: s' => includes sub s' end)%bool.

Definition hasTag (titleLower : chars) (tag : string) : bool :=
  includes (list_ascii_of_string tag) titleLower.

(** [extractQuality]: the pair is [(quality, qualityTag)]. *)
Definition extractQuality (t : string) : Z * string :=
  if String.eqb t "" then (0, "SD")
  else
    let titleLower := toLowerCase (list_ascii_of_string t) in
    if (hasTag titleLower "4k" || hasTag titleLower "2160p" || hasTag titleLower "uhd")%bool
    then (8, "4K")
    else if (hasTag titleLower "1080p" || hasTag titleLower "fhd")%bool
    then (6, "1080p")
    else if (hasTag titleLower "720p" || hasTag titleLower "hd")%bool
    then (4, "720p")
    else if (hasTag titleLower "480p" || hasTag titleLower "sd")%bool
    then (2, "480p")
    else (3, "HD").

(** [extractSource]: the pair is [(source, sourceTag)]. *)
Definition extractSource (t : string) : Z * string :=
  if String.eqb t "" then (0, "Unknown")
  else
    let titleLower := toLowerCase (list_ascii_of_string t) in
    if (hasTag titleLower "bluray" || hasTag titleLower "blu-ray")%bool
    then (10, "BluRay")
    else if hasTag titleLower "remux" then (9, "Remux")
    else if (hasTag titleLower "web-dl" || hasTag titleLower "webdl")%bool
    then (8, "WEB-DL")
    else if hasTag titleLower "webrip" then (6, "WEBRip")
    else if hasTag titleLower "hdtv" then (4, "HDTV")
    else if hasTag titleLower "dvdrip" then (3, "DVDRip")
    else (5, "Digital").

(** The maximal runs of word characters of a string, in order (a run is
    empty where two separators meet, or at either end). *)
Fixpoint runsFrom (cur s : chars) : list chars :=
  match s with
  | [] => [cur]
  | c :: s' =>
      if isWord c then runsFrom (cur ++ [c]) s' else cur :: runsFrom [] s'
  end.

Definition wordRuns (s : chars) : list chars := runsFrom [] s.

(** [parseInt] of a run of decimal digits. *)
Definition digitValue (c : ascii) : Z := Z.of_N (code c) - 48.

Definition parseDigits (w : chars) : Z :=
  fold_left (fun acc c => 10 * acc + digitValue c) w 0.

(** [extractYear]: [title.match(/\b(19|20)\d{2}\b/)] finds the leftmost
    maximal run of word characters that is a year token. *)
Definition extractYear (t : string) : option Z :=
  if String.eqb t "" then None
  else
    match List.find isYearToken (wordRuns (list_ascii_of_string t)) with
    | Some w => Some (parseDigits w)
    | None => None
    end.

(** ** Library entries and candidates *)

(** An entry of the content library; [name] and [title] may be absent. *)
Record libraryEntry := LibraryEntry {
  entry_id : string;
  entry_name : option string;
  entry_title : option string;
  entry_series_id : option string
}.

(** [a || b] on optional strings: the empty string is falsy. *)
Definition orElse (a : option string) (b : string) : string :=
  match a with
  | Some s => if String.eqb s "" then b else s
  | None => b
  end.

(** [item.name || item.title || ''] *)
Definition itemTitle (it : libraryEntry) : string :=
  orElse (entry_name it) (orElse (entry_title it) "").

(** A match object; [I] is what its [item] field holds: the entry itself
    where values stand for objects, a heap reference in [HeapModel]. *)
Record candidate {I : Type} := Candidate {
  item : I;
  titleScore : float;
  yearBonus : float;
  finalScore : float;
  qualityScore : Z;
  qualityTag : string;
  sourceScore : Z;
  sourceTag : string;
  year : option Z;
  title : string
}.
Arguments candidate : clear implicits.
Arguments Candidate {I}.

(** The [targetYear] argument as the call sites pass it: [null], a number
    ([parseInt] of the resolver's year) or the resolver's year string. *)
Inductive yearArg :=
  | YearNull
  | YearNum (y : float)
  | YearStr (s : string).

Definition matchingThreshold : float := 0.8%float.

(** The comparator given to [matches.sort]. *)
Definition compareMatches {I : Type} (a b : candidate I) : float :=
  if PrimFloat.ltb 0.05 (abs (finalScore a - finalScore b))
  then (finalScore b - finalScore a)%float
  else if negb (Z.eqb (qualityScore a) (qualityScore b))
  then Number_of_Z (qualityScore b - qualityScore a)
  else Number_of_Z (sourceScore b - sourceScore a).

(** [Array.prototype.sort] with a comparator, modelled by a stable
    insertion sort: each element in turn is placed before the first
    element of the sorted prefix that the comparator puts after it. *)
Section Sort.
Context {A : Type} (cmp : A -> A -> float).

Fixpoint insertBy (x : A) (l : list A) : list A :=
  match l with
  | [] => [x]
  | y :: l' => if PrimFloat.ltb (cmp x y) 0 then x :: l else y :: insertBy x l'
  end.

Definition sortBy (l : list A) : list A :=
  fold_left (fun acc x => insertBy x acc) l [].
End Sort.

(** A second model of [Array.prototype.sort], a stable bottom-up merge
    sort, used to show that the order of the ranking does not depend on
    the sorting method: of two heads the right one is taken only when the
    comparator puts it strictly first. *)
Section MergeSort.
Context {A : Type} (cmp : A -> A -> float).

Fixpoint mergeBy (l1 : list A) : list A -> list A :=
  fix mergeRight (l2 : list A) : list A :=
    match l1, l2 with
    | [], _ => l2
    | _, [] => l1
    | x :: l1', y :: l2' =>
        if PrimFloat.ltb (cmp y x) 0 then y :: mergeRight l2'
        else x :: mergeBy l1' l2
    end.

Fixpoint mergePairs (runs : list (list A)) : list (list A) :=
  match runs with
  | a :: b :: rest => mergeBy a b :: mergePairs rest
  | _ => runs
  end.

Fixpoint mergeAll (rounds : nat) (runs : list (list A)) : list A :=
  match rounds with
  | O => List.concat runs
  | S n =>
      match runs with
      | [] => []
      | [l] => l
      | _ => mergeAll n (mergePairs runs)
      end
  end.

Definition mergeSortBy (l : list A) : list A :=
  mergeAll (List.length l) (List.map (fun x => [x]) l).
End MergeSort.

Section Matcher.
(** [ToNumber] on strings, from the language runtime. *)
Variable StringToNumber : string -> float.

Definition truthyYear (y : yearArg) : bool :=
  match y with
  | YearNull => false
  | YearNum n => truthyNumber n
  | YearStr s => negb (String.eqb s "")
  end.

(** [itemYear === targetYear]: a number is never strictly equal to a
    string. *)
Definition strictEqYear (itemYear : Z) (y : yearArg) : bool :=
  match y with
  | YearNum n => PrimFloat.eqb (Number_of_Z itemYear) n
  | _ => false
  end.

Definition yearToNumber (y : yearArg) : float :=
  match y with
  | YearNull => 0%float
  | YearNum n => n
  | YearStr s => StringToNumber s
  end.

(** The year bonus of [findAllMatches]. *)
Definition computeYearBonus (targetYear : yearArg) (itemYear : option Z) : float :=
  match itemYear with
  | Some iy =>
      if (truthyYear targetYear && negb (Z.eqb iy 0))%bool then
        if strictEqYear iy targetYear then 0.1%float
        else
          let yearDiff := abs (Number_of_Z iy - yearToNumber targetYear) in
          Math_max (-0.05) (- yearDiff * 0.01)
      else 0%float
  | None => 0%float
  end.

(** The body of the first loop for one library entry [it], which the
    match object refers to as [ref]. *)
Definition scoreItem {I : Type} (targetTitle : string) (targetYear : yearArg)
    (ref : I) (it : libraryEntry) : option (candidate I) :=
  let itemTitle := itemTitle it in
  let score := fuzzyMatch targetTitle itemTitle in
  if PrimFloat.leb matchingThreshold score then
    let qualityInfo := extractQuality itemTitle in
    let sourceInfo := extractSource itemTitle in
    let itemYear := extractYear itemTitle in
    let yearBonus := computeYearBonus targetYear itemYear in
    let enhancedScore := (score + yearBonus)%float in
    Some {| item := ref;
            titleScore := score;
            yearBonus := yearBonus;
            finalScore := enhancedScore;
            qualityScore := fst qualityInfo;
            qualityTag := snd qualityInfo;
            sourceScore := fst sourceInfo;
            sourceTag := snd sourceInfo;
            year := itemYear;
            title := itemTitle |}
  else None.

(** The first pass: the candidates in library order. *)
Fixpoint collectMatches (targetTitle : string) (targetYear : yearArg)
    (contentLibrary : list libraryEntry) : list (candidate libraryEntry) :=
  match contentLibrary with
  | [] => []
  | it :: rest =>
      match scoreItem targetTitle targetYear it it with
      | Some m => m :: collectMatches targetTitle targetYear rest
      | None => collectMatches targetTitle targetYear rest
      end
  end.

(** [findAllMatches] (the logging has no effect on the result). *)
Definition findAllMatches (targetTitle : string) (targetYear : yearArg)
    (contentLibrary : list libraryEntry) : list (candidate libraryEntry) :=
  sortBy compareMatches (collectMatches targetTitle targetYear contentLibrary).

(** [findBestMatch] of the current version: [(match, score)]. *)
Definition findBestMatch (targetTitle : string)
    (contentLibrary : list libraryEntry) : option libraryEntry * float :=
  match findAllMatches targetTitle YearNull contentLibrary with
  | bestMatch :: _ => (Some (item bestMatch), finalScore bestMatch)
  | [] => (None, 0%float)
  end.
End Matcher.

(** ** The earlier [findBestMatch] (addon.js) *)
Module Legacy.
Definition step (targetTitle : string)
    (st : option libraryEntry * float) (it : libraryEntry) :=
  let '(bestMatch, bestScore) := st in
  let score := fuzzyMatch targetTitle (itemTitle it) in
  if (PrimFloat.ltb bestScore score && PrimFloat.leb matchingThreshold score)%bool
  then (Some it, score)
  else (bestMatch, bestScore).

Definition findBestMatch (targetTitle : string)
    (contentLibrary : list libraryEntry) : option libraryEntry * float :=
  fold_left (step targetTitle) contentLibrary (None, 0%float).
End Legacy.

(** ** The ranking over a heap of objects

    [findAllMatches] again, with the objects it touches made explicit: the
    library is an array object holding references to entry objects, the
    function allocates the [matches] array and one match object per
    candidate, pushes to and sorts its own array, and returns a reference
    to it.  A read of a missing object or of an object of another shape is
    a [TypeError] ([None]). *)
Module HeapModel.
Definition loc := positive.

Inductive object :=
  | ObjEntry (e : libraryEntry)
  | ObjCandidate (c : candidate loc)
  | ObjArray (elems : list loc).

Abbreviation heap := (gmap loc object).

Definition M (A : Type) : Type := heap -> option (A * heap).

Definition ret {A} (a : A) : M A := fun h => Some (a, h).

Definition bind {A B} (m : M A) (k : A -> M B) : M B :=
  fun h => match m h with
           | Some (a, h') => k a h'
           | None => None
           end.

Notation "'let*' x ':=' m 'in' k" := (bind m (fun x => k))
  (at level 10, x name, m at level 100, k at level 200).

Definition alloc (o : object) : M loc :=
  fun h => let l := fresh (dom h) in Some (l, <[l := o]> h).

Definition readEntry (l : loc) : M libraryEntry :=
  fun h => match h !! l with
           | Some (ObjEntry e) => Some (e, h)
           | _ => None
           end.

Definition readCandidate (l : loc) : M (candidate loc) :=
  fun h => match h !! l with
           | Some (ObjCandidate c) => Some (c, h)
           | _ => None
           end.

Definition readArray (l : loc) : M (list loc) :=
  fun h => match h !! l with
           | Some (ObjArray xs) => Some (xs, h)
           | _ => None
           end.

(** [arr.push(x)] *)
Definition push (arr x : loc) : M unit :=
  fun h => match h !! arr with
           | Some (ObjArray xs) => Some (tt, <[arr := ObjArray (xs ++ [x])]> h)
           | _ => None
           end.

(** The array [arr] gets the elements [xs] (the end of an in-place sort). *)
Definition writeArray (arr : loc) (xs : list loc) : M unit :=
  fun h => match h !! arr with
           | Some (ObjArray _) => Some (tt, <[arr := ObjArray xs]> h)
           | _ => None
           end.

Fixpoint forEach {A} (f : A -> M unit) (xs : list A) : M unit :=
  match xs with
  | [] => ret tt
  | x :: xs' => let* _u := f x in forEach f xs'
  end.

Fixpoint mapM {A B} (f : A -> M B) (xs : list A) : M (list B) :=
  match xs with
  | [] => ret []
  | x :: xs' => let* y := f x in let* ys := mapM f xs' in ret (y :: ys)
  end.

Section Ranking.
Variable StringToNumber : string -> float.

(** One turn of [for (const item of contentLibrary)]. *)
Definition visitItem (targetTitle : string) (targetYear : yearArg)
    (matches ref : loc) : M unit :=
  let* it := readEntry ref in
  match scoreItem StringToNumber targetTitle targetYear ref it with
  | Some m => let* ml := alloc (ObjCandidate m) in push matches ml
  | None => ret tt
  end.

(** [matches.sort(...)]: the comparator reads the match objects. *)
Definition sortMatches (matches : loc) : M unit :=
  let* refs := readArray matches in
  let* objs := mapM readCandidate refs in
  writeArray matches
    (List.map fst
       (sortBy (fun a b => compareMatches (snd a) (snd b)) (combine refs objs))).

Definition findAllMatches (targetTitle : string) (targetYear : yearArg)
    (contentLibrary : loc) : M loc :=
  let* matches := alloc (ObjArray []) in
  let* items := readArray contentLibrary in
  let* _u := forEach (visitItem targetTitle targetYear matches) items in
  let* _u := sortMatches matches in
  ret matches.

(** [findBestMatch]: [(match, score)], [match] a reference. *)
Definition findBestMatch (targetTitle : string) (contentLibrary : loc)
    : M (option loc * float) :=
  let* matches := findAllMatches targetTitle YearNull contentLibrary in
  let* refs := readArray matches in
  match refs with
  | best :: _ =>
      let* bestMatch := readCandidate best in
      ret (Some (item bestMatch), finalScore bestMatch)
  | [] => ret (None, 0%float)
  end.
End Ranking.

(** A library array whose elements are entry objects. *)
Definition libraryAt (h : heap) (lib : loc) (entries : list (loc * libraryEntry)) : Prop :=
  h !! lib = Some (ObjArray (List.map fst entries)) /\
  Forall (fun p => h !! fst p = Some (ObjEntry (snd p))) entries.
End HeapModel.

(** ** The real-time search methods of the addon *)

(** What [getOfficialTitle] keeps of an OMDb answer ([year] is the text of
    the [Year] field, empty when absent). *)
Record omdbData := OmdbData {
  omdb_title : string;
  omdb_year : string
}.

(** An OMDb request answers with [Response === 'True'], answers with an
    error, or fails (network, JSON). *)
Inductive omdbOutcome :=
  | OmdbFound (d : omdbData)
  | OmdbError
  | OmdbFailed.

(** An element of [seriesInfo.videos]: [Number(v.season)],
    [Number(v.episode)] and [v.title]. *)
Record video := Video {
  v_season : float;
  v_episode : float;
  v_title : option string
}.

Record episodeMatch := EpisodeMatch {
  episode : video;
  ep_qualityScore : Z;
  ep_qualityTag : string;
  ep_sourceScore : Z;
  ep_sourceTag : string;
  seriesName : option string;
  seriesScore : float
}.

(** What a search returns and [realTimeCache] stores. *)
Inductive payload :=
  | MovieMatches (l : list (candidate libraryEntry))
  | EpisodeMatches (l : list episodeMatch).

Record cacheEntry := CacheEntry {
  result : payload;
  timestamp : Z
}.

(** The calls that leave the search methods. *)
Inductive event :=
  | GetOfficialTitle (imdbId : string)
  | OmdbRequest (imdbId : string)
  | UpdateData
  | ProviderFetchData
  | ScanLibrary (targetTitle : string)
  | EnsureSeriesInfo (seriesId : string)
  | FetchSeriesInfo (seriesId : string).

(** The fields of the addon instance (and of its [contentMatcher]) that
    the search methods use, with the [trace] of the calls made so far. *)
Record addon := Addon {
  omdbCache : gmap string (option omdbData);
  realTimeCache : gmap string cacheEntry;
  channels : list libraryEntry;
  movies : list libraryEntry;
  series : list libraryEntry;
  seriesInfoCache : gmap string (option (list video));
  lastUpdate : Z;
  trace : list event
}.

Definition logEvent (e : event) (a : addon) : addon :=
  Addon (omdbCache a) (realTimeCache a) (channels a) (movies a) (series a)
        (seriesInfoCache a) (lastUpdate a) (trace a ++ [e]).

Definition setOmdbCache (k : string) (v : option omdbData) (a : addon) : addon :=
  Addon (<[k := v]> (omdbCache a)) (realTimeCache a) (channels a) (movies a)
        (series a) (seriesInfoCache a) (lastUpdate a) (trace a).

Definition setRealTimeCache (k : string) (v : cacheEntry) (a : addon) : addon :=
  Addon (omdbCache a) (<[k := v]> (realTimeCache a)) (channels a) (movies a)
        (series a) (seriesInfoCache a) (lastUpdate a) (trace a).

Definition setSeriesInfoCache (k : string) (v : option (list video)) (a : addon) : addon :=
  Addon (omdbCache a) (realTimeCache a) (channels a) (movies a) (series a)
        (<[k := v]> (seriesInfoCache a)) (lastUpdate a) (trace a).

Definition setLibrary (lib : list libraryEntry * list libraryEntry * list libraryEntry)
    (now : Z) (a : addon) : addon :=
  let '(ch, mv, se) := lib in
  Addon (omdbCache a) (realTimeCache a) ch mv se (seriesInfoCache a) now (trace a).

Definition cacheWindow : Z := 3600000.

(** The decimal text of an integer, as in a template literal. *)
Definition Z_to_string (z : Z) : string := NilZero.string_of_int (Z.to_int z).

(** [id.replace(/^iptv_series_/, '')] *)
Definition stripSeriesPrefix (id : string) : string :=
  let p := "iptv_series_" in
  if String.prefix p id
  then String.substring (String.length p) (String.length id - String.length p) id
  else id.

(** The comparator given to [allEpisodeMatches.sort]. *)
Definition compareEpisodes (a b : episodeMatch) : float :=
  if PrimFloat.ltb 0.05 (abs (seriesScore a - seriesScore b))
  then (seriesScore b - seriesScore a)%float
  else if negb (Z.eqb (ep_qualityScore a) (ep_qualityScore b))
  then Number_of_Z (ep_qualityScore b - ep_qualityScore a)
  else Number_of_Z (ep_sourceScore b - ep_sourceScore a).

Section Orchestrator.
(** The surroundings: whether an OMDb key is configured, the OMDb
    service, the [CACHE_ENABLED] setting, the provider's [fetchData]
    ([None] when it throws) and [fetchSeriesInfo] ([None] when it throws
    or is missing; the inner option is [None] when the answer has no
    [videos] array), and [parseInt] and [ToNumber] of the runtime. *)
Variable omdbApiKey : bool.
Variable omdbRequest : string -> omdbOutcome.
Variable CACHE_ENABLED : bool.
Variable providerFetchData :
  list libraryEntry * list libraryEntry * list libraryEntry ->
  option (list libraryEntry * list libraryEntry * list libraryEntry).
Variable fetchSeriesInfo : string -> option (option (list video)).
Variable parseInt : string -> float.
Variable StringToNumber : string -> float.

Definition getOfficialTitle (imdbId : string) (a : addon) : option omdbData * addon :=
  let a := logEvent (GetOfficialTitle imdbId) a in
  match omdbCache a !! imdbId with
  | Some r => (r, a)
  | None =>
      if negb omdbApiKey then (None, a)
      else
        let a := logEvent (OmdbRequest imdbId) a in
        match omdbRequest imdbId with
        | OmdbFound d => (Some d, setOmdbCache imdbId (Some d) a)
        | OmdbError => (None, setOmdbCache imdbId None a)
        | OmdbFailed => (None, a)
        end
  end.

(** [updateData(false)] *)
Definition updateData (now : Z) (a : addon) : addon :=
  let a := logEvent UpdateData a in
  let loaded :=
    negb (Nat.eqb (List.length (channels a)) 0
          && Nat.eqb (List.length (movies a)) 0
          && Nat.eqb (List.length (series a)) 0) in
  if (CACHE_ENABLED
      && ((negb (Z.eqb (lastUpdate a) 0) && Z.ltb (now - lastUpdate a) 3600000)
          || (loaded && Z.ltb (now - lastUpdate a) 900000)))%bool
  then a
  else
    let a := logEvent ProviderFetchData a in
    match providerFetchData (channels a, movies a, series a) with
    | Some lib => setLibrary lib now a
    | None => a
    end.

Definition searchMovieByImdbId (now : Z) (imdbId : string) (a : addon)
    : payload * addon :=
  let resolve :=
    let '(omdb, a) := getOfficialTitle imdbId a in
    match omdb with
    | None => (MovieMatches [], a)
    | Some omdb =>
        let a := if Nat.eqb (List.length (movies a)) 0 then updateData now a else a in
        let targetYear :=
          if String.eqb (omdb_year omdb) "" then YearNull
          else YearNum (parseInt (omdb_year omdb)) in
        let a := logEvent (ScanLibrary (omdb_title omdb)) a in
        let matches :=
          findAllMatches StringToNumber (omdb_title omdb) targetYear (movies a) in
        if Nat.ltb 0 (List.length matches) then
          let topMatches := firstn 5 matches in
          (MovieMatches topMatches,
           setRealTimeCache imdbId (CacheEntry (MovieMatches topMatches) now) a)
        else (MovieMatches [], a)
    end in
  match realTimeCache a !! imdbId with
  | Some cached =>
      if Z.ltb (now - timestamp cached) cacheWindow then (result cached, a)
      else resolve
  | None => resolve
  end.

Definition ensureSeriesInfo (seriesId : string) (a : addon)
    : option (list video) * addon :=
  let a := logEvent (EnsureSeriesInfo seriesId) a in
  if String.eqb seriesId "" then (None, a)
  else
    match seriesInfoCache a !! seriesId with
    | Some info => (info, a)
    | None =>
        let a := logEvent (FetchSeriesInfo seriesId) a in
        match fetchSeriesInfo seriesId with
        | Some info => (info, setSeriesInfoCache seriesId info a)
        | None => (Some [], setSeriesInfoCache seriesId (Some []) a)
        end
    end.

(** The body of [for (const seriesMatchInfo of allMatches)]. *)
Definition checkSeries (season episode : Z)
    (st : list episodeMatch * addon) (seriesMatchInfo : candidate libraryEntry)
    : list episodeMatch * addon :=
  let '(allEpisodeMatches, a) := st in
  let seriesMatch := item seriesMatchInfo in
  let seriesScore := finalScore seriesMatchInfo in
  let '(seriesInfo, a) :=
    ensureSeriesInfo
      (orElse (entry_series_id seriesMatch) (stripSeriesPrefix (entry_id seriesMatch))) a in
  match seriesInfo with
  | Some videos =>
      let episodeMatches :=
        List.filter (fun v => PrimFloat.eqb (v_season v) (Number_of_Z season)
                              && PrimFloat.eqb (v_episode v) (Number_of_Z episode))
                    videos in
      let enhancedEpisodes :=
        List.map (fun ep =>
               let qualityInfo := extractQuality (orElse (v_title ep) "") in
               let sourceInfo := extractSource (orElse (v_title ep) "") in
               {| episode := ep;
                  ep_qualityScore := fst qualityInfo;
                  ep_qualityTag := snd qualityInfo;
                  ep_sourceScore := fst sourceInfo;
                  ep_sourceTag := snd sourceInfo;
                  seriesName := entry_name seriesMatch;
                  seriesScore := seriesScore |})
            episodeMatches in
      (allEpisodeMatches ++ enhancedEpisodes, a)
  | None => (allEpisodeMatches, a)
  end.

(** [null] is [None]. *)
Definition searchEpisodeByImdbId (now : Z) (imdbId : string) (season episode : Z)
    (a : addon) : option payload * addon :=
  let cacheKey :=
    String.append imdbId
      (String.append ":"
         (String.append (Z_to_string season)
            (String.append ":" (Z_to_string episode)))) in
  let resolve :=
    let '(omdb, a) := getOfficialTitle imdbId a in
    match omdb with
    | None => (None, a)
    | Some omdb =>
        let a := if Nat.eqb (List.length (series a)) 0 then updateData now a else a in
        let a := logEvent (ScanLibrary (omdb_title omdb)) a in
        let allMatches :=
          findAllMatches StringToNumber (omdb_title omdb)
            (YearStr (omdb_year omdb)) (series a) in
        let '(allEpisodeMatches, a) :=
          fold_left (checkSeries season episode) allMatches ([], a) in
        if Nat.ltb 0 (List.length allEpisodeMatches) then
          let topEpisodes := firstn 10 (sortBy compareEpisodes allEpisodeMatches) in
          (Some (EpisodeMatches topEpisodes),
           setRealTimeCache cacheKey (CacheEntry (EpisodeMatches topEpisodes) now) a)
        else (None, a)
    end in
  match realTimeCache a !! cacheKey with
  | Some cached =>
      if Z.ltb (now - timestamp cached) cacheWindow then (Some (result cached), a)
      else resolve
  | None => resolve
  end.
End Orchestrator.

(** ** Statements used by the properties *)

(** Case-insensitive containment, stated without the search procedure. *)
Definition containsTag (t tag : string) : Prop :=
  exists pre post,
    toLowerCase (list_ascii_of_string t) = pre ++ list_ascii_of_string tag ++ post.

(** The priority rules of the quality extractor on the title [t]. *)
Definition qualityRules (t : string) : Prop :=
  let r1 := containsTag t "4k" \/ containsTag t "2160p" \/ containsTag t "uhd" in
  let r2 := containsTag t "1080p" \/ containsTag t "fhd" in
  let r3 := containsTag t "720p" \/ containsTag t "hd" in
  let r4 := containsTag t "480p" \/ containsTag t "sd" in
  (r1 -> extractQuality t = (8, "4K")) /\
  (~ r1 -> r2 -> extractQuality t = (6, "1080p")) /\
  (~ r1 -> ~ r2 -> r3 -> extractQuality t = (4, "720p")) /\
  (~ r1 -> ~ r2 -> ~ r3 -> r4 -> extractQuality t = (2, "480p")) /\
  (~ r1 -> ~ r2 -> ~ r3 -> ~ r4 -> extractQuality t = (3, "HD")).

(** An entry clears the matching threshold for a target title. *)
Definition clearsThreshold (targetTitle : string) (it : libraryEntry) : bool :=
  PrimFloat.leb matchingThreshold (fuzzyMatch targetTitle (itemTitle it)).

Definition entryNamed (n : string) : libraryEntry := LibraryEntry n (Some n) None None.

(** The match object [c] with its [item] field replaced by [x]. *)
Definition withItem {I J : Type} (x : J) (c : candidate I) : candidate J :=
  {| item := x;
     titleScore := titleScore c;
     yearBonus := yearBonus c;
     finalScore := finalScore c;
     qualityScore := qualityScore c;
     qualityTag := qualityTag c;
     sourceScore := sourceScore c;
     sourceTag := sourceTag c;
     year := year c;
     title := title c |}.

(** In the heap [h] the match object [c] stands for the candidate [pc]:
    its [item] refers to the entry object that [pc] holds. *)
Definition represents (h : gmap HeapModel.loc HeapModel.object)
    (c : candidate HeapModel.loc) (pc : candidate libraryEntry) : Prop :=
  exists e, h !! item c = Some (HeapModel.ObjEntry e) /\ pc = withItem e c.

(** The array at [arr] holds references to match objects that stand for
    the candidates [pcs], in order. *)
Definition arrayRepresents (h : gmap HeapModel.loc HeapModel.object)
    (arr : HeapModel.loc) (pcs : list (candidate libraryEntry)) : Prop :=
  exists refs cs,
    h !! arr = Some (HeapModel.ObjArray refs) /\
    Forall2 (fun r c => h !! r = Some (HeapModel.ObjCandidate c)) refs cs /\
    Forall2 (represents h) cs pcs.

(** The result of [HeapModel.findBestMatch] stands for the pure one. *)
Definition bestRepresents (h : gmap HeapModel.loc HeapModel.object)
    (r : option HeapModel.loc * float) (pr : option libraryEntry * float) : Prop :=
  snd r = snd pr /\
  match fst r, fst pr with
  | Some l, Some e => h !! l = Some (HeapModel.ObjEntry e)
  | None, None => True
  | _, _ => False
  end.

(** The match objects of the first pass of [HeapModel.findAllMatches], for
    entries given with their references. *)
Fixpoint collectRefs (StringToNumber : string -> float) (targetTitle : string)
    (targetYear : yearArg) (entries : list (HeapModel.loc * libraryEntry))
    : list (candidate HeapModel.loc) :=
  match entries with
  | [] => []
  | (l, e) :: rest =>
      match scoreItem StringToNumber targetTitle targetYear l e with
      | Some m => m :: collectRefs StringToNumber targetTitle targetYear rest
      | None => collectRefs StringToNumber targetTitle targetYear rest
      end
  end.

(** The code units that the first three steps of [normalizeTitle] can
    leave: lower-case letters, digits, the underscore and the space. *)
Definition plainChar (c : ascii) : bool :=
  ((isWord c && negb (isUpper c)) || Ascii.eqb c " "%char)%bool.

(** Neither end of the string is white space. *)
Definition startsClean (s : chars) : bool :=
  match s with
  | [] => true
  | c :: _ => negb (isSpace c)
  end.

Definition trimmed (s : chars) : Prop :=
  startsClean s = true /\ startsClean (rev s) = true.

(** No maximal run of word characters of [s] (after the run [cur] in
    progress) is accepted by [p]. *)
Definition noRun (p : chars -> bool) (cur s : chars) : Prop :=
  Forall (fun w => p w = false) (runsFrom cur s).

(** The strings on which the token removals and the trim of
    [normalizeTitle] have nothing left to do. *)
Definition clean (s : chars) : Prop :=
  Forall (fun c => plainChar c = true) s /\
  noRun isYearToken [] s /\
  noRun (oneOf qualityWords) [] s /\
  noRun (oneOf languageWords) [] s /\
  noRun (oneOf seriesWords) [] s /\
  trimmed s.

(** The final scores of [a] and [b] differ by more than 0.05, as the
    comparator tests it. *)
Definition scoresApart {I : Type} (a b : candidate I) : bool :=
  PrimFloat.ltb 0.05 (abs (finalScore a - finalScore b)).

(** The ranking condition of an adjacent pair, [a] before [b]: the scores
    are more than 0.05 apart and [a]'s is at least [b]'s; or they are not,
    and [a]'s quality tier is at least [b]'s; or the quality tiers tie as
    well and [a]'s source tier is at least [b]'s. *)
Definition rankedPair {I : Type} (a b : candidate I) : Prop :=
  (scoresApart a b = true /\ PrimFloat.leb (finalScore b) (finalScore a) = true) \/
  (scoresApart a b = false /\ qualityScore b <= qualityScore a) \/
  (scoresApart a b = false /\ qualityScore a = qualityScore b /\
   sourceScore b <= sourceScore a).

(** The same with the three levels kept apart: the comparator does not
    put [b] before [a]. *)
Definition rankedBefore {I : Type} (a b : candidate I) : Prop :=
  (scoresApart a b = true /\ PrimFloat.leb (finalScore b) (finalScore a) = true) \/
  (scoresApart a b = false /\ qualityScore b < qualityScore a) \/
  (scoresApart a b = false /\ qualityScore a = qualityScore b /\
   sourceScore b <= sourceScore a).

(** The tiers of a match object are among those the extractors produce. *)
Definition tiersInRange {I : Type} (c : candidate I) : Prop :=
  0 <= qualityScore c <= 10 /\ 0 <= sourceScore c <= 10.

(** The year bonus as a function of the two years as numbers. *)
Definition bonusOfNumbers (itemYear targetYear : float) : float :=
  if truthyNumber targetYear then
    if PrimFloat.eqb itemYear targetYear then 0.1%float
    else Math_max (-0.05) (- abs (itemYear - targetYear) * 0.01)
  else 0%float.

(** The adjustment for two integer years [d] apart. *)
Definition expectedBonus (d : Z) : float :=
  if Z.eqb d 0 then 0.1%float
  else if Z.leb 5 d then (-0.05)%float
  else if Z.eqb d 1 then (-0.01)%float
  else if Z.eqb d 2 then (-0.02)%float
  else if Z.eqb d 3 then (-0.03)%float
  else (-0.04)%float.

Definition yearRange (lo : Z) (n : nat) : list Z :=
  List.map (fun k => lo + Z.of_nat k) (seq 0 n).

(** The check of [bonusOfNumbers] against [expectedBonus] for the target
    years [lo], ..., [lo + n - 1] and the item years [ilo], ...,
    [ilo + m - 1]. *)
Definition checkYears (lo : Z) (n : nat) (ilo : Z) (m : nat) : bool :=
  let itemYears := List.map (fun iy => (iy, Number_of_Z iy)) (yearRange ilo m) in
  forallb (fun Y =>
             let fy := Number_of_Z Y in
             forallb (fun p => PrimFloat.Leibniz.eqb (bonusOfNumbers (snd p) fy)
                                 (expectedBonus (Z.abs (fst p - Y))))
                     itemYears)
          (yearRange lo n).

(** A run of a merge sort: ordered by [R], every element in [P]. *)
Definition runOk {A : Type} (R : A -> A -> Prop) (P : A -> Prop) (l : list A) : Prop :=
  Sorted R l /\ Forall P l.

(** * Further definitions

    The functions below are those of the two files that the properties
    above leave out, with the statements used for them. *)
(** ** Statements about the extractors and the ranking *)

(** The priority rules of the source extractor on the title [t]. *)
Definition sourceRules (t : string) : Prop :=
  let r1 := containsTag t "bluray" \/ containsTag t "blu-ray" in
  let r2 := containsTag t "remux" in
  let r3 := containsTag t "web-dl" \/ containsTag t "webdl" in
  let r4 := containsTag t "webrip" in
  let r5 := containsTag t "hdtv" in
  let r6 := containsTag t "dvdrip" in
  (r1 -> extractSource t = (10, "BluRay")) /\
  (~ r1 -> r2 -> extractSource t = (9, "Remux")) /\
  (~ r1 -> ~ r2 -> r3 -> extractSource t = (8, "WEB-DL")) /\
  (~ r1 -> ~ r2 -> ~ r3 -> r4 -> extractSource t = (6, "WEBRip")) /\
  (~ r1 -> ~ r2 -> ~ r3 -> ~ r4 -> r5 -> extractSource t = (4, "HDTV")) /\
  (~ r1 -> ~ r2 -> ~ r3 -> ~ r4 -> ~ r5 -> r6 -> extractSource t = (3, "DVDRip")) /\
  (~ r1 -> ~ r2 -> ~ r3 -> ~ r4 -> ~ r5 -> ~ r6 -> extractSource t = (5, "Digital")).

(** A word boundary at the end of [pre]: no code unit, or a code unit that
    is no word character, comes last. *)
Definition endsAtBoundary (pre : chars) : Prop :=
  pre = [] \/ exists pre' c, pre = pre' ++ [c] /\ isWord c = false.

(** A word boundary at the start of [post]. *)
Definition startsAtBoundary (post : chars) : Prop :=
  match post with
  | [] => True
  | c :: _ => isWord c = false
  end.

(** The year [y] stands in the title [t]: four digits beginning with 19 or
    20, with a word boundary on either side. *)
Definition yearOccurs (t : string) (y : Z) : Prop :=
  exists pre w post,
    list_ascii_of_string t = pre ++ w ++ post /\
    isYearToken w = true /\ parseDigits w = y /\
    endsAtBoundary pre /\ startsAtBoundary post.

(** [t.toLowerCase()] on a string. *)
Definition lowerString (t : string) : string :=
  string_of_list_ascii (toLowerCase (list_ascii_of_string t)).

(** A match object carries what the extractors find in the title of its
    own item. *)
Definition derivedFromItem (StringToNumber : string -> float) (targetYear : yearArg)
    (c : candidate libraryEntry) : Prop :=
  title c = itemTitle (item c) /\
  (qualityScore c, qualityTag c) = extractQuality (title c) /\
  (sourceScore c, sourceTag c) = extractSource (title c) /\
  year c = extractYear (title c) /\
  yearBonus c = computeYearBonus StringToNumber targetYear (year c) /\
  finalScore c = (titleScore c + yearBonus c)%float.

(** A value with the sign [s]: a zero, an infinity or a finite number. *)
Definition signedAs (s : bool) (x : spec_float) : Prop :=
  x = S754_zero s \/ x = S754_infinity s \/ exists m e, x = S754_finite s m e.

(** The years that [extractYear] can produce, as doubles. *)
Definition finiteYears : bool :=
  forallb (fun iy => match Prim2SF (Number_of_Z iy) with
                     | S754_finite false _ _ => true
                     | _ => false
                     end)
          (yearRange 1900 200).

(** What the scan of the earlier [findBestMatch] has established after
    the entries [seen]: no entry yet and none of them reaches the
    threshold; or an entry of [seen] with its score, which reaches the
    threshold and which none of [seen] exceeds. *)
Definition legacyInv (targetTitle : string) (seen : list libraryEntry)
    (st : option libraryEntry * float) : Prop :=
  match st with
  | (Some it, s) =>
      In it seen /\
      s = fuzzyMatch targetTitle (itemTitle it) /\
      PrimFloat.leb matchingThreshold s = true /\
      forall it', In it' seen ->
        PrimFloat.ltb s (fuzzyMatch targetTitle (itemTitle it')) = false
  | (None, s) =>
      s = 0%float /\
      forall it', In it' seen -> clearsThreshold targetTitle it' = false
  end.

(** The search for [key] at the time [now] is not answered from the
    result cache: there is no entry, or it is an hour old or older. *)
Definition notFresh (now : Z) (key : string) (a : addon) : Prop :=
  forall c, realTimeCache a !! key = Some c -> cacheWindow <= now - timestamp c.

(** The key of an episode search in the result cache. *)
Definition episodeKey (imdbId : string) (seasonNo episodeNo : Z) : string :=
  String.append imdbId
    (String.append ":" (String.append (Z_to_string seasonNo)
       (String.append ":" (Z_to_string episodeNo)))).

(** An episode match for the requested [season] and [episode]: its video
    carries these numbers, and its tiers are what the extractors find in
    the video's title. *)
Definition episodeOk (seasonNo episodeNo : Z) (m : episodeMatch) : Prop :=
  PrimFloat.eqb (v_season (episode m)) (Number_of_Z seasonNo) = true /\
  PrimFloat.eqb (v_episode (episode m)) (Number_of_Z episodeNo) = true /\
  (ep_qualityScore m, ep_qualityTag m) = extractQuality (orElse (v_title (episode m)) "") /\
  (ep_sourceScore m, ep_sourceTag m) = extractSource (orElse (v_title (episode m)) "").

(** The series scores of [a] and [b] differ by more than 0.05, as the
    comparator of the episode search tests it. *)
Definition episodesApart (a b : episodeMatch) : bool :=
  PrimFloat.ltb 0.05 (abs (seriesScore a - seriesScore b)).

(** The ranking condition of two episode matches, [a] before [b]. *)
Definition rankedEpisodes (a b : episodeMatch) : Prop :=
  (episodesApart a b = true /\ PrimFloat.leb (seriesScore b) (seriesScore a) = true) \/
  (episodesApart a b = false /\ ep_qualityScore b < ep_qualityScore a) \/
  (episodesApart a b = false /\ ep_qualityScore a = ep_qualityScore b /\
   ep_sourceScore b <= ep_sourceScore a).

Definition episodeTiers (m : episodeMatch) : Prop :=
  0 <= ep_qualityScore m <= 10 /\ 0 <= ep_sourceScore m <= 10.

(** ** Request identifiers *)

(** [s.split(sep)] for a separator of one code unit: the fields between
    the separators, [cur] being the field read so far. *)
Fixpoint splitOnFrom (sep : ascii) (cur s : chars) : list chars :=
  match s with
  | [] => [cur]
  | c :: s' =>
      if Ascii.eqb c sep then cur :: splitOnFrom sep [] s'
      else splitOnFrom sep (cur ++ [c]) s'
  end.

Definition splitOn (sep : ascii) (s : string) : list string :=
  List.map string_of_list_ascii (splitOnFrom sep [] (list_ascii_of_string s)).

(** The value of a digit in the radix 10 or 16. *)
Definition radixDigit (radix : Z) (c : ascii) : option Z :=
  if isDigit c then Some (digitValue c)
  else if Z.eqb radix 16 then
    if inRange 97 102 c then Some (Z.of_N (code c) - 87)
    else if inRange 65 70 c then Some (Z.of_N (code c) - 55)
    else None
  else None.

(** The digits at the start of [s], most significant first. *)
Fixpoint leadingDigits (radix : Z) (s : chars) : list Z :=
  match s with
  | [] => []
  | c :: s' =>
      match radixDigit radix c with
      | Some d => d :: leadingDigits radix s'
      | None => []
      end
  end.

(** [parseInt(s)] with no radix: white space at the start is skipped, a
    sign is read, the prefix [0x] or [0X] selects the radix 16, and the
    longest run of digits gives the value; without a digit the result is
    NaN.  The value is the double nearest to the integer read. *)
Definition parseInt (s : string) : float :=
  let s1 := trimStart (list_ascii_of_string s) in
  let negative := isPrefix ["-"%char] s1 in
  let s2 :=
    if (isPrefix ["-"%char] s1 || isPrefix ["+"%char] s1)%bool then List.tl s1 else s1 in
  let hex :=
    (isPrefix (list_ascii_of_string "0x") s2
     || isPrefix (list_ascii_of_string "0X") s2)%bool in
  let radix := if hex then 16 else 10 in
  let s3 := if hex then skipn 2 s2 else s2 in
  match leadingDigits radix s3 with
  | [] => nan
  | ds =>
      let n := Number_of_Z (fold_left (fun acc d => radix * acc + d) ds 0) in
      if negative then (- n)%float else n
  end.

(** What [parseImdbRequest] returns: [{ imdbId, isEpisode: false }] or
    [{ imdbId, season, episode, isEpisode: true }]. *)
Inductive imdbRequest :=
  | MovieRequest (imdbId : string)
  | EpisodeRequest (imdbId : string) (seasonNo episodeNo : float).

Definition parseImdbRequest (id : string) : imdbRequest :=
  if includes [":"%char] (list_ascii_of_string id) then
    match splitOn ":" id with
    | [a; b; c] => EpisodeRequest a (parseInt b) (parseInt c)
    | _ => MovieRequest id
    end
  else MovieRequest id.

(** The number of colons of a string. *)
Definition colons (s : string) : nat :=
  List.length (List.filter (Ascii.eqb ":"%char) (list_ascii_of_string s)).

Definition noColon (s : string) : Prop := colons s = 0%nat.

(** ** Streams by identifier *)

(** The values that the fields of a catalogue item or of a video hold:
    [undefined] (the field is absent), [null], a number or a string. *)
Inductive jsval :=
  | JUndefined
  | JNull
  | JNum (x : float)
  | JStr (s : string).

(** [ToBoolean] *)
Definition isTruthy (v : jsval) : bool :=
  match v with
  | JUndefined | JNull => false
  | JNum x => truthyNumber x
  | JStr s => negb (String.eqb s "")
  end.

(** [v === s] for a string [s] *)
Definition strictEqString (v : jsval) (s : string) : bool :=
  match v with
  | JStr t => String.eqb t s
  | _ => false
  end.

(** [v === 1] *)
Definition strictEqOne (v : jsval) : bool :=
  match v with
  | JNum x => PrimFloat.eqb x 1
  | _ => false
  end.

(** [a || b] *)
Definition orValue (a b : jsval) : jsval := if isTruthy a then a else b.

(** A video of a series: an element of [info.videos] or of an array of
    [directSeriesEpisodeIndex]. *)
Record episodeVideo := EpisodeVideo {
  ev_id : jsval;
  ev_season : jsval;
  ev_episode : jsval;
  ev_title : jsval;
  ev_url : jsval
}.

(** A channel, a movie or a series of the catalogue; [ci_attributes] is
    [None] where the item has no [attributes] object. *)
Record catalogItem := CatalogItem {
  ci_id : jsval;
  ci_url : jsval;
  ci_type : jsval;
  ci_name : jsval;
  ci_category : jsval;
  ci_attributes : option (gmap string jsval)
}.

(** What [getStream] returns ([behaviorHints] holds [notWebReady]). *)
Record stream := Stream {
  stream_url : jsval;
  stream_title : jsval;
  notWebReady : bool
}.

(** The fields of the addon instance that [getStream] and
    [buildGenresInManifest] read: the three lists, the values of
    [seriesInfoCache] in insertion order ([None] where [info] is null or
    [info.videos] is no array), and the arrays of
    [directSeriesEpisodeIndex] in insertion order. *)
Record catalog := Catalog {
  cat_channels : list catalogItem;
  cat_movies : list catalogItem;
  cat_series : list catalogItem;
  cat_seriesInfo : list (option (list episodeVideo));
  cat_directIndex : list (list episodeVideo)
}.

(** [\d+] against a whole string *)
Definition allDigits (w : chars) : bool :=
  (negb (Nat.eqb (List.length w) 0) && forallb isDigit w)%bool.

(** [/^iptv_series_\d+:\d+:\d+$/]: three fields between two colons, the
    first made of the prefix and digits, the others of digits. *)
Definition isSeriesEpisodeId (id : string) : bool :=
  match splitOnFrom ":" [] (list_ascii_of_string id) with
  | [a; s; e] =>
      (isPrefix (list_ascii_of_string "iptv_series_") a
       && allDigits (skipn 12 a) && allDigits s && allDigits e)%bool
  | _ => false
  end.

(** A template literal: the pieces in order. *)
Definition template (pieces : list string) : string := String.concat "" pieces.

Section Streams.
(** [Number(s)] and [String(x)] of the language runtime, and the four
    emoji of the titles (they lie outside the 8-bit code units). *)
Variable StringToNumber : string -> float.
Variable NumberToString : float -> string.
Variable starEmoji tvEmoji clapperEmoji antennaEmoji : string.

(** [Number(v)] *)
Definition ToNumber (v : jsval) : float :=
  match v with
  | JUndefined => nan
  | JNull => 0%float
  | JNum x => x
  | JStr s => StringToNumber s
  end.

(** [`${v}`] *)
Definition ToString (v : jsval) : string :=
  match v with
  | JUndefined => "undefined"
  | JNull => "null"
  | JNum x => NumberToString x
  | JStr s => s
  end.

(** [v => Number(v.season) === season && Number(v.episode) === episode] *)
Definition matchesEpisode (seasonNo episodeNo : float) (v : episodeVideo) : bool :=
  (PrimFloat.eqb (ToNumber (ev_season v)) seasonNo
   && PrimFloat.eqb (ToNumber (ev_episode v)) episodeNo)%bool.

(** The first loop of [getStream]: in each cached series the first video
    with the two numbers is looked at, and returned if it has a URL. *)
Fixpoint findCachedEpisode (seasonNo episodeNo : float)
    (infos : list (option (list episodeVideo))) : option episodeVideo :=
  match infos with
  | [] => None
  | info :: rest =>
      match info with
      | Some videos =>
          match List.find (matchesEpisode seasonNo episodeNo) videos with
          | Some epEntry =>
              if isTruthy (ev_url epEntry) then Some epEntry
              else findCachedEpisode seasonNo episodeNo rest
          | None => findCachedEpisode seasonNo episodeNo rest
          end
      | None => findCachedEpisode seasonNo episodeNo rest
      end
  end.

(** The two loops of [lookupEpisodeById]. *)
Fixpoint lookupCached (epId : string) (infos : list (option (list episodeVideo)))
    : option episodeVideo :=
  match infos with
  | [] => None
  | info :: rest =>
      match info with
      | Some videos =>
          match List.find (fun v => strictEqString (ev_id v) epId) videos with
          | Some found => Some found
          | None => lookupCached epId rest
          end
      | None => lookupCached epId rest
      end
  end.

Fixpoint lookupDirect (epId : string) (arrays : list (list episodeVideo))
    : option episodeVideo :=
  match arrays with
  | [] => None
  | arr :: rest =>
      match List.find (fun v => strictEqString (ev_id v) epId) arr with
      | Some found => Some found
      | None => lookupDirect epId rest
      end
  end.

Definition lookupEpisodeById (c : catalog) (epId : string) : option episodeVideo :=
  match lookupCached epId (cat_seriesInfo c) with
  | Some found => Some found
  | None => lookupDirect epId (cat_directIndex c)
  end.

Definition getStream (c : catalog) (id : string) : option stream :=
  if (includes [":"%char] (list_ascii_of_string id) && isSeriesEpisodeId id)%bool then
    let parts := splitOn ":" id in
    let seasonStr := nth 1 parts "" in
    let episodeStr := nth 2 parts "" in
    let seasonNo := StringToNumber seasonStr in
    let episodeNo := StringToNumber episodeStr in
    let seasonEmoji := if PrimFloat.eqb seasonNo 1 then starEmoji else tvEmoji in
    match findCachedEpisode seasonNo episodeNo (cat_seriesInfo c) with
    | Some epEntry =>
        let episodeTitle :=
          orValue (ev_title epEntry)
                  (JStr (template ["Episode "; NumberToString episodeNo])) in
        Some {| stream_url := ev_url epEntry;
                stream_title :=
                  JStr (template [seasonEmoji; " "; ToString episodeTitle; " S";
                                  NumberToString seasonNo; "E"; NumberToString episodeNo;
                                  " "; clapperEmoji]);
                notWebReady := true |}
    | None =>
        match lookupEpisodeById c
                (template ["iptv_series_ep_"; seasonStr; "_"; episodeStr]) with
        | Some epEntry =>
            let episodeTitle := orValue (ev_title epEntry) (JStr "Episode") in
            Some {| stream_url := ev_url epEntry;
                    stream_title :=
                      JStr (template [seasonEmoji; " "; ToString episodeTitle; " S";
                                      NumberToString seasonNo; "E";
                                      NumberToString episodeNo; " "; clapperEmoji]);
                    notWebReady := true |}
        | None => None
        end
    end
  else if String.prefix "iptv_series_ep_" id then
    match lookupEpisodeById c id with
    | None => None
    | Some epEntry =>
        let episodeTitle := orValue (ev_title epEntry) (JStr "Episode") in
        let seasonEmoji := if strictEqOne (ev_season epEntry) then starEmoji else tvEmoji in
        let formattedTitle :=
          if isTruthy (ev_season epEntry)
          then template [seasonEmoji; " "; ToString episodeTitle; " S";
                         ToString (ev_season epEntry); "E"; ToString (ev_episode epEntry);
                         " "; clapperEmoji]
          else template [seasonEmoji; " "; ToString episodeTitle; " "; clapperEmoji] in
        Some {| stream_url := ev_url epEntry;
                stream_title := JStr formattedTitle;
                notWebReady := true |}
    end
  else
    match List.find (fun i => strictEqString (ci_id i) id)
                    (cat_channels c ++ cat_movies c) with
    | None => None
    | Some it =>
        Some {| stream_url := ci_url it;
                stream_title :=
                  if strictEqString (ci_type it) "tv"
                  then JStr (template [antennaEmoji; " "; ToString (ci_name it); " - Live"])
                  else ci_name it;
                notWebReady := true |}
    end.
End Streams.

(** The videos that [lookupEpisodeById] goes through, in its order: those
    of the cached series, then those of the direct index. *)
Definition allEpisodes (c : catalog) : list episodeVideo :=
  List.concat (List.map (fun info => match info with Some videos => videos | None => [] end)
                 (cat_seriesInfo c))
  ++ List.concat (cat_directIndex c).

(** ** The EPG offset of an instance *)

(** [isFinite(x)] *)
Definition isFiniteNumber (x : float) : bool := negb (is_nan x || is_infinity x).

Section Construction.
(** [parseFloat] of the language runtime. *)
Variable parseFloat : string -> float.

(** What the constructor leaves in [config.epgOffsetHours], from what it
    finds there: a string is replaced by its [parseFloat] unless that is
    NaN; then anything that is no finite number is replaced by 0, and so
    is a number of more than 48 in absolute value.  What is left is a
    number. *)
Definition normalizeEpgOffset (epgOffsetHours : jsval) : float :=
  let v1 :=
    match epgOffsetHours with
    | JStr s => let n := parseFloat s in if negb (is_nan n) then JNum n else epgOffsetHours
    | _ => epgOffsetHours
    end in
  let x2 :=
    match v1 with
    | JNum x => if negb (isFiniteNumber x) then 0%float else x
    | _ => 0%float
    end in
  if PrimFloat.ltb 48 (abs x2) then 0%float else x2.
End Construction.

(** ** The genres of the manifest *)

(** A catalogue of the manifest. *)
Record manifestCatalog := ManifestCatalog {
  mc_id : string;
  mc_genres : list string
}.

(** [item.attributes?.[key]] *)
Definition attribute (key : string) (it : catalogItem) : jsval :=
  match ci_attributes it with
  | Some attrs => match attrs !! key with Some v => v | None => JUndefined end
  | None => JUndefined
  end.

(** [c => c.category || c.attributes?.['group-title']] *)
Definition groupOf (it : catalogItem) : jsval :=
  orValue (ci_category it) (attribute "group-title" it).

(** [s => s.trim()]: a [TypeError] ([None]) on a value that is no string. *)
Definition trimValue (v : jsval) : option string :=
  match v with
  | JStr s => Some (string_of_list_ascii (trim (list_ascii_of_string s)))
  | _ => None
  end.

(** [xs.map(f)] where [f] may throw. *)
Fixpoint mapThrowing {A B} (f : A -> option B) (xs : list A) : option (list B) :=
  match xs with
  | [] => Some []
  | x :: xs' =>
      match f x with
      | Some y => match mapThrowing f xs' with Some ys => Some (y :: ys) | None => None end
      | None => None
      end
  end.

(** [set.add(x)] on a Set kept as the list of its elements in insertion
    order. *)
Definition setAdd (acc : list string) (x : string) : list string :=
  if existsb (String.eqb x) acc then acc else acc ++ [x].

(** [[...new Set(xs)]] *)
Definition setOf (xs : list string) : list string := fold_left setAdd xs [].

(** [catalogs.find(c => c.id === id)] followed by the assignment of its
    [genres]: the first catalogue with the identifier gets them. *)
Fixpoint setGenres (id : string) (genres : list string) (catalogs : list manifestCatalog)
    : list manifestCatalog :=
  match catalogs with
  | [] => []
  | c :: rest =>
      if String.eqb (mc_id c) id then ManifestCatalog (mc_id c) genres :: rest
      else c :: setGenres id genres rest
  end.

Definition hasCatalog (id : string) (catalogs : list manifestCatalog) : bool :=
  existsb (fun c => String.eqb (mc_id c) id) catalogs.

Section Genres.
(** [a.localeCompare(b)] of the language runtime. *)
Variable localeCompare : string -> string -> float.

(** The sorted, duplicate-free groups of a list of items. *)
Definition groupsOf (items : list catalogItem) : option (list string) :=
  match mapThrowing trimValue (List.filter isTruthy (List.map groupOf items)) with
  | Some groups => Some (sortBy localeCompare (setOf groups))
  | None => None
  end.

(** [buildGenresInManifest] on the catalogues of the manifest (the method
    returns at once when there is no manifest): the catalogues afterwards,
    and whether the method completed ([false]: it threw a [TypeError],
    after the assignments made so far). *)
Definition buildGenresInManifest (c : catalog) (catalogs : list manifestCatalog)
    : list manifestCatalog * bool :=
  let tvCatalog := hasCatalog "iptv_channels" catalogs in
  let movieCatalog := hasCatalog "iptv_movies" catalogs in
  let seriesCatalog := hasCatalog "iptv_series" catalogs in
  let afterTv :=
    if tvCatalog then
      match groupsOf (cat_channels c) with
      | Some groups =>
          let groups :=
            if negb (existsb (String.eqb "All Channels") groups)
            then "All Channels" :: groups else groups in
          Some (setGenres "iptv_channels" groups catalogs)
      | None => None
      end
    else Some catalogs in
  match afterTv with
  | None => (catalogs, false)
  | Some catalogs1 =>
      let afterMovies :=
        if movieCatalog then
          match groupsOf (cat_movies c) with
          | Some movieGroups => Some (setGenres "iptv_movies" movieGroups catalogs1)
          | None => None
          end
        else Some catalogs1 in
      match afterMovies with
      | None => (catalogs1, false)
      | Some catalogs2 =>
          if seriesCatalog then
            match groupsOf (cat_series c) with
            | Some seriesGroups => (setGenres "iptv_series" seriesGroups catalogs2, true)
            | None => (catalogs2, false)
            end
          else (catalogs2, true)
      end
  end.
End Genres.

(** The genres of the first catalogue with the identifier [id]. *)
Definition genresOf (id : string) (catalogs : list manifestCatalog) : option (list string) :=
  option_map mc_genres (List.find (fun c => String.eqb (mc_id c) id) catalogs).

(** The string [g] is the trimmed group of one of the [items]. *)
Definition isGroupOf (items : list catalogItem) (g : string) : Prop :=
  exists it s, In it items /\ groupOf it = JStr s /\ s <> "" /\
               g = string_of_list_ascii (trim (list_ascii_of_string s)).


(** ** The M3U playlist parser *)

(** The longest prefix of code units that satisfy [p], and what follows
    it. *)
Fixpoint takeWhile (p : ascii -> bool) (s : chars) : chars :=
  match s with
  | [] => []
  | c :: s' => if p c then c :: takeWhile p s' else []
  end.

Fixpoint dropWhile (p : ascii -> bool) (s : chars) : chars :=
  match s with
  | [] => []
  | c :: s' => if p c then dropWhile p s' else s
  end.

(** [.] of a regular expression matches every code unit but the line
    terminators (LF and CR among the 8-bit code units). *)
Definition isDot (c : ascii) : bool :=
  negb (N.eqb (code c) 10 || N.eqb (code c) 13).

Definition isComma (c : ascii) : bool := Ascii.eqb c ","%char.

(** The double quote, U+0022. *)
Definition doubleQuote : ascii := ascii_of_nat 34.
Definition isQuote (c : ascii) : bool := Ascii.eqb c doubleQuote.

(** The text before the last comma of [s] and the text after it ([cur]
    is the text read since the last comma seen, [found] what was read
    before that comma). *)
Fixpoint splitLastCommaFrom (found : option chars) (cur s : chars)
    : option (chars * chars) :=
  match s with
  | [] => match found with Some before => Some (before, cur) | None => None end
  | c :: s' =>
      if isComma c
      then splitLastCommaFrom
             (Some match found with Some before => before ++ ","%char :: cur | None => cur end)
             [] s'
      else splitLastCommaFrom found (cur ++ [c]) s'
  end.

Definition splitLastComma (s : chars) : option (chars * chars) :=
  splitLastCommaFrom None [] s.

(** The regular expression of [parseM3U] at the start of [s]: the text
    [#EXTINF:], an optional minus sign and digits (group 1), optionally
    white space and any text (group 2), a comma, and any text (group 3);
    "any text" holds no line terminator.  After the digits, white space
    makes the second group take part: it is the text up to the last
    comma before the next line terminator, and the third group is what
    follows that comma; without white space a comma must follow the
    digits at once, and the third group is the text after it up to the
    next line terminator. *)
Definition matchExtinfHere (s : chars) : option (chars * option chars * chars) :=
  if isPrefix (list_ascii_of_string "#EXTINF:") s then
    let r0 := skipn 8 s in
    let sign := if isPrefix ["-"%char] r0 then ["-"%char] else [] in
    let r1 := if isPrefix ["-"%char] r0 then List.tl r0 else r0 in
    let digits := takeWhile isDigit r1 in
    let r2 := dropWhile isDigit r1 in
    match digits with
    | [] => None
    | _ =>
        match takeWhile isSpace r2 with
        | [] =>
            match r2 with
            | c :: rest =>
                if isComma c then Some (sign ++ digits, None, takeWhile isDot rest) else None
            | [] => None
            end
        | _ =>
            match splitLastComma (takeWhile isDot (dropWhile isSpace r2)) with
            | Some (before, after) => Some (sign ++ digits, Some before, after)
            | None => None
            end
        end
    end
  else None.

(** [line.match(...)]: the match at the leftmost position that has one. *)
Fixpoint matchExtinf (s : chars) : option (chars * option chars * chars) :=
  match matchExtinfHere s with
  | Some m => Some m
  | None => match s with [] => None | _ :: s' => matchExtinf s' end
  end.

(** The name of an attribute at the start of [s], one or more runs of
    word characters joined by single hyphens: the name read ([cur] is
    what has been read) and what follows it.  A hyphen belongs to the name when a
    word character follows it. *)
Fixpoint scanName (cur s : chars) : chars * chars :=
  match s with
  | [] => (cur, s)
  | c :: s' =>
      if isWord c then scanName (cur ++ [c]) s'
      else if Ascii.eqb c "-"%char then
        match s' with
        | d :: _ => if isWord d then scanName (cur ++ [c]) s' else (cur, s)
        | [] => (cur, s)
        end
      else (cur, s)
  end.

(** The regular expression of [parseAttributes] at the start of [s]: a
    name, an equals sign and a value between two double quotes that
    holds no double quote.  The name, the value and what follows the
    match. *)
Definition matchAttributeHere (s : chars) : option (chars * chars * chars) :=
  match s with
  | c :: _ =>
      if isWord c then
        let (name, r) := scanName [] s in
        if isPrefix ["="%char; doubleQuote] r then
          let value := takeWhile (fun c => negb (isQuote c)) (skipn 2 r) in
          match dropWhile (fun c => negb (isQuote c)) (skipn 2 r) with
          | _ :: rest => Some (name, value, rest)
          | [] => None
          end
        else None
      else None
  | [] => None
  end.

(** [attrs[name] = value] on an object made by [{}]: the name [__proto__]
    is an accessor of the prototype, and the assignment of a string to it
    adds nothing. *)
Definition setAttribute (name value : string) (attrs : gmap string string)
    : gmap string string :=
  if String.eqb name "__proto__" then attrs else <[name := value]> attrs.

(** The loop of [parseAttributes]: [regex.exec] finds the leftmost match
    at or after [lastIndex]; [skip] counts the code units of the current
    match that are still to be passed. *)
Fixpoint scanAttributes (skip : nat) (s : chars) (attrs : gmap string string)
    : gmap string string :=
  match s with
  | [] => attrs
  | _ :: s' =>
      match skip with
      | S k => scanAttributes k s' attrs
      | O =>
          match matchAttributeHere s with
          | Some (name, value, rest) =>
              scanAttributes (List.length s' - List.length rest) s'
                (setAttribute (string_of_list_ascii name) (string_of_list_ascii value) attrs)
          | None => scanAttributes 0 s' attrs
          end
      end
  end.

Definition parseAttributes (str : string) : gmap string string :=
  scanAttributes 0 (list_ascii_of_string str) ∅.

(** A sequence of character classes at the start of [s], and anywhere in
    [s]. *)
Fixpoint matchClasses (classes : list (ascii -> bool)) (s : chars) : bool :=
  match classes, s with
  | [], _ => true
  | _ :: _, [] => false
  | p :: classes', c :: s' => (p c && matchClasses classes' s')%bool
  end.

Fixpoint includesClasses (classes : list (ascii -> bool)) (s : chars) : bool :=
  (matchClasses classes s
   || match s with [] => false | _ :: s' => includesClasses classes s' end)%bool.

(** [/x$/i] for a word [x] of letters and digits. *)
Definition endsWithIgnoringCase (x : string) (s : chars) : bool :=
  isPrefix (rev (list_ascii_of_string x)) (rev (toLowerCase s)).

(** [isMovieFormat]: one of [/\(\d{4}\)/], [/\d{4}\./] and
    [/HD$|FHD$|4K$/i] matches. *)
Definition isMovieFormat (name : string) : bool :=
  let s := list_ascii_of_string name in
  (includesClasses [Ascii.eqb "("%char; isDigit; isDigit; isDigit; isDigit; Ascii.eqb ")"%char] s
   || includesClasses [isDigit; isDigit; isDigit; isDigit; Ascii.eqb "."%char] s
   || (endsWithIgnoringCase "hd" s || endsWithIgnoringCase "fhd" s
       || endsWithIgnoringCase "4k" s))%bool.

(** [/\bS\d{1,2}E\d{1,2}\b/i]: the match lies between two word boundaries
    and consists of word characters, so it is a maximal run of them. *)
Definition isEpisodeToken (w : chars) : bool :=
  match toLowerCase w with
  | s :: r =>
      let d1 := takeWhile isDigit r in
      let r1 := dropWhile isDigit r in
      match r1 with
      | e :: r2 =>
          (Ascii.eqb s "s"%char && Ascii.eqb e "e"%char
           && Nat.leb 1 (List.length d1) && Nat.leb (List.length d1) 2
           && Nat.leb 1 (List.length r2) && Nat.leb (List.length r2) 2
           && forallb isDigit r2)%bool
      | [] => false
      end
  | [] => false
  end.

(** [/\bSeason\s?\d+/i] at the start of [s] (which is at a word
    boundary). *)
Definition seasonHere (s : chars) : bool :=
  (isPrefix (list_ascii_of_string "season") (toLowerCase (firstn 6 s))
   && match skipn 6 s with
      | c :: r =>
          (isDigit c || (isSpace c && match r with d :: _ => isDigit d | [] => false end))%bool
      | [] => false
      end)%bool.

(** A test at every start of a word of [s]; [prevWord] tells that the
    code unit before [s] is a word character. *)
Fixpoint anyWordStart (test : chars -> bool) (prevWord : bool) (s : chars) : bool :=
  match s with
  | [] => false
  | c :: s' =>
      ((negb prevWord && isWord c && test s) || anyWordStart test (isWord c) s')%bool
  end.

Inductive itemKind := KindTv | KindMovie | KindSeries.

(** An item of the playlist. *)
Record m3uItem := M3uItem {
  m3u_duration : float;
  m3u_attributes : gmap string string;
  m3u_name : string;
  m3u_url : string;
  m3u_logo : option string;
  m3u_epg_channel_id : option string;
  m3u_category : option string;
  m3u_type : itemKind;
  m3u_id : string
}.

(** [a || b] on two attribute values that may be absent. *)
Definition orAttribute (a b : option string) : option string :=
  match a with
  | Some s => if String.eqb s "" then b else a
  | None => b
  end.

(** The item under construction between its [#EXTINF] line and its URL
    line. *)
Record pendingItem := PendingItem {
  pending_duration : float;
  pending_attributes : gmap string string;
  pending_name : string
}.

Definition containsText (sub : string) (s : string) : bool :=
  includes (list_ascii_of_string sub) (list_ascii_of_string s).

Section Playlist.
(** The hexadecimal MD5 digest of a string, from the [crypto] module. *)
Variable md5hex : string -> string.

(** The completion of the current item by its URL line. *)
Definition completeItem (cur : pendingItem) (line : string) : m3uItem :=
  let attrs := pending_attributes cur in
  let name := pending_name cur in
  let group := lowerString (orElse (attrs !! "group-title") "") in
  let lower := lowerString name in
  let isMovie :=
    (containsText "movie" group || containsText "movie" lower || isMovieFormat name)%bool in
  let isSeries :=
    (negb isMovie
     && (containsText "series" group || containsText "show" group
         || existsb isEpisodeToken (wordRuns (list_ascii_of_string name))
         || anyWordStart seasonHere false (list_ascii_of_string name)))%bool in
  {| m3u_duration := pending_duration cur;
     m3u_attributes := attrs;
     m3u_name := name;
     m3u_url := line;
     m3u_logo := attrs !! "tvg-logo";
     m3u_epg_channel_id := orAttribute (attrs !! "tvg-id") (attrs !! "tvg-name");
     m3u_category := attrs !! "group-title";
     m3u_type := if isSeries then KindSeries else if isMovie then KindMovie else KindTv;
     m3u_id :=
       String.append "iptv_" (String.substring 0 16 (md5hex (String.append name line))) |}.

(** One turn of the loop over the lines: the items so far and the current
    item. *)
Definition parseLine (st : list m3uItem * option pendingItem) (raw : string)
    : list m3uItem * option pendingItem :=
  let '(items, currentItem) := st in
  let line := trim (list_ascii_of_string raw) in
  if isPrefix (list_ascii_of_string "#EXTINF:") line then
    match matchExtinf line with
    | Some (duration, attributes, name) =>
        (items,
         Some {| pending_duration := parseInt (string_of_list_ascii duration);
                 pending_attributes :=
                   parseAttributes
                     (string_of_list_ascii match attributes with Some a => a | None => [] end);
                 pending_name := string_of_list_ascii (trim name) |})
    | None => (items, currentItem)
    end
  else
    match line, currentItem with
    | c :: _, Some cur =>
        if negb (Ascii.eqb c "#"%char)
        then (items ++ [completeItem cur (string_of_list_ascii line)], None)
        else (items, currentItem)
    | _, _ => (items, currentItem)
    end.

Definition parseM3U (content : string) : list m3uItem :=
  fst (fold_left parseLine (splitOn (ascii_of_nat 10) content) ([], None)).
End Playlist.

(** ** Playlists as they are written *)

(** A name of an attribute: runs of word characters joined by single
    hyphens ([prevWord] tells that the code unit before [k] is a word
    character). *)
Fixpoint hyphenated (prevWord : bool) (k : chars) : bool :=
  match k with
  | [] => prevWord
  | c :: k' =>
      if isWord c then hyphenated true k'
      else (Ascii.eqb c "-"%char && prevWord && hyphenated false k')%bool
  end.

Definition validAttribute (kv : string * string) : bool :=
  (hyphenated false (list_ascii_of_string (fst kv))
   && forallb (fun c => negb (isQuote c)) (list_ascii_of_string (snd kv)))%bool.

(** The attributes of an [#EXTINF] line, each after a space. *)
Definition attributeText (kvs : list (string * string)) : chars :=
  List.concat
    (List.map
       (fun kv =>
          " "%char :: list_ascii_of_string (fst kv)
            ++ "="%char :: doubleQuote :: list_ascii_of_string (snd kv) ++ [doubleQuote])
       kvs).

(** The attributes separated by spaces. *)
Definition attributeList (kvs : list (string * string)) : chars :=
  List.tl (attributeText kvs).

(** The value of the last attribute of the name [k]. *)
Fixpoint lastValue (k : string) (kvs : list (string * string)) : option string :=
  match kvs with
  | [] => None
  | kv :: rest =>
      match lastValue k rest with
      | Some v => Some v
      | None => if String.eqb (fst kv) k then Some (snd kv) else None
      end
  end.

Definition attributesOf (kvs : list (string * string)) : gmap string string :=
  fold_left (fun attrs kv => setAttribute (fst kv) (snd kv) attrs) kvs ∅.

(** A duration as [#EXTINF] has it: digits after an optional minus
    sign. *)
Definition digitsOf (d : chars) : chars := if isPrefix ["-"%char] d then List.tl d else d.
Definition signOf (d : chars) : chars := if isPrefix ["-"%char] d then ["-"%char] else [].

Definition isDuration (d : chars) : bool :=
  (Nat.leb 1 (List.length (digitsOf d)) && forallb isDigit (digitsOf d))%bool.

(** The text read by [splitLastCommaFrom] so far. *)
Definition textSoFar (found : option chars) (cur : chars) : chars :=
  match found with Some before => before ++ ","%char :: cur | None => cur end.

Record playlistEntry := PlaylistEntry {
  written_duration : string;
  written_attributes : list (string * string);
  written_name : string;
  written_url : string
}.

Definition extinfLine (e : playlistEntry) : chars :=
  list_ascii_of_string "#EXTINF:" ++ list_ascii_of_string (written_duration e)
    ++ attributeText (written_attributes e)
    ++ ","%char :: list_ascii_of_string (written_name e).

Definition lineFeed : ascii := ascii_of_nat 10.

(** An entry that the parser reads back: no line terminator in its
    [#EXTINF] line, no comma in the name when attributes come before it,
    and a URL that is not a comment. *)
Definition validEntry (e : playlistEntry) : bool :=
  (isDuration (list_ascii_of_string (written_duration e))
   && forallb validAttribute (written_attributes e)
   && (match written_attributes e with [] => true | _ => false end
       || forallb (fun c => negb (isComma c)) (list_ascii_of_string (written_name e)))
   && forallb isDot (extinfLine e)
   && match trim (list_ascii_of_string (written_url e)) with
      | c :: _ => negb (Ascii.eqb c "#"%char)
      | [] => false
      end
   && forallb (fun c => negb (Ascii.eqb c lineFeed)) (list_ascii_of_string (written_url e)))%bool.

(** The end of a line: white space (a carriage return, say) before the
    line feed. *)
Definition validLineEnd (eol : chars) : bool :=
  forallb (fun c => isSpace c && negb (Ascii.eqb c lineFeed))%bool eol.

(** The two lines of an entry. *)
Definition entryLines (eol : chars) (e : playlistEntry) : chars :=
  extinfLine e ++ eol ++ lineFeed
    :: list_ascii_of_string (written_url e) ++ eol ++ [lineFeed].

Definition playlistText (eol : chars) (entries : list playlistEntry) : string :=
  string_of_list_ascii
    (list_ascii_of_string "#EXTM3U" ++ eol ++ lineFeed
       :: List.concat (List.map (entryLines eol) entries)).

(** The lines of a playlist that start an item. *)
Definition isExtinfLine (raw : string) : bool :=
  isPrefix (list_ascii_of_string "#EXTINF:") (trim (list_ascii_of_string raw)).

Section PlaylistItems.
Variable md5hex : string -> string.

Definition entryItem (e : playlistEntry) : m3uItem :=
  completeItem md5hex
    {| pending_duration := parseInt (written_duration e);
       pending_attributes := attributesOf (written_attributes e);
       pending_name := string_of_list_ascii (trim (list_ascii_of_string (written_name e))) |}
    (string_of_list_ascii (trim (list_ascii_of_string (written_url e)))).
End PlaylistItems.

(** ** Names of movies *)

(** Four digits between [before] and [after] somewhere in [s]. *)
Definition holdsYear (before : chars) (after : ascii) (s : chars) : Prop :=
  exists pre y post,
    s = pre ++ before ++ y ++ after :: post /\
    List.length y = 4%nat /\ forallb isDigit y = true.

(** [s] ends in [x], in any letter case. *)
Definition endsIn (x : string) (s : chars) : Prop :=
  exists pre suf, s = pre ++ suf /\ toLowerCase suf = list_ascii_of_string x.

(** What makes an item a movie: "movie" in its group or in its name, in
    any letter case, or a name that holds four digits in parentheses or
    before a full stop, or that ends in HD or 4K. *)
Definition movieMark (it : m3uItem) : Prop :=
  containsText "movie" (lowerString (orElse (m3u_category it) "")) = true \/
  containsText "movie" (lowerString (m3u_name it)) = true \/
  holdsYear ["("%char] ")"%char (list_ascii_of_string (m3u_name it)) \/
  holdsYear [] "."%char (list_ascii_of_string (m3u_name it)) \/
  endsIn "hd" (list_ascii_of_string (m3u_name it)) \/
  endsIn "4k" (list_ascii_of_string (m3u_name it)).
(** * Properties *)

(** ** Strings and lists *)

Lemma chars_eqb_eq (a b : chars) : chars_eqb a b = true <-> a = b.
Proof.
  unfold chars_eqb. destruct (list_eq_dec ascii_dec a b); split; congruence.
Qed.

Lemma includesWord_In (ws : list chars) (w : chars) :
  includesWord ws w = true <-> In w ws.
Proof.
  unfold includesWord. rewrite existsb_exists. split.
  - intros (x & Hx & He). apply chars_eqb_eq in He. now subst.
  - intros H. exists w. split; [assumption | now apply chars_eqb_eq].
Qed.

Lemma isPrefix_spec (p s : chars) :
  isPrefix p s = true <-> exists post, s = p ++ post.
Proof.
  revert s. induction p as [|a p IH]; intros s; simpl.
  - split; [intros _; now exists s | reflexivity].
  - destruct s as [|b s].
    + split; [discriminate | intros (post & H); discriminate].
    + rewrite andb_true_iff, Ascii.eqb_eq, IH. split.
      * intros (-> & post & ->). now exists post.
      * intros (post & H). injection H as -> ->. split; [reflexivity | now exists post].
Qed.

Lemma includes_spec (sub s : chars) :
  includes sub s = true <-> exists pre post, s = pre ++ sub ++ post.
Proof.
  induction s as [|c s IH].
  - cbn [includes]. rewrite orb_false_r, isPrefix_spec. split.
    + intros (post & H). now exists [], post.
    + intros (pre & post & H). destruct pre; [now exists post |discriminate].
  - cbn [includes]. rewrite orb_true_iff, isPrefix_spec, IH. split.
    + intros [(post & H) | (pre & post & H)].
      * now exists [], post.
      * exists (c :: pre), post. now rewrite H.
    + intros (pre & post & H). destruct pre as [|d pre].
      * left. now exists post.
      * right. injection H as -> ->. now exists pre, post.
Qed.

(** ** The sort *)

Section SortFacts.
Context {A : Type} (cmp : A -> A -> float).

Lemma insertBy_perm (x : A) (l : list A) : Permutation (insertBy cmp x l) (x :: l).
Proof.
  induction l as [|y l IH]; simpl.
  - reflexivity.
  - destruct (PrimFloat.ltb (cmp x y) 0).
    + reflexivity.
    + rewrite IH. apply perm_swap.
Qed.

Lemma sortBy_from_perm (l acc : list A) :
  Permutation (fold_left (fun acc x => insertBy cmp x acc) l acc) (acc ++ l).
Proof.
  revert acc. induction l as [|x l IH]; intros acc; simpl.
  - now rewrite app_nil_r.
  - rewrite IH, insertBy_perm. apply Permutation_middle.
Qed.

(** The sort rearranges its input and neither drops nor adds elements. *)
Lemma sortBy_perm (l : list A) : Permutation (sortBy cmp l) l.
Proof. unfold sortBy. now rewrite sortBy_from_perm. Qed.

Lemma sortBy_nil : sortBy cmp [] = [].
Proof. reflexivity. Qed.

Lemma sortBy_single (x : A) : sortBy cmp [x] = [x].
Proof. reflexivity. Qed.

Lemma sortBy_eq_nil (l : list A) : sortBy cmp l = [] <-> l = [].
Proof.
  split; intros H.
  - apply Permutation_nil. rewrite <- H. apply sortBy_perm.
  - now subst.
Qed.
End SortFacts.

(** ** Binary64 arithmetic

    Facts about the primitive floats, from their specification
    ([FloatAxioms]) over [spec_float]. *)

Lemma digits2_pos_bounds (m : positive) :
  2 ^ (Zpos (digits2_pos m) - 1) <= Zpos m < 2 ^ Zpos (digits2_pos m).
Proof.
  induction m as [m IH|m IH|]; cbn [digits2_pos].
  - rewrite Pos2Z.inj_succ, Z.pow_succ_r by lia.
    replace (Z.succ (Zpos (digits2_pos m)) - 1) with (Z.succ (Zpos (digits2_pos m) - 1)) by lia.
    rewrite Z.pow_succ_r by lia. lia.
  - rewrite Pos2Z.inj_succ, Z.pow_succ_r by lia.
    replace (Z.succ (Zpos (digits2_pos m)) - 1) with (Z.succ (Zpos (digits2_pos m) - 1)) by lia.
    rewrite Z.pow_succ_r by lia. lia.
  - simpl. lia.
Qed.

(** A finite binary64 value has a mantissa below 2^53 and an exponent of
    at least -1074; above that exponent the mantissa is normal. *)
Lemma valid_finite (s : bool) (m : positive) (e : Z) :
  valid_binary (S754_finite s m e) = true ->
  Zpos m < 2 ^ 53 /\ -1074 <= e /\ (-1074 < e -> 2 ^ 52 <= Zpos m).
Proof.
  unfold valid_binary, bounded, canonical_mantissa, fexp.
  change (SpecFloat.emin prec emax) with (-1074). change prec with 53.
  rewrite andb_true_iff, Z.eqb_eq. intros [H _].
  pose proof (digits2_pos_bounds m) as [Hlo Hhi].
  set (d := Zpos (digits2_pos m)) in *.
  assert (Hd : d <= 53) by lia.
  split; [|split].
  - eapply Z.lt_le_trans; [exact Hhi|]. apply Z.pow_le_mono_r; lia.
  - lia.
  - intros He. assert (d = 53) by lia. replace 52 with (d - 1) by lia. exact Hlo.
Qed.

Lemma iter_xO (m d : positive) : Zpos (Pos.iter xO m d) = Zpos m * 2 ^ Zpos d.
Proof.
  induction d as [|d IH] using Pos.peano_ind.
  - simpl. lia.
  - rewrite Pos.iter_succ, Pos2Z.inj_succ, Z.pow_succ_r by lia.
    rewrite Pos2Z.inj_xO, IH. lia.
Qed.

Lemma shl_align_fst (mx : positive) (ex ez : Z) :
  ez <= ex -> Zpos (fst (shl_align mx ex ez)) = Zpos mx * 2 ^ (ex - ez).
Proof.
  intros H. unfold shl_align. destruct (ez - ex) as [|d|d] eqn:E.
  - replace (ex - ez) with 0 by lia. simpl. lia.
  - lia.
  - replace (ex - ez) with (Zpos d) by lia. simpl. apply iter_xO.
Qed.

Lemma binary_round_aux_opp (s : bool) (m e : Z) (l : location) :
  binary_round_aux prec emax (negb s) m e l = SFopp (binary_round_aux prec emax s m e l).
Proof.
  unfold binary_round_aux.
  destruct (shr_fexp prec emax m e l) as [mrs' e'].
  destruct (shr_fexp prec emax _ e' loc_Exact) as [mrs'' e''].
  destruct (shr_m mrs''); [reflexivity | | reflexivity].
  destruct (e'' <=? emax - prec)%Z; reflexivity.
Qed.

Lemma binary_round_opp (m : positive) (e : Z) :
  binary_round prec emax true m e = SFopp (binary_round prec emax false m e).
Proof.
  unfold binary_round. destruct (shl_align m e _) as [mz ez].
  apply (binary_round_aux_opp false).
Qed.

(** A rounding with the positive sign is never below zero, one with the
    negative sign never above. *)
Lemma binary_round_aux_false (m e : Z) (l : location) :
  SFltb (binary_round_aux prec emax false m e l) (S754_zero false) = false.
Proof.
  unfold binary_round_aux.
  destruct (shr_fexp prec emax m e l) as [mrs' e'].
  destruct (shr_fexp prec emax _ e' loc_Exact) as [mrs'' e''].
  destruct (shr_m mrs''); [reflexivity | | reflexivity].
  destruct (e'' <=? emax - prec)%Z; reflexivity.
Qed.

Lemma binary_round_false (m : positive) (e : Z) :
  SFltb (binary_round prec emax false m e) (S754_zero false) = false.
Proof.
  unfold binary_round. destruct (shl_align m e _) as [mz ez].
  apply binary_round_aux_false.
Qed.

Lemma binary_round_true (m : positive) (e : Z) :
  SFltb (S754_zero false) (binary_round prec emax true m e) = false.
Proof.
  rewrite binary_round_opp.
  pose proof (binary_round_false m e) as H.
  destruct (binary_round prec emax false m e) as [[]|[]| |[] m' e'];
    cbv in H |- *; congruence.
Qed.

(** The cases of a binary operation in which an operand is a zero, an
    infinity or NaN are settled by evaluation. *)
Ltac special_cases :=
  lazymatch goal with
  | |- context [S754_finite _ _ _] =>
      lazymatch goal with
      | |- context [SFsub _ _ (S754_finite _ _ _) (S754_finite _ _ _)] => idtac
      | |- context [SF64sub (S754_finite _ _ _) (S754_finite _ _ _)] => idtac
      | |- context [SFcompare (S754_finite _ _ _) (S754_finite _ _ _)] => idtac
      | _ => repeat match goal with s : bool |- _ => destruct s end; cbv; congruence
      end
  | _ => repeat match goal with s : bool |- _ => destruct s end; cbv; congruence
  end.

Lemma SFabs_opp (x : spec_float) : SFabs (SFopp x) = SFabs x.
Proof. destruct x; reflexivity. Qed.

Lemma binary_normalize_opp (z e : Z) :
  SFabs (binary_normalize prec emax (- z) e false)
  = SFabs (binary_normalize prec emax z e false).
Proof.
  destruct z as [|p|p]; simpl; [reflexivity | |].
  - now rewrite binary_round_opp, SFabs_opp.
  - now rewrite binary_round_opp, SFabs_opp.
Qed.

(** |x - y| = |y - x| *)
Lemma SFsub_abs_sym (x y : spec_float) :
  SFabs (SFsub prec emax x y) = SFabs (SFsub prec emax y x).
Proof.
  destruct x as [sx|sx| |sx mx ex], y as [sy|sy| |sy my ey];
    try reflexivity; try (destruct sx, sy; reflexivity).
  unfold SFsub. rewrite (Z.min_comm ey ex).
  rewrite <- binary_normalize_opp. f_equal. f_equal. lia.
Qed.

Lemma abs_sub_sym (x y : float) : abs (x - y) = abs (y - x).
Proof.
  apply Prim2SF_inj. rewrite !abs_spec, !sub_spec. apply SFsub_abs_sym.
Qed.

(** The order of two finite values from the sign of the difference of
    their aligned mantissas. *)
Lemma SFcompare_aligned (sx sy : bool) (mx my : positive) (ex ey : Z) :
  valid_binary (S754_finite sx mx ex) = true ->
  valid_binary (S754_finite sy my ey) = true ->
  cond_Zopp sx (Zpos (fst (shl_align mx ex (Z.min ex ey))))
  - cond_Zopp sy (Zpos (fst (shl_align my ey (Z.min ex ey)))) < 0 ->
  SFcompare (S754_finite sx mx ex) (S754_finite sy my ey) = Some Lt.
Proof.
  intros Hx Hy.
  apply valid_finite in Hx as (Hx1 & Hx2 & Hx3).
  apply valid_finite in Hy as (Hy1 & Hy2 & Hy3).
  rewrite !shl_align_fst by lia.
  unfold SFcompare.
  destruct sx, sy; cbn [cond_Zopp]; intros H.
  - (* both negative *)
    destruct (Z.compare_spec ex ey) as [E|E|E].
    + subst ey. rewrite Z.min_id, Z.sub_diag in H.
      change (2 ^ 0) with 1 in H. rewrite !Z.mul_1_r in H.
      f_equal. rewrite Pos.compare_cont_spec. simpl.
      rewrite Pos2Z.inj_compare.
      destruct (Z.compare_spec (Zpos mx) (Zpos my)); simpl; [lia | lia | reflexivity].
    + exfalso. rewrite Z.min_l, Z.sub_diag in H by lia.
      assert (2 ^ 52 * 2 ^ 1 <= Zpos my * 2 ^ (ey - ex)).
      { apply Z.mul_le_mono_nonneg; [lia | apply Hy3; lia | lia |].
        apply Z.pow_le_mono_r; lia. }
      change (2 ^ 0) with 1 in H. lia.
    + reflexivity.
  - reflexivity.
  - exfalso.
    assert (0 < Zpos mx * 2 ^ (ex - Z.min ex ey)) by (apply Z.mul_pos_pos; [lia | apply Z.pow_pos_nonneg; lia]).
    assert (0 < Zpos my * 2 ^ (ey - Z.min ex ey)) by (apply Z.mul_pos_pos; [lia | apply Z.pow_pos_nonneg; lia]).
    lia.
  - (* both positive *)
    destruct (Z.compare_spec ex ey) as [E|E|E].
    + subst ey. rewrite Z.min_id, Z.sub_diag in H.
      change (2 ^ 0) with 1 in H. rewrite !Z.mul_1_r in H.
      f_equal. rewrite Pos.compare_cont_spec. simpl.
      rewrite Pos2Z.inj_compare.
      destruct (Z.compare_spec (Zpos mx) (Zpos my)); simpl; [lia | reflexivity | lia].
    + reflexivity.
    + exfalso. rewrite Z.min_r, Z.sub_diag in H by lia.
      assert (2 ^ 52 * 2 ^ 1 <= Zpos mx * 2 ^ (ex - ey)).
      { apply Z.mul_le_mono_nonneg; [lia | apply Hx3; lia | lia |].
        apply Z.pow_le_mono_r; lia. }
      change (2 ^ 0) with 1 in H. lia.
Qed.

Lemma Prim2SF_zero : Prim2SF 0 = S754_zero false.
Proof. reflexivity. Qed.

(** A negative difference: [x - y < 0] only if [x < y]. *)
Lemma sub_neg (x y : float) :
  PrimFloat.ltb (x - y) 0 = true -> PrimFloat.ltb x y = true.
Proof.
  rewrite !FloatAxioms.ltb_spec, sub_spec, Prim2SF_zero.
  pose proof (Prim2SF_valid x) as Vx. pose proof (Prim2SF_valid y) as Vy.
  destruct (Prim2SF x) as [sx|sx| |sx mx ex], (Prim2SF y) as [sy|sy| |sy my ey];
    special_cases.
  unfold SF64sub, SFsub.
  destruct (cond_Zopp sx (Zpos (fst (shl_align mx ex (Z.min ex ey))))
            - cond_Zopp sy (Zpos (fst (shl_align my ey (Z.min ex ey))))) as [|p|p] eqn:E;
    cbn [binary_normalize].
  - cbv. congruence.
  - rewrite binary_round_false. congruence.
  - intros _. unfold SFltb. rewrite (SFcompare_aligned sx sy mx my ex ey Vx Vy); [reflexivity|].
    rewrite E. reflexivity.
Qed.

(** A positive difference makes the opposite difference negative. *)
Lemma sub_flip (x y : float) :
  PrimFloat.ltb 0 (x - y) = true -> PrimFloat.ltb (y - x) 0 = true.
Proof.
  rewrite !FloatAxioms.ltb_spec, !sub_spec, Prim2SF_zero.
  destruct (Prim2SF x) as [sx|sx| |sx mx ex], (Prim2SF y) as [sy|sy| |sy my ey];
    special_cases.
  unfold SF64sub, SFsub. rewrite (Z.min_comm ey ex).
  set (a := cond_Zopp sx (Zpos (fst (shl_align mx ex (Z.min ex ey))))).
  set (b := cond_Zopp sy (Zpos (fst (shl_align my ey (Z.min ex ey))))).
  replace (b - a) with (- (a - b)) by lia.
  destruct (a - b) as [|p|p]; unfold Z.opp; cbn [binary_normalize].
  - cbv. congruence.
  - rewrite binary_round_opp.
    destruct (binary_round prec emax false p (Z.min ex ey)) as [[]|[]| |[] m' e'];
      cbv; congruence.
  - rewrite binary_round_true. congruence.
Qed.

Lemma ltb_leb (x y : float) : PrimFloat.ltb x y = true -> PrimFloat.leb x y = true.
Proof.
  rewrite FloatAxioms.ltb_spec, FloatAxioms.leb_spec. unfold SFltb, SFleb.
  destruct (SFcompare _ _) as [[]|]; congruence.
Qed.

(** Beyond a positive bound in absolute value means below or above zero. *)
Lemma abs_beyond (c d : float) :
  PrimFloat.ltb 0 c = true ->
  PrimFloat.ltb c (abs d) = true \/ PrimFloat.leb c (abs d) = true ->
  PrimFloat.ltb d 0 = true \/ PrimFloat.ltb 0 d = true.
Proof.
  rewrite !FloatAxioms.ltb_spec, FloatAxioms.leb_spec, abs_spec, Prim2SF_zero.
  destruct (Prim2SF d) as [sd|sd| |sd md ed], (Prim2SF c) as [sc|sc| |sc mc ec];
    try destruct sc; try destruct sd; cbv; intuition congruence.
Qed.

Lemma SFcompare_Eq_sym (x y : spec_float) :
  SFcompare x y = Some Eq -> SFcompare y x = Some Eq.
Proof.
  destruct x as [sx|sx| |sx mx ex], y as [sy|sy| |sy my ey];
    special_cases.
  unfold SFcompare.
  destruct sx, sy; try congruence;
    destruct (Z.compare_spec ex ey) as [->|?|?]; try congruence;
    rewrite Pos.compare_cont_spec; simpl;
    destruct (Pos.compare_spec mx my) as [->|?|?]; simpl; try congruence;
    intros _; rewrite Z.compare_refl, Pos.compare_cont_refl; reflexivity.
Qed.

(** Equal numbers are not five or more apart. *)
Lemma eqb_not_apart (c x y : float) :
  PrimFloat.ltb 0 c = true -> PrimFloat.eqb x y = true ->
  PrimFloat.leb c (abs (x - y)) = false.
Proof.
  intros Hc He. destruct (PrimFloat.leb c (abs (x - y))) eqn:E; [|reflexivity].
  exfalso.
  assert (Hlt : PrimFloat.ltb x y = true \/ PrimFloat.ltb y x = true).
  { destruct (abs_beyond c (x - y) Hc (or_intror E)) as [H|H].
    - left. now apply sub_neg.
    - right. now apply sub_neg, sub_flip. }
  rewrite FloatAxioms.eqb_spec in He. rewrite !FloatAxioms.ltb_spec in Hlt.
  unfold SFeqb, SFltb in *.
  destruct (SFcompare (Prim2SF x) (Prim2SF y)) as [[]|] eqn:E1; try discriminate.
  rewrite (SFcompare_Eq_sym _ _ E1) in Hlt. destruct Hlt; discriminate.
Qed.

(** *** Rounding of a product *)

Lemma shr_1_m (mrs : shr_record) :
  0 <= shr_m mrs -> shr_m (shr_1 mrs) = shr_m mrs / 2.
Proof.
  destruct mrs as [m r s]. cbn [shr_m]. intros H. rewrite <- Z.div2_div.
  destruct m as [|[p|p|]|p]; try reflexivity. lia.
Qed.

Lemma shr_m_iter (p : positive) (mrs : shr_record) :
  0 <= shr_m mrs -> shr_m (iter_pos shr_1 p mrs) = shr_m mrs / 2 ^ Zpos p.
Proof.
  revert mrs. induction p as [p IH|p IH|]; intros mrs H; cbn [iter_pos].
  - assert (H1 : 0 <= shr_m (shr_1 mrs)).
    { rewrite shr_1_m by assumption. apply Z.div_pos; lia. }
    assert (H2 : 0 <= shr_m (iter_pos shr_1 p (shr_1 mrs))).
    { rewrite IH by assumption. apply Z.div_pos; [assumption | apply Z.pow_pos_nonneg; lia]. }
    rewrite IH, IH, shr_1_m by assumption.
    rewrite !Z.div_div by (try apply Z.pow_pos_nonneg; lia).
    f_equal. rewrite (Pos2Z.inj_xI p).
    replace (2 * Z.pos p + 1) with (1 + Z.pos p + Z.pos p) by lia.
    rewrite !Z.pow_add_r by lia. change (2 ^ 1) with 2. lia.
  - assert (H2 : 0 <= shr_m (iter_pos shr_1 p mrs)).
    { rewrite IH by assumption. apply Z.div_pos; [assumption | apply Z.pow_pos_nonneg; lia]. }
    rewrite IH, IH by assumption.
    rewrite Z.div_div by (try apply Z.pow_pos_nonneg; lia).
    f_equal. rewrite (Pos2Z.inj_xO p).
    replace (2 * Z.pos p) with (Z.pos p + Z.pos p) by lia.
    rewrite Z.pow_add_r by lia. reflexivity.
  - rewrite shr_1_m by assumption. reflexivity.
Qed.

(** [shr_fexp] drops the bits below the exponent that the format assigns
    to the number. *)
Lemma shr_fexp_spec (m e : Z) (l : location) (mrs : shr_record) (e' : Z) :
  0 < m ->
  shr_fexp prec emax m e l = (mrs, e') ->
  let k := fexp prec emax (Zdigits2 m + e) - e in
  (0 < k -> shr_m mrs = m / 2 ^ k /\ e' = e + k) /\
  (k <= 0 -> shr_m mrs = m /\ e' = e).
Proof.
  intros Hm H k. unfold shr_fexp, shr in H. fold k in H.
  assert (Hrec : shr_m (shr_record_of_loc m l) = m) by (destruct l as [|[]]; reflexivity).
  destruct k as [|p|p] eqn:Ek.
  - injection H as <- <-. split; [lia | auto].
  - injection H as <- <-. split; [|lia]. intros _.
    rewrite shr_m_iter by (rewrite Hrec; lia). now rewrite Hrec.
  - injection H as <- <-. split; [lia | auto].
Qed.

Lemma round_nearest_even_bounds (m : Z) (l : location) :
  m <= round_nearest_even m l <= m + 1.
Proof. destruct l as [|[]]; simpl; try destruct (Z.even m); lia. Qed.

(** The number of binary digits of a number between two powers of two. *)
Lemma digits_between (q : positive) (n : Z) :
  0 < n -> 2 ^ (n - 1) <= Zpos q < 2 ^ n -> Zpos (digits2_pos q) = n.
Proof.
  intros Hn [Hlo Hhi]. pose proof (digits2_pos_bounds q) as [Dlo Dhi].
  set (d := Zpos (digits2_pos q)) in *.
  destruct (Z.lt_trichotomy d n) as [H|[H|H]]; [exfalso | assumption | exfalso].
  - assert (2 ^ d <= 2 ^ (n - 1)) by (apply Z.pow_le_mono_r; lia). lia.
  - assert (2 ^ n <= 2 ^ (d - 1)) by (apply Z.pow_le_mono_r; lia). lia.
Qed.

(** The rounded product of the mantissa of a double of at least 5 (and
    not 5 itself) with the mantissa of 0.01 is at least 0.05. *)
Lemma round_product (m : positive) (e : Z) :
  2 ^ 52 <= Zpos m < 2 ^ 53 -> -50 <= e ->
  (e = -50 -> 5629499534213121 <= Zpos m) ->
  let r := binary_round_aux prec emax true
             (Zpos (m * 5764607523034235)) (e + -59) loc_Exact in
  r = S754_infinity true \/
  exists m3 e3, r = S754_finite true m3 e3 /\
    (-57 < e3 \/ (e3 = -57 /\ 7205759403792794 <= Zpos m3)).
Proof.
  intros [Hlo Hhi] He Hm5 r. subst r.
  set (P := (m * 5764607523034235)%positive).
  assert (EP : Zpos P = Zpos m * 5764607523034235) by reflexivity.
  assert (HP : 2 ^ 104 <= Zpos P < 2 ^ 106).
  { rewrite EP. change (2 ^ 104) with (2 ^ 52 * 2 ^ 52).
    change (2 ^ 106) with (2 ^ 53 * 2 ^ 53). change (2 ^ 52) with 4503599627370496 in *.
    change (2 ^ 53) with 9007199254740992 in *. lia. }
  unfold binary_round_aux.
  destruct (shr_fexp prec emax (Zpos P) (e + -59) loc_Exact) as [mrs1 e1] eqn:E1.
  apply shr_fexp_spec in E1; [|lia]. cbn [Zdigits2] in E1.
  (* the first shift *)
  assert (Hk : exists k, (k = 52 \/ k = 53) /\ Zpos (digits2_pos P) = k + 53).
  { destruct (Z.lt_ge_cases (Zpos P) (2 ^ 105)) as [H|H].
    - exists 52. split; [auto|]. apply digits_between; [lia|]. simpl Z.sub. lia.
    - exists 53. split; [auto|]. apply digits_between; [lia|]. simpl Z.sub. lia. }
  destruct Hk as (k & Hk & Hd). rewrite Hd in E1.
  assert (Ek : fexp prec emax (k + 53 + (e + -59)) - (e + -59) = k).
  { unfold fexp. change (SpecFloat.emin prec emax) with (-1074). change prec with 53. lia. }
  rewrite Ek in E1. destruct (proj1 E1) as [Em1 Ee1]; [lia|]. clear E1.
  assert (Hm1 : 2 ^ 52 <= shr_m mrs1 < 2 ^ 53).
  { rewrite Em1. pose proof (digits2_pos_bounds P) as [Dlo Dhi]. rewrite Hd in Dlo, Dhi.
    replace (k + 53 - 1) with (52 + k) in Dlo by lia.
    rewrite Z.pow_add_r in Dlo, Dhi by lia.
    assert (0 < 2 ^ k) by (apply Z.pow_pos_nonneg; lia).
    split.
    - apply Z.div_le_lower_bound; lia.
    - apply Z.div_lt_upper_bound; lia. }
  pose proof (round_nearest_even_bounds (shr_m mrs1) (loc_of_shr_record mrs1)) as Hr.
  set (m2 := round_nearest_even (shr_m mrs1) (loc_of_shr_record mrs1)) in *.
  destruct (shr_fexp prec emax m2 e1 loc_Exact) as [mrs2 e2] eqn:E2.
  apply shr_fexp_spec in E2; [|lia].
  destruct m2 as [|q2|q2] eqn:Eq2; [lia | | lia]. cbn [Zdigits2] in E2.
  (* the low end of the range *)
  assert (Hlow : e1 = -57 -> 7205759403792794 <= shr_m mrs1).
  { intros H57. assert (e = -50 /\ k = 52) as [-> ->] by lia.
    rewrite Em1, EP. specialize (Hm5 eq_refl).
    transitivity (5629499534213121 * 5764607523034235 / 2 ^ 52).
    - vm_compute. discriminate.
    - apply Z.div_le_mono; [reflexivity | lia]. }
  destruct (Z.lt_ge_cases (Zpos q2) (2 ^ 53)) as [Hq|Hq].
  - (* no carry *)
    assert (Hd2 : Zpos (digits2_pos q2) = 53) by (apply digits_between; [lia|]; simpl Z.sub; lia).
    rewrite Hd2 in E2.
    assert (Ek2 : fexp prec emax (53 + e1) - e1 = 0).
    { unfold fexp. change (SpecFloat.emin prec emax) with (-1074). change prec with 53. lia. }
    rewrite Ek2 in E2. destruct (proj2 E2) as [Em2 Ee2]; [lia|]. clear E2.
    rewrite Em2. destruct (e2 <=? emax - prec)%Z; [right | now left].
    exists q2, e2. split; [reflexivity|].
    destruct (Z.eq_dec e1 (-57)) as [H57|H57]; [right | left; lia].
    split; [lia|]. specialize (Hlow H57). lia.
  - (* the rounding carried into the next binade *)
    assert (Eq53 : Zpos q2 = 2 ^ 53) by lia.
    assert (Hd2 : Zpos (digits2_pos q2) = 54).
    { apply digits_between; [lia|]. rewrite Eq53. simpl Z.sub.
      split; [lia|]. apply Z.pow_lt_mono_r; lia. }
    rewrite Hd2 in E2.
    assert (Ek2 : fexp prec emax (54 + e1) - e1 = 1).
    { unfold fexp. change (SpecFloat.emin prec emax) with (-1074). change prec with 53. lia. }
    rewrite Ek2 in E2. destruct (proj1 E2) as [Em2 Ee2]; [lia|]. clear E2.
    rewrite Em2, Eq53. change (2 ^ 53 / 2 ^ 1) with (Zpos 4503599627370496). cbv iota.
    destruct (e2 <=? emax - prec)%Z; [right | now left].
    exists 4503599627370496%positive, e2. split; [reflexivity|]. left. lia.
Qed.

(** The product that the year penalty takes the maximum with: for a year
    difference of 5 or more it is a number, and not above -0.05. *)
Lemma far_product (d : float) :
  PrimFloat.leb 5 d = true ->
  is_nan (- d * 0.01) = false /\ PrimFloat.ltb (-0.05) (- d * 0.01) = false.
Proof.
  intros H.
  assert (Hsf : Prim2SF (- d * 0.01) = S754_infinity true \/
                exists m3 e3, Prim2SF (- d * 0.01) = S754_finite true m3 e3 /\
                  (-57 < e3 \/ (e3 = -57 /\ 7205759403792794 <= Zpos m3))).
  { rewrite mul_spec, opp_spec.
    change (Prim2SF 0.01) with (S754_finite false 5764607523034235 (-59)).
    rewrite FloatAxioms.leb_spec in H.
    change (Prim2SF 5) with (S754_finite false 5629499534213120 (-50)) in H.
    pose proof (Prim2SF_valid d) as V.
    destruct (Prim2SF d) as [s|s| |s m e].
    - destruct s; cbv in H; discriminate.
    - destruct s; [cbv in H; discriminate | left; reflexivity].
    - cbv in H. discriminate.
    - destruct s; [cbv in H; discriminate|].
      apply valid_finite in V as (V1 & V2 & V3).
      unfold SFleb, SFcompare in H.
      cbn [SFopp negb SF64mul SFmul xorb].
      destruct (Z.compare_spec (-50) e) as [He|He|He]; [| |discriminate].
      + subst e. rewrite Pos.compare_cont_spec in H. cbn [Pos.switch_Eq] in H.
        rewrite Pos2Z.inj_compare in H.
        destruct (Z.compare_spec 5629499534213120 (Zpos m)) as [Hm|Hm|Hm]; [| |discriminate].
        * injection Hm as <-. right.
          exists 7205759403792794%positive, (-57). split; [vm_compute; reflexivity|].
          right. split; [reflexivity | lia].
        * apply round_product; [split; [apply V3|]; lia | lia | lia].
      + apply round_product; [split; [apply V3|]; lia | lia | lia]. }
  split.
  - unfold is_nan. rewrite FloatAxioms.eqb_spec.
    destruct Hsf as [E | (m3 & e3 & E & _)]; rewrite E; [reflexivity|].
    unfold SFeqb, SFcompare. now rewrite Z.compare_refl, Pos.compare_cont_refl.
  - rewrite FloatAxioms.ltb_spec.
    change (Prim2SF (-0.05)) with (S754_finite true 7205759403792794 (-57)).
    destruct Hsf as [E | (m3 & e3 & E & Hc)]; rewrite E; [reflexivity|].
    unfold SFltb, SFcompare.
    destruct (Z.compare_spec (-57) e3) as [He|He|He]; [|reflexivity|lia].
    rewrite Pos.compare_cont_spec. cbn [Pos.switch_Eq].
    rewrite Pos2Z.inj_compare.
    destruct (Z.compare_spec 7205759403792794 (Zpos m3)) as [Hm|Hm|Hm]; [reflexivity..|lia].
Qed.

(** The capped penalty. *)
Lemma far_penalty (d : float) :
  PrimFloat.leb 5 d = true -> Math_max (-0.05) (- d * 0.01) = (-0.05)%float.
Proof.
  intros H. destruct (far_product d H) as [Hn Hl].
  unfold Math_max. rewrite Hn, Hl. simpl.
  now destruct (PrimFloat.ltb (- d * 0.01) (-0.05)).
Qed.

(** ** Quality extraction *)

Lemma hasTag_spec (t tag : string) :
  hasTag (toLowerCase (list_ascii_of_string t)) tag = true <-> containsTag t tag.
Proof. unfold hasTag, containsTag. apply includes_spec. Qed.

Lemma hasTag_or (t a b : string) :
  (hasTag (toLowerCase (list_ascii_of_string t)) a
   || hasTag (toLowerCase (list_ascii_of_string t)) b)%bool = true
  <-> containsTag t a \/ containsTag t b.
Proof. now rewrite orb_true_iff, !hasTag_spec. Qed.

Lemma hasTag_or3 (t a b c : string) :
  (hasTag (toLowerCase (list_ascii_of_string t)) a
   || hasTag (toLowerCase (list_ascii_of_string t)) b
   || hasTag (toLowerCase (list_ascii_of_string t)) c)%bool = true
  <-> containsTag t a \/ containsTag t b \/ containsTag t c.
Proof. rewrite !orb_true_iff, !hasTag_spec. tauto. Qed.

Lemma not_containsTag_empty (tag : string) : tag <> "" -> ~ containsTag "" tag.
Proof.
  intros Hne (pre & post & H). simpl in H.
  destruct pre; [|discriminate].
  destruct tag; [congruence | discriminate].
Qed.

(** C7, as stated, fails at the empty title: it contains no tag, yet the
    result is [(0, "SD")] and not the default [(3, "HD")]. *)
Lemma extractQuality_empty_counterexample : ~ qualityRules "".
Proof.
  intros (_ & _ & _ & _ & H).
  assert (E : extractQuality "" = (3, "HD")).
  { apply H; intros Hc;
      repeat (destruct Hc as [Hc | Hc]);
      (eapply not_containsTag_empty; [|exact Hc]); discriminate. }
  discriminate E.
Qed.

(** C7 (amended): for every non-empty title the quality extractor applies
    the case-insensitive containment rules in the fixed order
    4k|2160p|uhd, 1080p|fhd, 720p|hd, 480p|sd, and returns the default
    (3, "HD") when none applies; the empty title yields (0, "SD"). *)
Theorem extractQuality_rules (t : string) :
  (t <> "" -> qualityRules t) /\ extractQuality "" = (0, "SD").
Proof.
  split; [|reflexivity].
  intros Hne. unfold qualityRules, extractQuality.
  destruct (String.eqb_spec t "") as [->|_]; [congruence|].
  set (tl := toLowerCase (list_ascii_of_string t)).
  pose proof (hasTag_or3 t "4k" "2160p" "uhd") as H1.
  pose proof (hasTag_or t "1080p" "fhd") as H2.
  pose proof (hasTag_or t "720p" "hd") as H3.
  pose proof (hasTag_or t "480p" "sd") as H4.
  fold tl in H1, H2, H3, H4.
  destruct (hasTag tl "4k" || hasTag tl "2160p" || hasTag tl "uhd")%bool;
    [ repeat split; intros; solve [reflexivity | exfalso; tauto] |].
  destruct (hasTag tl "1080p" || hasTag tl "fhd")%bool;
    [ repeat split; intros; solve [reflexivity | exfalso; intuition congruence] |].
  destruct (hasTag tl "720p" || hasTag tl "hd")%bool;
    [ repeat split; intros; solve [reflexivity | exfalso; intuition congruence] |].
  destruct (hasTag tl "480p" || hasTag tl "sd")%bool;
    repeat split; intros; solve [reflexivity | exfalso; intuition congruence].
Qed.

Lemma extractQuality_rules_witness :
  qualityRules "Movie 1080p HDTV" /\ extractQuality "Movie 1080p HDTV" = (6, "1080p").
Proof.
  split; [|reflexivity].
  apply (proj1 (extractQuality_rules "Movie 1080p HDTV")). discriminate.
Defined.

(** ** Title normalisation *)

Ltac each_char c := destruct c as [[] [] [] [] [] [] [] []].

Lemma space_not_word (c : ascii) : isSpace c = true -> isWord c = false.
Proof. each_char c; vm_compute; congruence. Qed.

Lemma plain_lower (c : ascii) : plainChar c = true -> lowerChar c = c.
Proof. each_char c; vm_compute; congruence. Qed.

Lemma plain_kept (c : ascii) : plainChar c = true -> (isWord c || isSpace c)%bool = true.
Proof. each_char c; vm_compute; congruence. Qed.

Lemma plain_space (c : ascii) : plainChar c = true -> isSpace c = true -> c = " "%char.
Proof. each_char c; vm_compute; congruence. Qed.

Lemma lowered_plain (c : ascii) :
  let c' := if (isWord (lowerChar c) || isSpace (lowerChar c))%bool
            then lowerChar c else " "%char in
  isSpace c' = false -> plainChar c' = true.
Proof. each_char c; vm_compute; congruence. Qed.

(** *** Steps that keep the code units *)

Lemma collapseFrom_Forall (P : ascii -> Prop) (b : bool) (s : chars) :
  P " "%char -> Forall P s -> Forall P (collapseFrom b s).
Proof.
  intros Hsp H. revert b. induction H as [|c s Hc H IH]; intros b; simpl.
  - constructor.
  - destruct (isSpace c); [destruct b|]; try constructor; auto.
Qed.

Lemma keepRun_Forall (P : ascii -> Prop) p (w : chars) :
  Forall P w -> Forall P (keepRun p w).
Proof. unfold keepRun. destruct (p w); [constructor | auto]. Qed.

Lemma removeWordsFrom_Forall (P : ascii -> Prop) p (cur s : chars) :
  Forall P cur -> Forall P s -> Forall P (removeWordsFrom p cur s).
Proof.
  intros Hcur H. revert cur Hcur. induction H as [|c s Hc H IH]; intros cur Hcur; simpl.
  - now apply keepRun_Forall.
  - destruct (isWord c).
    + apply IH. apply Forall_app. split; [assumption | now constructor].
    + apply Forall_app. split; [now apply keepRun_Forall|].
      constructor; [assumption|]. apply IH. constructor.
Qed.

Lemma trimStart_Forall (P : ascii -> Prop) (s : chars) :
  Forall P s -> Forall P (trimStart s).
Proof.
  induction 1 as [|c s Hc H IH]; simpl; [constructor|].
  destruct (isSpace c); [assumption | now constructor].
Qed.

Lemma trim_Forall (P : ascii -> Prop) (s : chars) : Forall P s -> Forall P (trim s).
Proof.
  intros H. unfold trim, trimEnd.
  apply Forall_rev, trimStart_Forall, Forall_rev, trimStart_Forall, H.
Qed.

Lemma collapsed_plain (b : bool) (s : chars) :
  Forall (fun c => plainChar c = true) (collapseFrom b (replaceSpecial (toLowerCase s))).
Proof.
  revert b. induction s as [|c s IH]; intros b; simpl; [constructor|].
  pose proof (lowered_plain c) as Hp. cbv zeta in Hp.
  destruct (isSpace (if (isWord (lowerChar c) || isSpace (lowerChar c))%bool
                     then lowerChar c else " "%char)).
  - destruct b; [apply IH | constructor; [reflexivity | apply IH]].
  - constructor; [now apply Hp | apply IH].
Qed.

(** *** Maximal runs of word characters *)

Lemma runsFrom_words (cur w : chars) :
  Forall (fun c => isWord c = true) w -> runsFrom cur w = [cur ++ w].
Proof.
  intros H. revert cur. induction H as [|c w Hc H IH]; intros cur; simpl.
  - now rewrite app_nil_r.
  - rewrite Hc, IH, <- app_assoc. reflexivity.
Qed.

Lemma runsFrom_app (cur w : chars) (c : ascii) (rest : chars) :
  Forall (fun c => isWord c = true) w -> isWord c = false ->
  runsFrom cur (w ++ c :: rest) = (cur ++ w) :: runsFrom [] rest.
Proof.
  intros H Hc. revert cur. induction H as [|d w Hd H IH]; intros cur; simpl.
  - now rewrite Hc, app_nil_r.
  - rewrite Hd, IH, <- app_assoc. reflexivity.
Qed.

(** The runs after a removal are the runs before it, the accepted ones
    emptied. *)
Lemma runs_removeWordsFrom p (cur s : chars) :
  Forall (fun c => isWord c = true) cur ->
  runsFrom [] (removeWordsFrom p cur s) = List.map (keepRun p) (runsFrom cur s).
Proof.
  revert cur. induction s as [|c s IH]; intros cur Hcur; simpl.
  - apply (runsFrom_words []). now apply keepRun_Forall.
  - destruct (isWord c) eqn:Hc.
    + apply IH. apply Forall_app. split; [assumption | now constructor].
    + rewrite (runsFrom_app [] (keepRun p cur) c _ (keepRun_Forall _ p cur Hcur) Hc).
      simpl. f_equal. apply IH. constructor.
Qed.

Lemma removeWords_noRun p (s : chars) :
  p [] = false -> noRun p [] (removeWords p s).
Proof.
  intros Hnil. unfold noRun, removeWords.
  rewrite runs_removeWordsFrom by constructor.
  apply Forall_map, Forall_forall. intros w _. unfold keepRun.
  destruct (p w) eqn:E; assumption.
Qed.

Lemma removeWords_keeps_noRun p q (s : chars) :
  q [] = false -> noRun q [] s -> noRun q [] (removeWords p s).
Proof.
  intros Hnil H. unfold noRun, removeWords in *.
  rewrite runs_removeWordsFrom by constructor.
  apply Forall_map. eapply Forall_impl; [|exact H].
  intros w Hw. simpl in Hw. unfold keepRun. now destruct (p w).
Qed.

Lemma removeWordsFrom_id p (cur s : chars) :
  noRun p cur s -> removeWordsFrom p cur s = cur ++ s.
Proof.
  unfold noRun. revert cur. induction s as [|c s IH]; intros cur H; simpl in *.
  - apply Forall_inv in H. unfold keepRun. now rewrite H, app_nil_r.
  - destruct (isWord c).
    + rewrite IH by assumption. now rewrite <- app_assoc.
    + apply Forall_cons_iff in H as [Hcur H].
      unfold keepRun. rewrite Hcur. f_equal. f_equal. now apply IH.
Qed.

Lemma removeWords_id p (s : chars) : noRun p [] s -> removeWords p s = s.
Proof. intros H. unfold removeWords. now rewrite removeWordsFrom_id. Qed.

Lemma noRun_collapseFrom p (b : bool) (cur s : chars) :
  p [] = false -> (b = true -> cur = []) ->
  noRun p cur s -> noRun p cur (collapseFrom b s).
Proof.
  intros Hnil. unfold noRun. revert b cur.
  induction s as [|c s IH]; intros b cur Hb H; simpl in *; [assumption|].
  destruct (isSpace c) eqn:Hs.
  - rewrite (space_not_word c Hs) in H. apply Forall_cons_iff in H as [Hcur H].
    destruct b.
    + rewrite (Hb eq_refl). now apply IH.
    + simpl. constructor; [assumption | now apply IH].
  - simpl. destruct (isWord c).
    + apply IH; [discriminate | assumption].
    + apply Forall_cons_iff in H as [Hcur H].
      constructor; [assumption|]. apply IH; [discriminate | assumption].
Qed.

Lemma noRun_trimStart p (s : chars) : noRun p [] s -> noRun p [] (trimStart s).
Proof.
  unfold noRun. induction s as [|c s IH]; intros H; simpl in *; [assumption|].
  destruct (isSpace c) eqn:Hs; [|exact H].
  rewrite (space_not_word c Hs) in H. apply Forall_cons_iff in H as [_ H]. now apply IH.
Qed.

Lemma trimStart_split (s : chars) :
  exists sp, s = sp ++ trimStart s /\ Forall (fun c => isSpace c = true) sp.
Proof.
  induction s as [|c s (sp & Hs & Hsp)]; simpl.
  - exists []. split; [reflexivity | constructor].
  - destruct (isSpace c) eqn:Hc.
    + exists (c :: sp). split; [simpl; now rewrite <- Hs | now constructor].
    + exists []. split; [reflexivity | constructor].
Qed.

Lemma trimEnd_split (s : chars) :
  exists sp, s = trimEnd s ++ sp /\ Forall (fun c => isSpace c = true) sp.
Proof.
  destruct (trimStart_split (rev s)) as (sp & Hs & Hsp).
  exists (rev sp). split; [|now apply Forall_rev].
  unfold trimEnd. rewrite <- rev_app_distr, <- Hs. now rewrite rev_involutive.
Qed.

Lemma noRun_prefix p (cur a sp : chars) :
  Forall (fun c => isSpace c = true) sp -> noRun p cur (a ++ sp) -> noRun p cur a.
Proof.
  unfold noRun. intros Hsp. destruct Hsp as [|c sp Hc Hsp].
  - now rewrite app_nil_r.
  - revert cur. induction a as [|d a IH]; intros cur H; simpl in *.
    + rewrite (space_not_word c Hc) in H. apply Forall_cons_iff in H as [H _].
      now constructor.
    + destruct (isWord d).
      * now apply IH.
      * apply Forall_cons_iff in H as [Hcur H]. constructor; [assumption | now apply IH].
Qed.

Lemma noRun_trim p (s : chars) : noRun p [] s -> noRun p [] (trim s).
Proof.
  intros H. unfold trim.
  destruct (trimEnd_split (trimStart s)) as (sp & Hs & Hsp).
  apply (noRun_prefix p [] _ sp Hsp). rewrite <- Hs. now apply noRun_trimStart.
Qed.

(** *** Trimming *)

Lemma trimStart_clean (s : chars) : startsClean s = true -> trimStart s = s.
Proof.
  destruct s as [|c s]; simpl; [reflexivity|].
  now destruct (isSpace c).
Qed.

Lemma trimStart_startsClean (s : chars) : startsClean (trimStart s) = true.
Proof.
  induction s as [|c s IH]; simpl; [reflexivity|].
  destruct (isSpace c) eqn:E; [assumption | simpl; now rewrite E].
Qed.

Lemma trimStart_snoc (s : chars) (c : ascii) :
  isSpace c = false -> trimStart (s ++ [c]) = trimStart s ++ [c].
Proof.
  intros Hc. induction s as [|d s IH]; simpl.
  - now rewrite Hc.
  - destruct (isSpace d); [assumption | reflexivity].
Qed.

Lemma trimEnd_startsClean (s : chars) :
  startsClean s = true -> startsClean (trimEnd s) = true.
Proof.
  destruct s as [|c s]; [reflexivity|]. simpl. intros Hc.
  apply negb_true_iff in Hc.
  unfold trimEnd. simpl. rewrite (trimStart_snoc _ c Hc), rev_app_distr. simpl.
  now rewrite Hc.
Qed.

Lemma trim_trimmed (s : chars) : trimmed (trim s).
Proof.
  unfold trimmed, trim. split.
  - apply trimEnd_startsClean, trimStart_startsClean.
  - unfold trimEnd. rewrite rev_involutive. apply trimStart_startsClean.
Qed.

Lemma trimmed_trim (s : chars) : trimmed s -> trim s = s.
Proof.
  intros [H1 H2]. unfold trim, trimEnd.
  rewrite (trimStart_clean s H1), (trimStart_clean (rev s) H2).
  apply rev_involutive.
Qed.

(** *** Collapsing white space *)

Lemma collapseFrom_snoc (b : bool) (s : chars) (c : ascii) :
  isSpace c = false -> collapseFrom b (s ++ [c]) = collapseFrom b s ++ [c].
Proof.
  intros Hc. revert b. induction s as [|d s IH]; intros b; simpl.
  - now rewrite Hc.
  - destruct (isSpace d); [destruct b|]; now rewrite IH.
Qed.

Lemma collapse_trimmed (s : chars) : trimmed s -> trimmed (collapseWhitespace s).
Proof.
  unfold trimmed, collapseWhitespace. intros [H1 H2]. split.
  - destruct s as [|c s]; [reflexivity|]. simpl in *.
    apply negb_true_iff in H1. rewrite H1. simpl. now rewrite H1.
  - destruct (rev s) as [|c r] eqn:E.
    + apply (f_equal (@rev ascii)) in E. rewrite rev_involutive in E. now subst.
    + apply (f_equal (@rev ascii)) in E. rewrite rev_involutive in E. simpl in E.
      subst s. simpl in H2. apply negb_true_iff in H2.
      rewrite (collapseFrom_snoc _ _ c H2), rev_app_distr. simpl. now rewrite H2.
Qed.

Lemma collapseFrom_idem (b : bool) (s : chars) :
  collapseFrom b (collapseFrom b s) = collapseFrom b s.
Proof.
  revert b. induction s as [|c s IH]; intros b; simpl; [reflexivity|].
  destruct (isSpace c) eqn:Hc.
  - destruct b; [apply IH|].
    simpl. change (isSpace " "%char) with true. cbv iota. f_equal. apply IH.
  - simpl. rewrite Hc. f_equal. apply IH.
Qed.

(** *** The normal form *)

Lemma removable_nil :
  isYearToken [] = false /\ oneOf qualityWords [] = false /\
  oneOf languageWords [] = false /\ oneOf seriesWords [] = false.
Proof. repeat split. Qed.

Lemma normalizeChars_clean (s : chars) : clean (normalizeChars s).
Proof.
  destruct removable_nil as (Hy & Hq & Hl & Hs).
  unfold clean, normalizeChars, collapseWhitespace.
  split; [|split; [|split; [|split; [|split]]]].
  - apply trim_Forall. repeat (apply removeWordsFrom_Forall; [constructor|]).
    apply collapsed_plain.
  - apply noRun_trim. do 3 (apply removeWords_keeps_noRun; [assumption|]).
    now apply removeWords_noRun.
  - apply noRun_trim. do 2 (apply removeWords_keeps_noRun; [assumption|]).
    now apply removeWords_noRun.
  - apply noRun_trim. apply removeWords_keeps_noRun; [assumption|].
    now apply removeWords_noRun.
  - apply noRun_trim. now apply removeWords_noRun.
  - apply trim_trimmed.
Qed.

Lemma collapse_clean (s : chars) : clean s -> clean (collapseWhitespace s).
Proof.
  destruct removable_nil as (Hy & Hq & Hl & Hs).
  intros (Hp & H1 & H2 & H3 & H4 & Ht). unfold clean, collapseWhitespace.
  split; [now apply collapseFrom_Forall|].
  do 4 (split; [apply noRun_collapseFrom; [assumption | discriminate | assumption]|]).
  now apply collapse_trimmed.
Qed.

Lemma toLowerCase_plain (s : chars) :
  Forall (fun c => plainChar c = true) s -> toLowerCase s = s.
Proof.
  unfold toLowerCase. induction 1 as [|c s Hc Hp IH]; simpl; [reflexivity|].
  now rewrite (plain_lower c Hc), IH.
Qed.

Lemma replaceSpecial_plain (s : chars) :
  Forall (fun c => plainChar c = true) s -> replaceSpecial s = s.
Proof.
  unfold replaceSpecial. induction 1 as [|c s Hc Hp IH]; simpl; [reflexivity|].
  now rewrite (plain_kept c Hc), IH.
Qed.

(** On a clean string only the white-space collapse has an effect. *)
Lemma normalizeChars_on_clean (s : chars) :
  clean s -> normalizeChars s = collapseWhitespace s.
Proof.
  intros Hc. pose proof (collapse_clean s Hc) as (_ & H1 & H2 & H3 & H4 & Ht).
  destruct Hc as (Hp & _). unfold normalizeChars.
  rewrite (toLowerCase_plain s Hp), (replaceSpecial_plain s Hp).
  rewrite (removeWords_id _ _ H1), (removeWords_id _ _ H2),
    (removeWords_id _ _ H3), (removeWords_id _ _ H4).
  now apply trimmed_trim.
Qed.

Lemma normalizeChars_stable (s : chars) :
  normalizeChars (normalizeChars (normalizeChars s)) = normalizeChars (normalizeChars s).
Proof.
  pose proof (normalizeChars_clean s) as Hc.
  rewrite (normalizeChars_on_clean _ Hc).
  rewrite (normalizeChars_on_clean _ (collapse_clean _ Hc)).
  apply collapseFrom_idem.
Qed.

Lemma normalizeTitle_chars (t : string) :
  normalizeTitle t = string_of_list_ascii (normalizeChars (list_ascii_of_string t)).
Proof.
  unfold normalizeTitle. destruct (String.eqb_spec t "") as [->|_]; reflexivity.
Qed.

(** C4, as stated, fails: a token stripped from between two kept words
    leaves both of its spaces, and the second pass collapses them. *)
Lemma normalizeTitle_not_idempotent :
  normalizeTitle "a 2020 b" = "a  b" /\
  normalizeTitle (normalizeTitle "a 2020 b") = "a b" /\
  normalizeTitle (normalizeTitle "a 2020 b") <> normalizeTitle "a 2020 b".
Proof.
  split; [vm_compute; reflexivity|]. split; [vm_compute; reflexivity|].
  vm_compute. discriminate.
Qed.

(** C4 (amended): normalisation reaches its fixed point at the second
    application: for every string x,
    normalize(normalize(normalize(x))) = normalize(normalize(x)). *)
Theorem normalizeTitle_stable (x : string) :
  normalizeTitle (normalizeTitle (normalizeTitle x)) = normalizeTitle (normalizeTitle x).
Proof.
  rewrite !normalizeTitle_chars, !list_ascii_of_string_of_list_ascii.
  now rewrite normalizeChars_stable.
Qed.

(** ** The similarity score *)

(** C10: two titles with the same normal form score exactly 1.0; this
    includes titles that consist of stripped tokens only and normalise to
    the empty string. *)
Theorem fuzzyMatch_same_normal_form (a b : string) :
  normalizeTitle a = normalizeTitle b -> fuzzyMatch a b = 1%float.
Proof.
  intros H. unfold fuzzyMatch. rewrite H, String.eqb_refl. reflexivity.
Qed.

Lemma fuzzyMatch_same_normal_form_witness :
  normalizeTitle "1080p" = "" /\ normalizeTitle "2023" = "" /\
  fuzzyMatch "1080p" "2023" = 1%float.
Proof.
  split; [reflexivity|]. split; [reflexivity|].
  apply (fuzzyMatch_same_normal_form "1080p" "2023"). reflexivity.
Defined.

Lemma common_words_sym (l1 l2 : list chars) :
  List.NoDup l1 -> List.NoDup l2 ->
  List.length (List.filter (includesWord l2) l1)
  = List.length (List.filter (includesWord l1) l2).
Proof.
  intros H1 H2. apply Permutation_length. apply NoDup_Permutation.
  - now apply List.NoDup_filter.
  - now apply List.NoDup_filter.
  - intros w. rewrite !filter_In, !includesWord_In. tauto.
Qed.

(** C5, as stated, fails: a repeated token is counted once per occurrence
    on the left and once on the right. *)
Lemma fuzzyMatch_not_symmetric :
  fuzzyMatch "aaa aaa bbb" "aaa ccc ddd" = (2 / 3)%float /\
  fuzzyMatch "aaa ccc ddd" "aaa aaa bbb" = (1 / 3)%float /\
  fuzzyMatch "aaa aaa bbb" "aaa ccc ddd" <> fuzzyMatch "aaa ccc ddd" "aaa aaa bbb".
Proof.
  split; [vm_compute; reflexivity|]. split; [vm_compute; reflexivity|].
  intros H. apply (f_equal (fun x => PrimFloat.ltb x 0.5)) in H.
  vm_compute in H. discriminate H.
Qed.

(** C5 (amended): the score is symmetric whenever neither title's filtered
    token list contains a repeated token, whatever the lengths of the two
    lists. *)
Theorem fuzzyMatch_sym (a b : string) :
  List.NoDup (titleWords (normalizeTitle a)) ->
  List.NoDup (titleWords (normalizeTitle b)) ->
  fuzzyMatch a b = fuzzyMatch b a.
Proof.
  intros Ha Hb. unfold fuzzyMatch.
  rewrite (String.eqb_sym (normalizeTitle b) (normalizeTitle a)).
  destruct (String.eqb (normalizeTitle a) (normalizeTitle b)); [reflexivity|].
  rewrite (orb_comm (Nat.eqb (List.length (titleWords (normalizeTitle b))) 0)).
  destruct (_ || _)%bool; [reflexivity|].
  now rewrite (common_words_sym _ _ Ha Hb), Nat.max_comm.
Qed.

Lemma fuzzyMatch_sym_witness :
  fuzzyMatch "alien earth resurrection" "alien earth"
  = fuzzyMatch "alien earth" "alien earth resurrection".
Proof.
  apply (fuzzyMatch_sym "alien earth resurrection" "alien earth");
    vm_compute; repeat constructor; simpl; intuition discriminate.
Defined.

(** ** Candidates *)

Lemma threshold_positive (x : float) :
  PrimFloat.leb matchingThreshold x = true -> PrimFloat.ltb 0 x = true.
Proof.
  unfold matchingThreshold. rewrite FloatAxioms.leb_spec, FloatAxioms.ltb_spec.
  change (Prim2SF 0.8) with (S754_finite false 7205759403792794 (-53)).
  change (Prim2SF 0) with (S754_zero false).
  destruct (Prim2SF x) as [s|s| |s m e]; try destruct s; cbn; try discriminate; auto.
Qed.

Section CandidateFacts.
Variable StringToNumber : string -> float.
Variable targetTitle : string.
Variable targetYear : yearArg.

Lemma scoreItem_Some {I : Type} (ref : I) (it : libraryEntry) (m : candidate I) :
  scoreItem StringToNumber targetTitle targetYear ref it = Some m ->
  clearsThreshold targetTitle it = true /\
  item m = ref /\
  titleScore m = fuzzyMatch targetTitle (itemTitle it) /\
  qualityScore m = fst (extractQuality (itemTitle it)) /\
  sourceScore m = fst (extractSource (itemTitle it)).
Proof.
  unfold scoreItem, clearsThreshold.
  destruct (PrimFloat.leb _ _); [|discriminate].
  intros H. injection H as <-. simpl. auto.
Qed.

Lemma scoreItem_None {I : Type} (ref : I) (it : libraryEntry) :
  scoreItem StringToNumber targetTitle targetYear ref it = None <->
  clearsThreshold targetTitle it = false.
Proof.
  unfold scoreItem, clearsThreshold.
  destruct (PrimFloat.leb _ _); split; congruence.
Qed.

Lemma collectMatches_items (lib : list libraryEntry) :
  List.map item (collectMatches StringToNumber targetTitle targetYear lib)
  = List.filter (clearsThreshold targetTitle) lib.
Proof.
  induction lib as [|it lib IH]; simpl; [reflexivity|].
  destruct (scoreItem _ _ _ it it) as [m|] eqn:E.
  - apply scoreItem_Some in E as (-> & <- & _). simpl. now rewrite IH.
  - apply scoreItem_None in E as ->. exact IH.
Qed.

Lemma collectMatches_threshold (lib : list libraryEntry) :
  Forall (fun c => PrimFloat.leb matchingThreshold (titleScore c) = true /\
                   titleScore c = fuzzyMatch targetTitle (itemTitle (item c)) /\
                   In (item c) lib)
         (collectMatches StringToNumber targetTitle targetYear lib).
Proof.
  induction lib as [|it lib IH]; simpl; [constructor|].
  assert (IH' : Forall (fun c => PrimFloat.leb matchingThreshold (titleScore c) = true /\
                                 titleScore c = fuzzyMatch targetTitle (itemTitle (item c)) /\
                                 (it = item c \/ In (item c) lib))
                  (collectMatches StringToNumber targetTitle targetYear lib)).
  { eapply Forall_impl; [|exact IH]. cbv beta. tauto. }
  destruct (scoreItem _ _ _ it it) as [m|] eqn:E; [|exact IH'].
  constructor; [|exact IH'].
  apply scoreItem_Some in E as (Hc & Hi & Ht & _).
  rewrite Hi, Ht. auto.
Qed.
End CandidateFacts.

(** C2: every candidate that [findAllMatches] returns has a title score of
    at least the matching threshold 0.8; that score is the similarity of
    the target title and the candidate's library entry, so an entry that
    scores below the threshold is not in the output. *)
Theorem findAllMatches_threshold (StringToNumber : string -> float)
    (targetTitle : string) (targetYear : yearArg) (contentLibrary : list libraryEntry) :
  Forall (fun c => PrimFloat.leb 0.8 (titleScore c) = true /\
                   titleScore c = fuzzyMatch targetTitle (itemTitle (item c)) /\
                   In (item c) contentLibrary)
         (findAllMatches StringToNumber targetTitle targetYear contentLibrary).
Proof.
  unfold findAllMatches.
  eapply Permutation_Forall.
  - symmetry. apply sortBy_perm.
  - apply collectMatches_threshold.
Qed.

(** ** The two versions of [findBestMatch] *)

Section BestMatch.
Variable StringToNumber : string -> float.
Variable targetTitle : string.

Lemma legacy_skip (it : libraryEntry) st :
  clearsThreshold targetTitle it = false -> Legacy.step targetTitle st it = st.
Proof.
  unfold clearsThreshold, Legacy.step. intros E. destruct st as [bm bs].
  now rewrite E, andb_false_r.
Qed.

Lemma legacy_first_candidate (it : libraryEntry) :
  clearsThreshold targetTitle it = true ->
  Legacy.step targetTitle (None, 0%float) it
  = (Some it, fuzzyMatch targetTitle (itemTitle it)).
Proof.
  unfold clearsThreshold, Legacy.step. intros H.
  now rewrite H, (threshold_positive _ H).
Qed.

Lemma legacy_no_candidate (lib : list libraryEntry) st :
  List.filter (clearsThreshold targetTitle) lib = [] ->
  fold_left (Legacy.step targetTitle) lib st = st.
Proof.
  revert st. induction lib as [|it lib IH]; intros st H; [reflexivity|].
  cbn [fold_left List.filter] in *.
  destruct (clearsThreshold targetTitle it) eqn:E; [discriminate|].
  rewrite (legacy_skip it st E). now apply IH.
Qed.

Lemma legacy_keeps_match (lib : list libraryEntry) it0 bs :
  exists it s, fold_left (Legacy.step targetTitle) lib (Some it0, bs) = (Some it, s).
Proof.
  revert it0 bs. induction lib as [|it lib IH]; intros it0 bs; simpl.
  - now exists it0, bs.
  - destruct (_ && _)%bool; apply IH.
Qed.

Lemma legacy_None_iff (lib : list libraryEntry) :
  fst (Legacy.findBestMatch targetTitle lib) = None <->
  List.filter (clearsThreshold targetTitle) lib = [].
Proof.
  unfold Legacy.findBestMatch. split.
  - induction lib as [|it lib IH]; [reflexivity|].
    cbn [fold_left List.filter].
    destruct (clearsThreshold targetTitle it) eqn:E.
    + rewrite (legacy_first_candidate it E).
      destruct (legacy_keeps_match lib it (fuzzyMatch targetTitle (itemTitle it)))
        as (it' & s & ->). discriminate.
    + rewrite (legacy_skip it _ E). exact IH.
  - intros H. now rewrite legacy_no_candidate.
Qed.

Lemma legacy_single (lib : list libraryEntry) (it : libraryEntry) :
  List.filter (clearsThreshold targetTitle) lib = [it] ->
  fst (Legacy.findBestMatch targetTitle lib) = Some it.
Proof.
  unfold Legacy.findBestMatch.
  induction lib as [|x lib IH]; [discriminate|].
  cbn [fold_left List.filter].
  destruct (clearsThreshold targetTitle x) eqn:E.
  - intros H. injection H as -> H.
    rewrite (legacy_first_candidate it E), legacy_no_candidate by assumption.
    reflexivity.
  - rewrite (legacy_skip x _ E). exact IH.
Qed.

Lemma current_None_iff (lib : list libraryEntry) :
  fst (findBestMatch StringToNumber targetTitle lib) = None <->
  List.filter (clearsThreshold targetTitle) lib = [].
Proof.
  unfold findBestMatch, findAllMatches.
  rewrite <- (collectMatches_items StringToNumber targetTitle YearNull).
  destruct (sortBy compareMatches _) as [|m l] eqn:E.
  - apply sortBy_eq_nil in E. rewrite E. simpl. tauto.
  - simpl. split; [discriminate|].
    intros H. apply map_eq_nil in H. rewrite H in E. discriminate.
Qed.

Lemma current_single (lib : list libraryEntry) (it : libraryEntry) :
  List.filter (clearsThreshold targetTitle) lib = [it] ->
  fst (findBestMatch StringToNumber targetTitle lib) = Some it.
Proof.
  intros H. unfold findBestMatch, findAllMatches.
  rewrite <- (collectMatches_items StringToNumber targetTitle YearNull) in H.
  destruct (collectMatches _ _ _ lib) as [|m [|m' l]]; try discriminate.
  injection H as <-. reflexivity.
Qed.
End BestMatch.

(** C9, as stated, fails: with two entries of equal score the earlier
    version keeps the first one, the current version prefers the better
    quality tag. *)
Lemma findBestMatch_versions_differ :
  let lib := [entryNamed "foo bar"; entryNamed "foo bar 1080p"] in
  fst (Legacy.findBestMatch "foo bar" lib) = Some (entryNamed "foo bar") /\
  fst (findBestMatch (fun _ => nan) "foo bar" lib) = Some (entryNamed "foo bar 1080p") /\
  fst (Legacy.findBestMatch "foo bar" lib) <> fst (findBestMatch (fun _ => nan) "foo bar" lib).
Proof.
  split; [vm_compute; reflexivity|]. split; [vm_compute; reflexivity|].
  vm_compute. discriminate.
Qed.

(** C9 (amended): the two versions agree on whether a match exists, and
    they select the same entry whenever at most one library entry clears
    the threshold. *)
Theorem findBestMatch_versions (StringToNumber : string -> float)
    (targetTitle : string) (contentLibrary : list libraryEntry) :
  (fst (Legacy.findBestMatch targetTitle contentLibrary) = None <->
   fst (findBestMatch StringToNumber targetTitle contentLibrary) = None) /\
  ((List.length (List.filter (clearsThreshold targetTitle) contentLibrary) <= 1)%nat ->
   fst (Legacy.findBestMatch targetTitle contentLibrary)
   = fst (findBestMatch StringToNumber targetTitle contentLibrary)).
Proof.
  split.
  - now rewrite legacy_None_iff, current_None_iff.
  - intros H.
    destruct (List.filter (clearsThreshold targetTitle) contentLibrary)
      as [|it [|it' l]] eqn:E.
    + rewrite (proj2 (legacy_None_iff targetTitle contentLibrary) E).
      now rewrite (proj2 (current_None_iff StringToNumber targetTitle contentLibrary) E).
    + rewrite (legacy_single targetTitle contentLibrary it E).
      now rewrite (current_single StringToNumber targetTitle contentLibrary it E).
    + simpl in H. lia.
Qed.

Lemma findBestMatch_versions_witness :
  let lib := [entryNamed "foo baz"; entryNamed "foo bar 1080p"] in
  fst (Legacy.findBestMatch "foo bar" lib) = fst (findBestMatch (fun _ => nan) "foo bar" lib).
Proof.
  apply (proj2 (findBestMatch_versions (fun _ => nan) "foo bar"
                  [entryNamed "foo baz"; entryNamed "foo bar 1080p"])).
  vm_compute. lia.
Defined.

(** ** The order of the ranking *)

Section SortedInsert.
Context {A : Type} (cmp : A -> A -> float) (R : A -> A -> Prop) (P : A -> Prop).
Hypothesis cmp_before : forall x y, P x -> P y -> PrimFloat.ltb (cmp x y) 0 = true -> R x y.
Hypothesis cmp_after : forall x y, P x -> P y -> PrimFloat.ltb (cmp x y) 0 = false -> R y x.

Lemma insertBy_sorted (x : A) (l : list A) :
  P x -> Forall P l -> Sorted R l -> Sorted R (insertBy cmp x l).
Proof using cmp_before cmp_after.
  intros Hx Hl Hs. induction l as [|y l IH]; simpl.
  - repeat constructor.
  - apply Forall_cons_iff in Hl as [Hy Hl]. apply Sorted_inv in Hs as [Hs Hhd].
    destruct (PrimFloat.ltb (cmp x y) 0) eqn:E.
    + constructor; [now constructor|]. constructor. now apply cmp_before.
    + constructor; [now apply IH|].
      destruct l as [|z l]; simpl.
      * constructor. now apply cmp_after.
      * destruct (PrimFloat.ltb (cmp x z) 0).
        -- constructor. now apply cmp_after.
        -- constructor. now apply HdRel_inv in Hhd.
Qed.

Lemma insertBy_Forall (x : A) (l : list A) :
  P x -> Forall P l -> Forall P (insertBy cmp x l).
Proof.
  intros Hx Hl. eapply Permutation_Forall; [symmetry; apply insertBy_perm|].
  now constructor.
Qed.

(** Whatever the comparator, as long as it orients every pair one way or
    the other, each element of the sorted array is in order with the
    next. *)
Lemma sortBy_sorted (l : list A) : Forall P l -> Sorted R (sortBy cmp l).
Proof using cmp_before cmp_after.
  unfold sortBy. intros Hl.
  assert (Hacc : Sorted R [] /\ Forall P []) by (split; constructor).
  revert Hacc. generalize (@nil A).
  induction Hl as [|x l Hx Hl IH]; intros acc [Hs Hp]; simpl; [assumption|].
  apply IH. split; [now apply insertBy_sorted | now apply insertBy_Forall].
Qed.
End SortedInsert.

Lemma Sorted_adjacent {A : Type} (R : A -> A -> Prop) (l : list A) (i : nat) (a b : A) :
  Sorted R l -> nth_error l i = Some a -> nth_error l (S i) = Some b -> R a b.
Proof.
  intros Hs. revert i. induction Hs as [|x l Hs IH Hhd]; intros i Ha Hb.
  - destruct i; discriminate.
  - destruct i as [|i]; simpl in *.
    + injection Ha as ->. destruct l as [|y l]; [discriminate|].
      simpl in Hb. injection Hb as ->. now apply HdRel_inv in Hhd.
    + now apply (IH i).
Qed.

Lemma Number_of_Z_negative (z : Z) :
  -10 <= z <= 10 -> PrimFloat.ltb (Number_of_Z z) 0 = Z.ltb z 0.
Proof.
  intros H.
  assert (E : In z [-10; -9; -8; -7; -6; -5; -4; -3; -2; -1; 0;
                    1; 2; 3; 4; 5; 6; 7; 8; 9; 10]) by (simpl; lia).
  simpl in E. repeat (destruct E as [<-|E]; [vm_compute; reflexivity|]). contradiction.
Qed.

Lemma scoresApart_sym {I : Type} (a b : candidate I) : scoresApart a b = scoresApart b a.
Proof. unfold scoresApart. now rewrite abs_sub_sym. Qed.

Lemma compareMatches_before {I : Type} (a b : candidate I) :
  tiersInRange a -> tiersInRange b ->
  PrimFloat.ltb (compareMatches a b) 0 = true -> rankedBefore a b.
Proof.
  intros [Ha1 Ha2] [Hb1 Hb2]. unfold compareMatches, rankedBefore.
  fold (scoresApart a b). destruct (scoresApart a b).
  - intros H. left. split; [reflexivity|]. now apply ltb_leb, sub_neg.
  - right. destruct (Z.eqb_spec (qualityScore a) (qualityScore b)) as [E|E];
      cbn [negb] in H; rewrite Number_of_Z_negative in H by lia;
      apply Z.ltb_lt in H.
    + right. split; [reflexivity|]. split; [assumption | lia].
    + left. split; [reflexivity | lia].
Qed.

Lemma compareMatches_after {I : Type} (a b : candidate I) :
  tiersInRange a -> tiersInRange b ->
  PrimFloat.ltb (compareMatches a b) 0 = false -> rankedBefore b a.
Proof.
  intros [Ha1 Ha2] [Hb1 Hb2]. unfold compareMatches, rankedBefore.
  rewrite (scoresApart_sym b a).
  fold (scoresApart a b). destruct (scoresApart a b) eqn:Ea.
  - intros H. left. split; [reflexivity|].
    assert (H05 : PrimFloat.ltb 0 0.05 = true) by reflexivity.
    destruct (abs_beyond 0.05 (finalScore a - finalScore b) H05 (or_introl Ea)) as [Hn|Hp].
    + now apply ltb_leb, sub_neg.
    + apply sub_flip in Hp. congruence.
  - right. destruct (Z.eqb_spec (qualityScore a) (qualityScore b)) as [E|E];
      cbn [negb] in H; rewrite Number_of_Z_negative in H by lia;
      apply Z.ltb_ge in H.
    + right. split; [reflexivity|]. split; [congruence | lia].
    + left. split; [reflexivity | lia].
Qed.

Lemma rankedBefore_pair {I : Type} (a b : candidate I) : rankedBefore a b -> rankedPair a b.
Proof.
  unfold rankedBefore, rankedPair. intros [H | [[H1 H2] | H]]; auto.
  right. left. split; [assumption | lia].
Qed.

Lemma extractQuality_range (t : string) : 0 <= fst (extractQuality t) <= 10.
Proof.
  unfold extractQuality.
  repeat match goal with |- context [if ?c then _ else _] => destruct c end; simpl; lia.
Qed.

Lemma extractSource_range (t : string) : 0 <= fst (extractSource t) <= 10.
Proof.
  unfold extractSource.
  repeat match goal with |- context [if ?c then _ else _] => destruct c end; simpl; lia.
Qed.

Lemma collectMatches_tiers (StringToNumber : string -> float) (targetTitle : string)
    (targetYear : yearArg) (lib : list libraryEntry) :
  Forall tiersInRange (collectMatches StringToNumber targetTitle targetYear lib).
Proof.
  induction lib as [|it lib IH]; simpl; [constructor|].
  destruct (scoreItem _ _ _ it it) as [m|] eqn:E; [|exact IH].
  constructor; [|exact IH].
  apply scoreItem_Some in E as (_ & _ & _ & Hq & Hs).
  unfold tiersInRange. rewrite Hq, Hs.
  split; [apply extractQuality_range | apply extractSource_range].
Qed.

(** The list that [findAllMatches] returns is in order at every step, in
    the three-level sense of [rankedBefore]. *)
Lemma findAllMatches_sorted (StringToNumber : string -> float) (targetTitle : string)
    (targetYear : yearArg) (lib : list libraryEntry) :
  Sorted rankedBefore (findAllMatches StringToNumber targetTitle targetYear lib).
Proof.
  unfold findAllMatches.
  apply (sortBy_sorted compareMatches rankedBefore tiersInRange).
  - intros x y. apply compareMatches_before.
  - intros x y. apply compareMatches_after.
  - apply collectMatches_tiers.
Qed.

(** *** The same order from a merge sort *)

Section SortedMerge.
Context {A : Type} (cmp : A -> A -> float) (R : A -> A -> Prop) (P : A -> Prop).
Hypothesis cmp_before : forall x y, P x -> P y -> PrimFloat.ltb (cmp x y) 0 = true -> R x y.
Hypothesis cmp_after : forall x y, P x -> P y -> PrimFloat.ltb (cmp x y) 0 = false -> R y x.

Lemma mergeBy_head (l1 l2 : list A) (z : A) :
  HdRel R z l1 -> HdRel R z l2 -> HdRel R z (mergeBy cmp l1 l2).
Proof.
  intros H1 H2. destruct l1 as [|x l1], l2 as [|y l2]; simpl; try assumption.
  destruct (PrimFloat.ltb (cmp y x) 0); constructor.
  - now apply HdRel_inv in H2.
  - now apply HdRel_inv in H1.
Qed.

Lemma mergeBy_ok (l1 l2 : list A) : runOk R P l1 -> runOk R P l2 -> runOk R P (mergeBy cmp l1 l2).
Proof using cmp_before cmp_after.
  revert l2. induction l1 as [|x l1 IH1]; intros l2 H1 H2.
  - destruct l2; exact H2.
  - induction l2 as [|y l2 IH2]; [exact H1|].
    destruct H1 as [S1 P1], H2 as [S2 P2].
    pose proof (Sorted_inv S1) as [S1' Hd1]. pose proof (Sorted_inv S2) as [S2' Hd2].
    pose proof (Forall_inv P1) as Px. pose proof (Forall_inv_tail P1) as P1'.
    pose proof (Forall_inv P2) as Py. pose proof (Forall_inv_tail P2) as P2'.
    cbn [mergeBy]. destruct (PrimFloat.ltb (cmp y x) 0) eqn:E.
    + destruct (IH2 (conj S2' P2')) as [S P']. split; [|now constructor].
      constructor; [exact S|].
      apply (mergeBy_head (x :: l1) l2 y); [|exact Hd2].
      constructor. now apply cmp_before.
    + destruct (IH1 (y :: l2) (conj S1' P1') (conj S2 P2)) as [S P'].
      split; [|now constructor].
      constructor; [exact S|].
      apply (mergeBy_head l1 (y :: l2) x); [exact Hd1|].
      constructor. now apply cmp_after.
Qed.

Lemma mergePairs_ok (runs : list (list A)) :
  Forall (runOk R P) runs -> Forall (runOk R P) (mergePairs cmp runs).
Proof using cmp_before cmp_after.
  revert runs. fix rec 1. intros [|a [|b rest]] H; simpl; try exact H.
  constructor.
  - apply mergeBy_ok; [exact (Forall_inv H) | exact (Forall_inv (Forall_inv_tail H))].
  - apply rec. exact (Forall_inv_tail (Forall_inv_tail H)).
Qed.

Lemma mergePairs_length (runs : list (list A)) :
  (2 <= List.length runs -> List.length (mergePairs cmp runs) < List.length runs)%nat /\
  (List.length (mergePairs cmp runs) <= List.length runs)%nat.
Proof.
  revert runs. fix rec 1. intros [|a [|b rest]]; simpl; try lia.
  destruct (rec rest) as [_ H]. lia.
Qed.

Lemma mergeAll_ok (rounds : nat) (runs : list (list A)) :
  (List.length runs <= S rounds)%nat -> Forall (runOk R P) runs ->
  runOk R P (mergeAll cmp rounds runs).
Proof using cmp_before cmp_after.
  revert runs. induction rounds as [|n IH]; intros runs Hl H.
  - destruct runs as [|l [|l' runs]]; simpl in *; [split; constructor | | lia].
    rewrite app_nil_r. exact (Forall_inv H).
  - destruct runs as [|l [|l' runs]]; [split; constructor | exact (Forall_inv H) |].
    cbn [mergeAll]. apply IH; [|now apply mergePairs_ok].
    pose proof (mergePairs_length (l :: l' :: runs)) as [Hlt _]. simpl in *. lia.
Qed.

Lemma mergeSortBy_sorted (l : list A) : Forall P l -> Sorted R (mergeSortBy cmp l).
Proof using cmp_before cmp_after.
  intros H. apply mergeAll_ok.
  - rewrite length_map. lia.
  - apply Forall_map. eapply Forall_impl; [|exact H].
    intros x Hx. split; repeat constructor. exact Hx.
Qed.
End SortedMerge.

(** With the merge sort in place of the insertion sort the candidates come
    out in an order that satisfies the same condition. *)
Lemma merge_sorted_ranking (StringToNumber : string -> float) (targetTitle : string)
    (targetYear : yearArg) (lib : list libraryEntry) :
  Sorted rankedBefore
    (mergeSortBy compareMatches (collectMatches StringToNumber targetTitle targetYear lib)).
Proof.
  apply (mergeSortBy_sorted compareMatches rankedBefore tiersInRange).
  - intros x y. apply compareMatches_before.
  - intros x y. apply compareMatches_after.
  - apply collectMatches_tiers.
Qed.



(** ** The year adjustment *)

Lemma computeYearBonus_numbers (StringToNumber : string -> float) (iy : Z) (y : float) :
  iy <> 0 ->
  computeYearBonus StringToNumber (YearNum y) (Some iy) = bonusOfNumbers (Number_of_Z iy) y.
Proof.
  intros H. apply Z.eqb_neq in H. unfold computeYearBonus, bonusOfNumbers.
  cbn [truthyYear strictEqYear yearToNumber]. rewrite H, andb_true_r. reflexivity.
Qed.



Lemma In_yearRange (lo : Z) (n : nat) (z : Z) :
  lo <= z < lo + Z.of_nat n -> In z (yearRange lo n).
Proof.
  intros H. unfold yearRange. apply in_map_iff.
  exists (Z.to_nat (z - lo)). split; [lia|]. apply in_seq. lia.
Qed.

Lemma checkYears_spec (lo : Z) (n : nat) (ilo : Z) (m : nat) (Y iy : Z) :
  checkYears lo n ilo m = true ->
  lo <= Y < lo + Z.of_nat n -> ilo <= iy < ilo + Z.of_nat m ->
  bonusOfNumbers (Number_of_Z iy) (Number_of_Z Y) = expectedBonus (Z.abs (iy - Y)).
Proof.
  unfold checkYears. intros H HY Hiy.
  rewrite forallb_forall in H. specialize (H Y (In_yearRange lo n Y HY)).
  cbv zeta in H. rewrite forallb_forall in H.
  apply FloatAxioms.Leibniz.eqb_spec.
  apply (H (iy, Number_of_Z iy)).
  apply in_map_iff. exists iy. split; [reflexivity|]. now apply In_yearRange.
Qed.

Lemma checkYears_all : checkYears 1800 (Z.to_nat 401) 1900 (Z.to_nat 200) = true.
Proof. vm_compute. reflexivity. Qed.

(** For integer years: every target year from 1800 to 2200 against
    every year that [extractYear] can produce. *)
Lemma year_adjustment_integers (StringToNumber : string -> float) (Y iy : Z) :
  1800 <= Y <= 2200 -> 1900 <= iy <= 2099 ->
  computeYearBonus StringToNumber (YearNum (Number_of_Z Y)) (Some iy)
  = expectedBonus (Z.abs (iy - Y)).
Proof.
  intros HY Hiy. rewrite computeYearBonus_numbers by lia.
  apply (checkYears_spec 1800 (Z.to_nat 401) 1900 (Z.to_nat 200) Y iy checkYears_all);
    rewrite Z2Nat.id; lia.
Qed.

Lemma isDigit_value (c : ascii) : isDigit c = true -> 0 <= digitValue c <= 9.
Proof.
  unfold isDigit, inRange, digitValue. rewrite andb_true_iff, !N.leb_le. lia.
Qed.

(** The years that [extractYear] produces. *)
Lemma extractYear_range (t : string) (y : Z) :
  extractYear t = Some y -> 1900 <= y <= 2099.
Proof.
  unfold extractYear. destruct (String.eqb t ""); [discriminate|].
  destruct (List.find isYearToken _) as [w|] eqn:E; [|discriminate].
  intros H. injection H as <-. apply find_some in E as [_ E].
  destruct w as [|a [|b [|c [|d [|? ?]]]]]; try discriminate E.
  unfold isYearToken in E. rewrite !andb_true_iff, orb_true_iff, !chars_eqb_eq in E.
  destruct E as [[E Hc] Hd].
  apply isDigit_value in Hc, Hd.
  unfold parseDigits. simpl.
  destruct E as [E|E]; injection E as -> ->; change (digitValue "1") with 1;
    change (digitValue "9") with 9; change (digitValue "2") with 2;
    change (digitValue "0") with 0; lia.
Qed.

(** ** The result cache *)

Section CacheFacts.
Variable omdbApiKey : bool.
Variable omdbRequest : string -> omdbOutcome.
Variable CACHE_ENABLED : bool.
Variable providerFetchData :
  list libraryEntry * list libraryEntry * list libraryEntry ->
  option (list libraryEntry * list libraryEntry * list libraryEntry).
Variable fetchSeriesInfo : string -> option (option (list video)).
Variable parseInt : string -> float.
Variable StringToNumber : string -> float.

Abbreviation searchMovie :=
  (searchMovieByImdbId omdbApiKey omdbRequest CACHE_ENABLED providerFetchData
     parseInt StringToNumber).
Abbreviation searchEpisode :=
  (searchEpisodeByImdbId omdbApiKey omdbRequest CACHE_ENABLED providerFetchData
     fetchSeriesInfo StringToNumber).

Lemma getOfficialTitle_cache (imdbId : string) (a : addon) :
  realTimeCache (snd (getOfficialTitle omdbApiKey omdbRequest imdbId a))
  = realTimeCache a.
Proof.
  unfold getOfficialTitle. simpl.
  destruct (omdbCache a !! imdbId); [reflexivity|].
  destruct omdbApiKey; simpl; [|reflexivity].
  destruct (omdbRequest imdbId); reflexivity.
Qed.

Lemma updateData_cache (now : Z) (a : addon) :
  realTimeCache (updateData CACHE_ENABLED providerFetchData now a) = realTimeCache a.
Proof.
  unfold updateData.
  destruct (_ && _)%bool; [reflexivity|]. simpl.
  destruct (providerFetchData _) as [[[ch mv] se]|]; reflexivity.
Qed.

Lemma ensureSeriesInfo_cache (seriesId : string) (a : addon) :
  realTimeCache (snd (ensureSeriesInfo fetchSeriesInfo seriesId a)) = realTimeCache a.
Proof.
  unfold ensureSeriesInfo.
  destruct (String.eqb seriesId ""); [reflexivity|]. simpl.
  destruct (seriesInfoCache a !! seriesId); [reflexivity|].
  destruct (fetchSeriesInfo seriesId); reflexivity.
Qed.

Lemma checkSeries_cache (season episode : Z) st m :
  realTimeCache (snd (checkSeries fetchSeriesInfo season episode st m))
  = realTimeCache (snd st).
Proof.
  unfold checkSeries. destruct st as [eps a].
  destruct (ensureSeriesInfo _ _ a) as [info a'] eqn:E.
  pose proof (ensureSeriesInfo_cache
                (orElse (entry_series_id (item m)) (stripSeriesPrefix (entry_id (item m)))) a) as H.
  rewrite E in H. simpl in H. destruct info; simpl; exact H.
Qed.

Lemma checkSeries_fold_cache (season episode : Z) ms st :
  realTimeCache (snd (fold_left (checkSeries fetchSeriesInfo season episode) ms st))
  = realTimeCache (snd st).
Proof.
  revert st. induction ms as [|m ms IH]; intros st; simpl; [reflexivity|].
  now rewrite IH, checkSeries_cache.
Qed.

(** The resolver keeps what OMDb answered, the "not found" answer ([None])
    included: a later call for the same identifier returns it without a
    request. *)
Lemma getOfficialTitle_cached (imdbId : string) (a : addon) (r : option omdbData) :
  omdbCache a !! imdbId = Some r ->
  getOfficialTitle omdbApiKey omdbRequest imdbId a
  = (r, logEvent (GetOfficialTitle imdbId) a).
Proof. intros H. unfold getOfficialTitle. cbn [omdbCache logEvent]. now rewrite H. Qed.

Lemma getOfficialTitle_stores (imdbId : string) (a : addon) :
  omdbApiKey = true -> omdbRequest imdbId <> OmdbFailed ->
  omdbCache (snd (getOfficialTitle omdbApiKey omdbRequest imdbId a)) !! imdbId
  = Some (fst (getOfficialTitle omdbApiKey omdbRequest imdbId a)).
Proof.
  intros Hk Hr. unfold getOfficialTitle. cbn [omdbCache logEvent].
  destruct (omdbCache a !! imdbId) as [r|] eqn:E; [exact E|].
  rewrite Hk. cbn [negb].
  destruct (omdbRequest imdbId); [| |congruence];
    cbn [fst snd setOmdbCache omdbCache logEvent]; apply lookup_insert_eq.
Qed.

(** A fresh entry answers the movie search, and nothing else happens. *)
Lemma searchMovie_hit (now : Z) (imdbId : string) (a : addon) (c : cacheEntry) :
  realTimeCache a !! imdbId = Some c ->
  now - timestamp c < cacheWindow ->
  searchMovie now imdbId a = (result c, a).
Proof.
  intros Hc Ht. unfold searchMovieByImdbId. rewrite Hc.
  apply Z.ltb_lt in Ht. now rewrite Ht.
Qed.

Lemma searchEpisode_hit (now : Z) (imdbId : string) (season episode : Z)
    (a : addon) (c : cacheEntry) :
  realTimeCache a !! String.append imdbId
      (String.append ":" (String.append (Z_to_string season)
         (String.append ":" (Z_to_string episode)))) = Some c ->
  now - timestamp c < cacheWindow ->
  searchEpisode now imdbId season episode a = (Some (result c), a).
Proof.
  intros Hc Ht. unfold searchEpisodeByImdbId. rewrite Hc.
  apply Z.ltb_lt in Ht. now rewrite Ht.
Qed.

Lemma firstn_nonempty {A} (n : nat) (l : list A) :
  Nat.ltb 0 (List.length l) = true -> firstn (S n) l <> [].
Proof. destruct l; simpl; [discriminate | congruence]. Qed.

(** The three ways a movie search ends: served from the cache, resolved
    to nothing, resolved to a stored non-empty result. *)
Lemma searchMovie_result (now : Z) (imdbId : string) (a a1 : addon) (r : payload) :
  searchMovie now imdbId a = (r, a1) ->
  (exists c, realTimeCache a !! imdbId = Some c /\
             now - timestamp c < cacheWindow /\ r = result c /\ a1 = a) \/
  (r = MovieMatches [] /\ realTimeCache a1 = realTimeCache a) \/
  (r <> MovieMatches [] /\ realTimeCache a1 !! imdbId = Some (CacheEntry r now)).
Proof.
  unfold searchMovieByImdbId.
  set (resolve := let '(omdb, a0) := getOfficialTitle _ _ imdbId a in _).
  assert (Hres : resolve = (r, a1) ->
                 (r = MovieMatches [] /\ realTimeCache a1 = realTimeCache a) \/
                 (r <> MovieMatches [] /\
                  realTimeCache a1 !! imdbId = Some (CacheEntry r now))).
  { subst resolve.
    pose proof (getOfficialTitle_cache imdbId a) as Hg.
    destruct (getOfficialTitle _ _ imdbId a) as [[omdb|] a0]; simpl in Hg.
    - set (a2 := if Nat.eqb (List.length (movies a0)) 0 then _ else a0).
      assert (H2 : realTimeCache a2 = realTimeCache a).
      { subst a2. destruct (Nat.eqb _ 0); [now rewrite updateData_cache | exact Hg]. }
      destruct (Nat.ltb 0 _) eqn:En; intros H; injection H as <- <-.
      + right. split.
        * intros H. injection H as H. revert H. now apply firstn_nonempty.
        * unfold setRealTimeCache. simpl. apply lookup_insert_eq.
      + left. split; [reflexivity | exact H2].
    - intros H. injection H as <- <-. left. split; [reflexivity | exact Hg]. }
  destruct (realTimeCache a !! imdbId) as [c|] eqn:Ec; [|intros H; right; auto].
  destruct (Z.ltb_spec (now - timestamp c) cacheWindow) as [Ht|Ht];
    [|intros H; right; auto].
  intros H. injection H as <- <-. left. now exists c.
Qed.

Lemma searchEpisode_result (now : Z) (imdbId : string) (season episode : Z)
    (a a1 : addon) (r : option payload) :
  let key := String.append imdbId
       (String.append ":" (String.append (Z_to_string season)
          (String.append ":" (Z_to_string episode)))) in
  searchEpisode now imdbId season episode a = (r, a1) ->
  (exists c, realTimeCache a !! key = Some c /\
             now - timestamp c < cacheWindow /\ r = Some (result c) /\ a1 = a) \/
  (r = None /\ realTimeCache a1 = realTimeCache a) \/
  (exists p, r = Some p /\ realTimeCache a1 !! key = Some (CacheEntry p now)).
Proof.
  intros key. unfold searchEpisodeByImdbId. fold key.
  set (resolve := let '(omdb, a0) := getOfficialTitle _ _ imdbId a in _).
  assert (Hres : resolve = (r, a1) ->
                 (r = None /\ realTimeCache a1 = realTimeCache a) \/
                 (exists p, r = Some p /\
                            realTimeCache a1 !! key = Some (CacheEntry p now))).
  { subst resolve.
    pose proof (getOfficialTitle_cache imdbId a) as Hg.
    destruct (getOfficialTitle _ _ imdbId a) as [[omdb|] a0]; simpl in Hg.
    - set (a2 := if Nat.eqb (List.length (series a0)) 0 then _ else a0).
      assert (H2 : realTimeCache a2 = realTimeCache a).
      { subst a2. destruct (Nat.eqb _ 0); [now rewrite updateData_cache | exact Hg]. }
      set (a3 := logEvent _ a2).
      pose proof (checkSeries_fold_cache season episode
                    (findAllMatches StringToNumber (omdb_title omdb)
                       (YearStr (omdb_year omdb)) (series a3)) ([], a3)) as H3.
      destruct (fold_left _ _ ([], a3)) as [eps a4]. simpl in H3.
      destruct (Nat.ltb 0 _) eqn:En; intros H; injection H as <- <-.
      + right. eexists. split; [reflexivity|].
        unfold setRealTimeCache. simpl. apply lookup_insert_eq.
      + left. split; [reflexivity|]. now rewrite H3.
    - intros H. injection H as <- <-. left. split; [reflexivity | exact Hg]. }
  destruct (realTimeCache a !! key) as [c|] eqn:Ec; [|intros H; right; auto].
  destruct (Z.ltb_spec (now - timestamp c) cacheWindow) as [Ht|Ht];
    [|intros H; right; auto].
  intros H. injection H as <- <-. left. now exists c.
Qed.
End CacheFacts.




(** ** The ranking leaves the library alone *)

Section SortMap.
Context {A B : Type} (R : A -> B -> Prop).
Context (cmpA : A -> A -> float) (cmpB : B -> B -> float).
Hypothesis cmp_agree :
  forall a b a' b', R a b -> R a' b' -> cmpA a a' = cmpB b b'.

Lemma insertBy_Forall2 (x : A) (y : B) (l : list A) (l' : list B) :
  R x y -> Forall2 R l l' -> Forall2 R (insertBy cmpA x l) (insertBy cmpB y l').
Proof using cmp_agree.
  intros Hxy H. induction H as [|a b l l' Hab H IH]; simpl.
  - repeat constructor. exact Hxy.
  - rewrite (cmp_agree x y a b Hxy Hab).
    destruct (PrimFloat.ltb (cmpB y b) 0); repeat constructor; assumption.
Qed.

Lemma sortBy_Forall2 (l : list A) (l' : list B) :
  Forall2 R l l' -> Forall2 R (sortBy cmpA l) (sortBy cmpB l').
Proof using cmp_agree.
  unfold sortBy. intros H.
  assert (Hacc : Forall2 R (@nil A) (@nil B)) by constructor.
  revert Hacc. generalize (@nil A) (@nil B).
  induction H as [|a b l l' Hab H IH]; intros acc acc' Hacc; simpl.
  - exact Hacc.
  - apply IH. now apply insertBy_Forall2.
Qed.
End SortMap.

Module HeapFacts.
Abbreviation rankedCandidates := findAllMatches.
Abbreviation bestCandidate := findBestMatch.
Import HeapModel.

Lemma mapM_readCandidate (h : heap) (pairs : list (loc * candidate loc)) :
  Forall (fun p => h !! fst p = Some (ObjCandidate (snd p))) pairs ->
  mapM readCandidate (List.map fst pairs) h = Some (List.map snd pairs, h).
Proof.
  induction 1 as [|p pairs Hp H IH]; simpl; [reflexivity|].
  unfold bind at 1. unfold readCandidate at 1. rewrite Hp.
  unfold bind. rewrite IH. reflexivity.
Qed.

Section Ranking.
Variable StringToNumber : string -> float.
Variable targetTitle : string.
Variable targetYear : yearArg.

Lemma scoreItem_withItem (l : loc) (e : libraryEntry) :
  scoreItem StringToNumber targetTitle targetYear e e
  = option_map (withItem e) (scoreItem StringToNumber targetTitle targetYear l e).
Proof. unfold scoreItem. destruct (PrimFloat.leb _ _); reflexivity. Qed.

Lemma scoreItem_item (l : loc) (e : libraryEntry) (m : candidate loc) :
  scoreItem StringToNumber targetTitle targetYear l e = Some m -> item m = l.
Proof.
  unfold scoreItem. destruct (PrimFloat.leb _ _); [|discriminate].
  intros H. now injection H as <-.
Qed.

Lemma collectRefs_represents (h : heap) (entries : list (loc * libraryEntry)) :
  Forall (fun p => h !! fst p = Some (ObjEntry (snd p))) entries ->
  Forall2 (represents h) (collectRefs StringToNumber targetTitle targetYear entries)
    (collectMatches StringToNumber targetTitle targetYear (List.map snd entries)).
Proof.
  induction 1 as [|[l e] entries Hp H IH]; simpl; [constructor|].
  rewrite (scoreItem_withItem l e).
  destruct (scoreItem _ _ _ l e) as [m|] eqn:E; simpl; [|exact IH].
  constructor; [|exact IH].
  exists e. split; [|reflexivity].
  now rewrite (scoreItem_item _ _ _ E).
Qed.

Lemma lift_pairs (h h' : heap) (arr : loc) (xs : list loc)
    (pairs : list (loc * candidate loc)) (pcs : list (candidate libraryEntry)) :
  h !! arr = Some (ObjArray xs) ->
  (forall l o, l <> arr -> h !! l = Some o -> h' !! l = Some o) ->
  Forall (fun p => h !! fst p = Some (ObjCandidate (snd p))) pairs ->
  Forall2 (represents h) (List.map snd pairs) pcs ->
  Forall2 (fun p pc => h' !! fst p = Some (ObjCandidate (snd p)) /\
                       represents h' (snd p) pc) pairs pcs.
Proof.
  intros Harr Hkeep Hpairs. revert pcs.
  induction Hpairs as [|p pairs Hp Hpairs IH]; intros pcs Hr; simpl in Hr.
  - inversion Hr. constructor.
  - inversion Hr as [|? pc ? pcs' (e & He & ->) Hr']; subst.
    constructor; [|now apply IH]. split.
    + apply Hkeep; [congruence | exact Hp].
    + exists e. split; [|reflexivity]. apply Hkeep; [congruence | exact He].
Qed.

(** The loop over the library: the heap only grows, and the [matches]
    array receives references to the new match objects. *)
Lemma forEach_visit (h0 : heap) (matches : loc) (todo : list (loc * libraryEntry)) :
  h0 !! matches = None ->
  Forall (fun p => h0 !! fst p = Some (ObjEntry (snd p))) todo ->
  forall (h : heap) (pairs : list (loc * candidate loc)),
    h0 ⊆ h ->
    h !! matches = Some (ObjArray (List.map fst pairs)) ->
    Forall (fun p => h !! fst p = Some (ObjCandidate (snd p))) pairs ->
    exists h' pairs',
      forEach (visitItem StringToNumber targetTitle targetYear matches)
              (List.map fst todo) h = Some (tt, h') /\
      h0 ⊆ h' /\
      h' !! matches = Some (ObjArray (List.map fst (pairs ++ pairs'))) /\
      Forall (fun p => h' !! fst p = Some (ObjCandidate (snd p))) (pairs ++ pairs') /\
      List.map snd pairs' = collectRefs StringToNumber targetTitle targetYear todo.
Proof.
  intros Hm Htodo. induction Htodo as [|[l e] todo Hp Htodo IH];
    intros h pairs Hsub Harr Hpairs.
  - exists h, []. rewrite app_nil_r. simpl. auto.
  - simpl in Hp. cbn [List.map fst forEach collectRefs].
    unfold bind at 1. unfold visitItem at 1. unfold bind at 1.
    unfold readEntry. rewrite (lookup_weaken _ _ _ _ Hp Hsub).
    destruct (scoreItem _ _ _ l e) as [m|] eqn:E.
    + unfold bind at 1. unfold alloc. cbn zeta.
      set (ml := fresh (dom h)).
      assert (Hml : h !! ml = None) by (apply not_elem_of_dom, is_fresh).
      assert (Hne : ml <> matches) by congruence.
      unfold push. rewrite lookup_insert_ne by exact Hne. rewrite Harr.
      set (h2 := <[matches := _]> (<[ml := _]> h)).
      destruct (IH h2 (pairs ++ [(ml, m)])) as (h' & pairs' & Hrun & Hs & Ha & Hf & Hc).
      * subst h2. apply insert_subseteq_r; [exact Hm|].
        etrans; [exact Hsub|]. now apply insert_subseteq.
      * subst h2. rewrite lookup_insert_eq, map_app. reflexivity.
      * subst h2. apply Forall_app. split.
        -- eapply Forall_impl; [|exact Hpairs]. intros p Hp'. simpl in Hp'.
           rewrite lookup_insert_ne by congruence.
           rewrite lookup_insert_ne by congruence. exact Hp'.
        -- constructor; [|constructor]. simpl.
           rewrite lookup_insert_ne by congruence. apply lookup_insert_eq.
      * exists h', ((ml, m) :: pairs'). rewrite <- app_assoc in Ha, Hf.
        simpl in *. rewrite Hc. auto.
    + unfold ret. apply IH; assumption.
Qed.

Lemma compare_withItem (p p' : loc * candidate loc) (c c' : candidate libraryEntry) h :
  represents h (snd p) c -> represents h (snd p') c' ->
  compareMatches (snd p) (snd p') = compareMatches c c'.
Proof. intros (e & _ & ->) (e' & _ & ->). reflexivity. Qed.

Lemma findAllMatches_run (h : heap) (lib : loc) (entries : list (loc * libraryEntry)) :
  libraryAt h lib entries ->
  exists matches h',
    findAllMatches StringToNumber targetTitle targetYear lib h = Some (matches, h') /\
    h ⊆ h' /\
    arrayRepresents h' matches
      (rankedCandidates StringToNumber targetTitle targetYear
         (List.map snd entries)).
Proof.
  intros [Hlib Hent]. unfold findAllMatches.
  unfold bind at 1. unfold alloc. cbn zeta.
  set (ml := fresh (dom h)).
  assert (Hml : h !! ml = None) by (apply not_elem_of_dom, is_fresh).
  set (h1 := <[ml := ObjArray []]> h).
  assert (Hs1 : h ⊆ h1) by now apply insert_subseteq.
  unfold bind at 1. unfold readArray at 1.
  rewrite (lookup_weaken _ _ _ _ Hlib Hs1).
  destruct (forEach_visit h ml entries Hml Hent h1 [] Hs1)
    as (h2 & pairs & Hrun & Hs2 & Harr & Hpairs & Hc).
  { subst h1. now rewrite lookup_insert_eq. }
  { constructor. }
  simpl in Harr, Hpairs.
  unfold bind at 1. rewrite Hrun.
  unfold bind at 1. unfold sortMatches. unfold bind at 1. unfold readArray at 1.
  rewrite Harr. unfold bind at 1. rewrite (mapM_readCandidate h2 pairs Hpairs).
  unfold writeArray. rewrite Harr. unfold ret.
  assert (Hcomb : combine (List.map fst pairs) (List.map snd pairs) = pairs).
  { clear. induction pairs as [|[a b] l IH]; simpl; [reflexivity | now rewrite IH]. }
  rewrite Hcomb.
  set (sorted := sortBy _ pairs).
  set (h3 := <[ml := ObjArray (List.map fst sorted)]> h2).
  exists ml, h3. split; [reflexivity|]. split.
  { subst h3. now apply insert_subseteq_r. }
  assert (Hrep : Forall2 (fun p pc => h3 !! fst p = Some (ObjCandidate (snd p)) /\
                                      represents h3 (snd p) pc)
                   pairs
                   (collectMatches StringToNumber targetTitle targetYear
                      (List.map snd entries))).
  { apply (lift_pairs h2 h3 ml (List.map fst pairs)); [exact Harr | | exact Hpairs |].
    - intros l o Hne Hl. subst h3. now rewrite lookup_insert_ne by congruence.
    - rewrite Hc.
      eapply List.Forall2_impl; [|apply collectRefs_represents; exact Hent].
      intros c pc (e & He & ->). exists e. split; [|reflexivity].
      exact (lookup_weaken _ _ _ _ He Hs2). }
  assert (Hsorted : Forall2 (fun p pc => h3 !! fst p = Some (ObjCandidate (snd p)) /\
                                         represents h3 (snd p) pc)
                      sorted
                      (rankedCandidates StringToNumber targetTitle targetYear
                         (List.map snd entries))).
  { unfold rankedCandidates. subst sorted.
    apply sortBy_Forall2; [|exact Hrep].
    intros a b a' b' [_ Ha] [_ Hb]. eapply compare_withItem; eassumption. }
  exists (List.map fst sorted), (List.map snd sorted). split.
  { subst h3. apply lookup_insert_eq. }
  clearbody h3. clear -Hsorted.
  induction Hsorted as [|p pc l l' [H1 H2] H IH]; simpl.
  - split; constructor.
  - destruct IH as [IH1 IH2]. split.
    + constructor; [exact H1 | exact IH1].
    + constructor; [exact H2 | exact IH2].
Qed.

Lemma libraryAt_weaken (h h' : heap) (lib : loc) entries :
  h ⊆ h' -> libraryAt h lib entries -> libraryAt h' lib entries.
Proof.
  intros Hs [Hl He]. split; [exact (lookup_weaken _ _ _ _ Hl Hs)|].
  eapply Forall_impl; [|exact He]. intros p Hp. exact (lookup_weaken _ _ _ _ Hp Hs).
Qed.
End Ranking.

Lemma findBestMatch_run (StringToNumber : string -> float) (targetTitle : string)
    (h : heap) (lib : loc) (entries : list (loc * libraryEntry)) :
  libraryAt h lib entries ->
  exists r h',
    findBestMatch StringToNumber targetTitle lib h = Some (r, h') /\
    h ⊆ h' /\
    bestRepresents h' r
      (bestCandidate StringToNumber targetTitle (List.map snd entries)).
Proof.
  intros Hlib.
  destruct (findAllMatches_run StringToNumber targetTitle YearNull h lib entries Hlib)
    as (matches & h' & Hrun & Hs & refs & cs & Harr & Hrefs & Hcs).
  unfold findBestMatch, bestCandidate.
  unfold bind at 1. rewrite Hrun.
  unfold bind at 1. unfold readArray. rewrite Harr.
  destruct Hrefs as [|r c refs cs Hr Hrefs].
  - inversion Hcs. exists (None, 0%float), h'. repeat split; auto.
  - inversion Hcs as [|? pc ? pcs (e & He & ->) Hcs']; subst.
    unfold bind, readCandidate. rewrite Hr.
    eexists _, h'. split; [reflexivity|]. split; [exact Hs|].
    split; [reflexivity|]. simpl. exact He.
Qed.
End HeapFacts.

(** C8: over a heap that holds the library array and its entry objects,
    [findAllMatches] and [findBestMatch] run to completion and leave every
    object that existed before unchanged, the library array and each of
    its entries included; their results are the ranking of the pure model,
    through references to those entries. *)
Theorem ranking_reads_only (StringToNumber : string -> float)
    (targetTitle : string) (targetYear : yearArg)
    (h : gmap HeapModel.loc HeapModel.object) (lib : HeapModel.loc)
    (entries : list (HeapModel.loc * libraryEntry)) :
  HeapModel.libraryAt h lib entries ->
  (exists matches h',
     HeapModel.findAllMatches StringToNumber targetTitle targetYear lib h
     = Some (matches, h') /\
     (forall l o, h !! l = Some o -> h' !! l = Some o) /\
     HeapModel.libraryAt h' lib entries /\
     arrayRepresents h' matches
       (findAllMatches StringToNumber targetTitle targetYear (List.map snd entries))) /\
  (exists r h',
     HeapModel.findBestMatch StringToNumber targetTitle lib h = Some (r, h') /\
     (forall l o, h !! l = Some o -> h' !! l = Some o) /\
     HeapModel.libraryAt h' lib entries /\
     bestRepresents h' r
       (findBestMatch StringToNumber targetTitle (List.map snd entries))).
Proof.
  intros Hlib. split.
  - destruct (HeapFacts.findAllMatches_run StringToNumber targetTitle targetYear
                h lib entries Hlib) as (matches & h' & Hrun & Hs & Hrep).
    exists matches, h'. split; [exact Hrun|]. split.
    + intros l o Hl. exact (lookup_weaken _ _ _ _ Hl Hs).
    + split; [|exact Hrep]. eapply HeapFacts.libraryAt_weaken; eassumption.
  - destruct (HeapFacts.findBestMatch_run StringToNumber targetTitle
                h lib entries Hlib) as (r & h' & Hrun & Hs & Hrep).
    exists r, h'. split; [exact Hrun|]. split.
    + intros l o Hl. exact (lookup_weaken _ _ _ _ Hl Hs).
    + split; [|exact Hrep]. eapply HeapFacts.libraryAt_weaken; eassumption.
Qed.

Lemma ranking_reads_only_witness :
  let h : gmap HeapModel.loc HeapModel.object :=
    <[1%positive := HeapModel.ObjArray [2; 3]%positive]>
      (<[2%positive := HeapModel.ObjEntry (entryNamed "foo bar")]>
         (<[3%positive := HeapModel.ObjEntry (entryNamed "foo bar 1080p")]> ∅)) in
  exists r h',
    HeapModel.findBestMatch (fun _ => nan) "foo bar" 1%positive h = Some (r, h') /\
    (forall l o, h !! l = Some o -> h' !! l = Some o) /\
    HeapModel.libraryAt h' 1%positive
      [(2%positive, entryNamed "foo bar"); (3%positive, entryNamed "foo bar 1080p")] /\
    bestRepresents h' r
      (findBestMatch (fun _ => nan) "foo bar"
         [entryNamed "foo bar"; entryNamed "foo bar 1080p"]).
Proof.
  intros h.
  refine (proj2 (ranking_reads_only (fun _ => nan) "foo bar" YearNull h 1%positive
                   [(2%positive, entryNamed "foo bar");
                    (3%positive, entryNamed "foo bar 1080p")] _)).
  split; [reflexivity|]. repeat constructor.
Defined.
(** * Further properties *)

(** ** Source extraction *)

(** The source extractor applies its case-insensitive containment rules
    in the fixed order bluray|blu-ray, remux, web-dl|webdl, webrip, hdtv,
    dvdrip to every non-empty title, with the default (5, "Digital");
    the empty title yields (0, "Unknown"). *)
Theorem extractSource_rules (t : string) :
  (t <> "" -> sourceRules t) /\ extractSource "" = (0, "Unknown").
Proof.
  split; [|reflexivity].
  intros Hne. unfold sourceRules, extractSource.
  destruct (String.eqb_spec t "") as [->|_]; [congruence|].
  set (tl := toLowerCase (list_ascii_of_string t)).
  pose proof (hasTag_or t "bluray" "blu-ray") as H1.
  pose proof (hasTag_spec t "remux") as H2.
  pose proof (hasTag_or t "web-dl" "webdl") as H3.
  pose proof (hasTag_spec t "webrip") as H4.
  pose proof (hasTag_spec t "hdtv") as H5.
  pose proof (hasTag_spec t "dvdrip") as H6.
  fold tl in H1, H2, H3, H4, H5, H6.
  destruct (hasTag tl "bluray" || hasTag tl "blu-ray")%bool;
    [ repeat split; intros; solve [reflexivity | exfalso; tauto] |].
  destruct (hasTag tl "remux");
    [ repeat split; intros; solve [reflexivity | exfalso; intuition congruence] |].
  destruct (hasTag tl "web-dl" || hasTag tl "webdl")%bool;
    [ repeat split; intros; solve [reflexivity | exfalso; intuition congruence] |].
  destruct (hasTag tl "webrip");
    [ repeat split; intros; solve [reflexivity | exfalso; intuition congruence] |].
  destruct (hasTag tl "hdtv");
    [ repeat split; intros; solve [reflexivity | exfalso; intuition congruence] |].
  destruct (hasTag tl "dvdrip");
    repeat split; intros; solve [reflexivity | exfalso; intuition congruence].
Qed.

Lemma extractSource_rules_witness :
  sourceRules "Movie WEBRip Blu-Ray" /\ extractSource "Movie WEBRip Blu-Ray" = (10, "BluRay").
Proof.
  split; [|reflexivity].
  apply (proj1 (extractSource_rules "Movie WEBRip Blu-Ray")). discriminate.
Defined.

(** ** Year extraction *)

Lemma runsFrom_In (cur s w : chars) :
  In w (runsFrom cur s) ->
  (exists w' post, w = cur ++ w' /\ s = w' ++ post /\ startsAtBoundary post) \/
  (exists pre c post, s = pre ++ [c] ++ w ++ post /\ isWord c = false /\
                      startsAtBoundary post).
Proof.
  revert cur. induction s as [|c s IH]; intros cur; simpl.
  - intros [<-|[]]. left. exists [], []. rewrite app_nil_r. repeat split.
  - destruct (isWord c) eqn:Hc.
    + intros H. destruct (IH _ H) as [(w' & post & -> & -> & Hb) | (pre & d & post & -> & Hd & Hb)].
      * left. exists (c :: w'), post. rewrite <- app_assoc. repeat split. exact Hb.
      * right. exists (c :: pre), d, post. repeat split; assumption.
    + intros [<-|H].
      * left. exists [], (c :: s). rewrite app_nil_r. repeat split. exact Hc.
      * destruct (IH _ H) as [(w' & post & -> & -> & Hb) | (pre & d & post & -> & Hd & Hb)].
        -- right. exists [], c, post. repeat split; assumption.
        -- right. exists (c :: pre), d, post. repeat split; assumption.
Qed.

Lemma isYearToken_word (w : chars) :
  isYearToken w = true -> Forall (fun c => isWord c = true) w.
Proof.
  destruct w as [|a [|b [|c [|d [|? ?]]]]]; try discriminate.
  unfold isYearToken. rewrite !andb_true_iff, orb_true_iff, !chars_eqb_eq.
  intros [[E Hc] Hd].
  assert (Hw : forall x, isDigit x = true -> isWord x = true).
  { intros x Hx. unfold isWord. rewrite Hx. now rewrite !orb_true_r. }
  destruct E as [E|E]; injection E as -> ->; repeat constructor; auto.
Qed.

Lemma runsFrom_later (cur p : chars) (c : ascii) (rest x : chars) :
  isWord c = false -> In x (runsFrom [] rest) -> In x (runsFrom cur (p ++ c :: rest)).
Proof.
  intros Hc Hx. revert cur. induction p as [|d p IH]; intros cur; simpl.
  - rewrite Hc. now right.
  - destruct (isWord d); [apply IH | right; apply IH].
Qed.

Lemma runsFrom_first (w post : chars) :
  Forall (fun c => isWord c = true) w -> startsAtBoundary post ->
  In w (runsFrom [] (w ++ post)).
Proof.
  intros Hw Hb. destruct post as [|c post].
  - rewrite app_nil_r, runsFrom_words by assumption. now left.
  - simpl in Hb. rewrite runsFrom_app by assumption. now left.
Qed.

Lemma yearOccurs_run (t : string) (y : Z) :
  yearOccurs t y <->
  exists w, In w (wordRuns (list_ascii_of_string t)) /\ isYearToken w = true /\
            parseDigits w = y.
Proof.
  unfold yearOccurs, wordRuns. split.
  - intros (pre & w & post & E & Hw & Hy & Hpre & Hpost).
    exists w. split; [|now split]. rewrite E.
    pose proof (isYearToken_word w Hw) as Hword.
    destruct Hpre as [->|(pre' & c & -> & Hc)].
    + simpl. now apply runsFrom_first.
    + rewrite <- app_assoc. simpl. apply runsFrom_later; [exact Hc|].
      now apply runsFrom_first.
  - intros (w & Hin & Hw & Hy).
    destruct (runsFrom_In _ _ _ Hin) as [(w' & post & -> & E & Hb) | (pre & c & post & E & Hc & Hb)].
    + exists [], w', post. simpl. repeat split; try assumption. now left.
    + exists (pre ++ [c]), w, post. rewrite <- app_assoc. repeat split; try assumption.
      right. now exists pre, c.
Qed.

(** The year extractor returns a year exactly when four digits beginning
    with 19 or 20 stand alone in the title (a word boundary on either
    side); the year it returns is one of them, between 1900 and 2099, and
    without any it returns null. *)
Theorem extractYear_occurs (t : string) :
  (forall y, extractYear t = Some y -> yearOccurs t y /\ 1900 <= y <= 2099) /\
  (extractYear t = None <-> forall y, ~ yearOccurs t y).
Proof.
  split.
  - intros y H. split; [|now apply (extractYear_range t)].
    apply yearOccurs_run. unfold extractYear in H.
    destruct (String.eqb t ""); [discriminate|].
    destruct (List.find isYearToken _) as [w|] eqn:E; [|discriminate].
    injection H as <-. apply find_some in E as [Hin Hw]. now exists w.
  - unfold extractYear. destruct (String.eqb_spec t "") as [->|Hne].
    + split; [|reflexivity]. intros _ y Hy. apply yearOccurs_run in Hy.
      destruct Hy as (w & [<-|[]] & Hw & _). discriminate Hw.
    + destruct (List.find isYearToken _) as [w|] eqn:E.
      * split; [discriminate|]. intros H. exfalso.
        apply find_some in E as [Hin Hw].
        apply (H (parseDigits w)). apply yearOccurs_run. now exists w.
      * split; [|reflexivity]. intros _ y Hy. apply yearOccurs_run in Hy.
        destruct Hy as (w & Hin & Hw & _).
        pose proof (find_none _ _ E w Hin) as Hn. congruence.
Qed.

Lemma extractYear_occurs_witness :
  yearOccurs "Alien (1979) 1080p" 1979 /\ 1900 <= 1979 <= 2099.
Proof.
  apply (proj1 (extractYear_occurs "Alien (1979) 1080p") 1979). reflexivity.
Defined.

(** ** Normal forms *)

(** The normal form of a title consists of lower-case letters, digits,
    underscores and spaces only, has no white space at either end, and
    holds no year, quality, language or series token as a whole word; so
    the year extractor finds nothing in it. *)
Theorem normalizeTitle_clean (t : string) :
  clean (list_ascii_of_string (normalizeTitle t)) /\
  extractYear (normalizeTitle t) = None.
Proof.
  assert (C : clean (list_ascii_of_string (normalizeTitle t))).
  { rewrite normalizeTitle_chars, list_ascii_of_string_of_list_ascii.
    apply normalizeChars_clean. }
  split; [exact C|].
  unfold extractYear. destruct (String.eqb (normalizeTitle t) ""); [reflexivity|].
  destruct C as (_ & Hy & _). unfold noRun in Hy.
  destruct (List.find isYearToken _) as [w|] eqn:E; [|reflexivity].
  apply find_some in E as [Hin Hw]. rewrite Forall_forall in Hy.
  unfold wordRuns in Hin. rewrite (Hy w Hin) in Hw. discriminate.
Qed.

(** ** Letter case *)

Lemma lowerChar_idem (c : ascii) : lowerChar (lowerChar c) = lowerChar c.
Proof.
  assert (H : forallb (fun n => Ascii.eqb (lowerChar (lowerChar (ascii_of_nat n)))
                                          (lowerChar (ascii_of_nat n)))
                      (seq 0 256) = true) by (vm_compute; reflexivity).
  rewrite forallb_forall in H. rewrite <- (ascii_nat_embedding c).
  apply Ascii.eqb_eq, H, in_seq. pose proof (nat_ascii_bounded c). lia.
Qed.

Lemma lowerChar_word (c : ascii) : isWord (lowerChar c) = isWord c.
Proof.
  assert (H : forallb (fun n => Bool.eqb (isWord (lowerChar (ascii_of_nat n)))
                                         (isWord (ascii_of_nat n)))
                      (seq 0 256) = true) by (vm_compute; reflexivity).
  rewrite forallb_forall in H. rewrite <- (ascii_nat_embedding c).
  apply Bool.eqb_prop, H, in_seq. pose proof (nat_ascii_bounded c). lia.
Qed.

Lemma lowerChar_digit (c : ascii) :
  isDigit (lowerChar c) = isDigit c /\ (isDigit (lowerChar c) = true -> lowerChar c = c).
Proof.
  assert (H : forallb (fun n => let c := ascii_of_nat n in
                         Bool.eqb (isDigit (lowerChar c)) (isDigit c)
                         && (negb (isDigit (lowerChar c)) || Ascii.eqb (lowerChar c) c))
                      (seq 0 256) = true) by (vm_compute; reflexivity).
  rewrite forallb_forall in H. rewrite <- (ascii_nat_embedding c).
  assert (Hin : In (nat_of_ascii c) (seq 0 256))
    by (apply in_seq; pose proof (nat_ascii_bounded c); lia).
  specialize (H _ Hin). cbv zeta in H. apply andb_true_iff in H as [H1 H2].
  split; [now apply Bool.eqb_prop|].
  intros Hd. rewrite Hd in H2. now apply Ascii.eqb_eq.
Qed.

Lemma toLowerCase_idem (s : chars) : toLowerCase (toLowerCase s) = toLowerCase s.
Proof.
  unfold toLowerCase. rewrite List.map_map. apply List.map_ext. apply lowerChar_idem.
Qed.

Lemma lowerString_chars (t : string) :
  list_ascii_of_string (lowerString t) = toLowerCase (list_ascii_of_string t).
Proof. apply list_ascii_of_string_of_list_ascii. Qed.

Lemma lowerString_empty (t : string) : String.eqb (lowerString t) "" = String.eqb t "".
Proof. destruct t; reflexivity. Qed.

Lemma runsFrom_lower (cur s : chars) :
  runsFrom (toLowerCase cur) (toLowerCase s) = List.map toLowerCase (runsFrom cur s).
Proof.
  revert cur. induction s as [|c s IH]; intros cur; simpl; [reflexivity|].
  rewrite lowerChar_word. destruct (isWord c).
  - rewrite <- IH. unfold toLowerCase. now rewrite List.map_app.
  - simpl. f_equal. apply (IH []).
Qed.

Lemma isYearToken_lower (w : chars) :
  isYearToken (toLowerCase w) = isYearToken w /\
  (isYearToken w = true -> toLowerCase w = w).
Proof.
  assert (D2 : forall a b x y, isDigit x = true -> isDigit y = true ->
            chars_eqb [lowerChar a; lowerChar b] [x; y] = chars_eqb [a; b] [x; y]).
  { intros a b x y Hx Hy.
    destruct (chars_eqb [lowerChar a; lowerChar b] [x; y]) eqn:E.
    - apply chars_eqb_eq in E. injection E as Ea Eb. symmetry. apply chars_eqb_eq.
      assert (Ha : lowerChar a = a) by (apply lowerChar_digit; now rewrite Ea).
      assert (Hb : lowerChar b = b) by (apply lowerChar_digit; now rewrite Eb).
      congruence.
    - symmetry. destruct (chars_eqb [a; b] [x; y]) eqn:E'; [|reflexivity].
      apply chars_eqb_eq in E'. injection E' as -> ->.
      pose proof (lowerChar_digit x) as [Hx1 Hx2]. pose proof (lowerChar_digit y) as [Hy1 Hy2].
      rewrite Hx in Hx1. rewrite Hy in Hy1.
      rewrite (Hx2 Hx1), (Hy2 Hy1) in E.
      assert (chars_eqb [x; y] [x; y] = true) by now apply chars_eqb_eq. congruence. }
  destruct w as [|a [|b [|c [|d [|? ?]]]]]; try (split; [reflexivity | discriminate]).
  assert (E : isYearToken (toLowerCase [a; b; c; d]) = isYearToken [a; b; c; d]).
  { unfold isYearToken. simpl toLowerCase. cbv iota beta.
    change (list_ascii_of_string "19") with ["1"; "9"]%char.
    change (list_ascii_of_string "20") with ["2"; "0"]%char.
    rewrite !D2 by reflexivity.
    now rewrite (proj1 (lowerChar_digit c)), (proj1 (lowerChar_digit d)). }
  split; [exact E|].
  intros H. rewrite <- E in H. unfold isYearToken in H. simpl toLowerCase in H.
  rewrite !andb_true_iff, orb_true_iff, !chars_eqb_eq in H.
  destruct H as [[H Hc] Hd]. simpl.
  rewrite (proj2 (lowerChar_digit c) Hc), (proj2 (lowerChar_digit d) Hd).
  assert (Ha : isDigit (lowerChar a) = true /\ isDigit (lowerChar b) = true).
  { destruct H as [H|H]; injection H as -> ->; split; reflexivity. }
  destruct Ha as [Ha Hb].
  now rewrite (proj2 (lowerChar_digit a) Ha), (proj2 (lowerChar_digit b) Hb).
Qed.

Lemma find_year_lower (l : list chars) :
  option_map parseDigits (List.find isYearToken (List.map toLowerCase l))
  = option_map parseDigits (List.find isYearToken l).
Proof.
  induction l as [|w l IH]; simpl; [reflexivity|].
  destruct (isYearToken_lower w) as [E1 E2]. rewrite E1.
  destruct (isYearToken w) eqn:Hw; [|exact IH].
  simpl. now rewrite E2.
Qed.


(** ** The candidates of a ranking *)

(** The candidates are the library entries that clear the threshold, each
    exactly once: the ranking reorders them and drops or repeats none. *)
Theorem findAllMatches_complete (StringToNumber : string -> float)
    (targetTitle : string) (targetYear : yearArg) (contentLibrary : list libraryEntry) :
  Permutation
    (List.map item (findAllMatches StringToNumber targetTitle targetYear contentLibrary))
    (List.filter (fun it => PrimFloat.leb 0.8 (fuzzyMatch targetTitle (itemTitle it)))
       contentLibrary).
Proof.
  unfold findAllMatches.
  change (fun it => PrimFloat.leb 0.8 (fuzzyMatch targetTitle (itemTitle it)))
    with (clearsThreshold targetTitle).
  rewrite <- (collectMatches_items StringToNumber targetTitle targetYear).
  apply Permutation_map, sortBy_perm.
Qed.

Lemma scoreItem_derived (StringToNumber : string -> float) (targetTitle : string)
    (targetYear : yearArg) (it : libraryEntry) (m : candidate libraryEntry) :
  scoreItem StringToNumber targetTitle targetYear it it = Some m ->
  derivedFromItem StringToNumber targetYear m.
Proof.
  unfold scoreItem. destruct (PrimFloat.leb _ _); [|discriminate].
  intros H. injection H as <-. unfold derivedFromItem. simpl.
  repeat split; try reflexivity; symmetry; apply surjective_pairing.
Qed.

Lemma ranked_derived (StringToNumber : string -> float) (targetTitle : string)
    (targetYear : yearArg) (lib : list libraryEntry) :
  Forall (derivedFromItem StringToNumber targetYear)
    (findAllMatches StringToNumber targetTitle targetYear lib).
Proof.
  unfold findAllMatches.
  assert (H : Forall (derivedFromItem StringToNumber targetYear)
                (collectMatches StringToNumber targetTitle targetYear lib)).
  { induction lib as [|it lib IH]; simpl; [constructor|].
    destruct (scoreItem _ _ _ it it) eqn:E; [|exact IH].
    constructor; [|exact IH]. eapply scoreItem_derived, E. }
  rewrite List.Forall_forall in *. intros c Hc. apply H.
  eapply Permutation_in; [apply sortBy_perm | exact Hc].
Qed.


(** ** The size of the year bonus *)

Lemma shr_fexp_nonneg (m e : Z) (l : location) :
  0 <= m -> 0 <= shr_m (fst (shr_fexp prec emax m e l)).
Proof.
  intros Hm. unfold shr_fexp, shr.
  assert (Hrec : shr_m (shr_record_of_loc m l) = m) by (destruct l as [|[]]; reflexivity).
  destruct (fexp prec emax (Zdigits2 m + e) - e) as [|p|p]; cbn [fst]; try lia.
  rewrite shr_m_iter by lia. rewrite Hrec.
  apply Z.div_pos; [assumption | apply Z.pow_pos_nonneg; lia].
Qed.

Lemma binary_round_aux_sign (s : bool) (m : positive) (e : Z) (l : location) :
  signedAs s (binary_round_aux prec emax s (Zpos m) e l).
Proof.
  unfold binary_round_aux.
  pose proof (shr_fexp_nonneg (Zpos m) e l) as H1.
  destruct (shr_fexp prec emax (Zpos m) e l) as [mrs' e']. cbn [fst] in H1.
  specialize (H1 ltac:(lia)).
  pose proof (round_nearest_even_bounds (shr_m mrs') (loc_of_shr_record mrs')) as Hr.
  pose proof (shr_fexp_nonneg (round_nearest_even (shr_m mrs') (loc_of_shr_record mrs'))
                e' loc_Exact) as H2.
  destruct (shr_fexp prec emax _ e' loc_Exact) as [mrs'' e'']. cbn [fst] in H2.
  specialize (H2 ltac:(lia)).
  destruct (shr_m mrs'') as [|q|q]; [now left | | lia].
  destruct (e'' <=? emax - prec)%Z.
  - right. right. now exists q, e''.
  - right. left. reflexivity.
Qed.

Lemma signedAs_opp (s : bool) (x : spec_float) : signedAs s x -> signedAs (negb s) (SFopp x).
Proof.
  intros [->|[->|(m & e & ->)]]; [now left | right; now left | right; right].
  now exists m, e.
Qed.

Lemma is_nan_Prim (x : float) : is_nan x = true <-> Prim2SF x = S754_nan.
Proof.
  unfold is_nan. rewrite FloatAxioms.eqb_spec. unfold SFeqb, SFcompare.
  destruct (Prim2SF x) as [s|s| |s m e]; try (split; [discriminate | discriminate]).
  - destruct s; split; discriminate.
  - split; reflexivity.
  - rewrite Z.compare_refl, Pos.compare_cont_refl. destruct s; split; discriminate.
Qed.

(** The product [-|v| * 0.01] has the negative sign, or is NaN. *)
Lemma penalty_sign (v : float) :
  Prim2SF (- abs v * 0.01) = S754_nan \/ signedAs true (Prim2SF (- abs v * 0.01)).
Proof.
  rewrite mul_spec, opp_spec, abs_spec.
  change (Prim2SF 0.01) with (S754_finite false 5764607523034235 (-59)).
  destruct (Prim2SF v) as [s|s| |s m e]; cbn [SFabs SFopp negb SF64mul SFmul xorb].
  - right. now left.
  - right. right. now left.
  - now left.
  - right. apply binary_round_aux_sign.
Qed.

Lemma negative_facts (x : float) :
  signedAs true (Prim2SF x) ->
  is_nan x = false /\ PrimFloat.ltb 0 x = false /\ PrimFloat.leb x 0.1 = true.
Proof.
  intros H. split; [|split].
  - destruct (is_nan x) eqn:E; [|reflexivity]. apply is_nan_Prim in E.
    rewrite E in H. destruct H as [H|[H|(m & e & H)]]; discriminate.
  - rewrite FloatAxioms.ltb_spec, Prim2SF_zero.
    destruct H as [->|[->|(m & e & ->)]]; reflexivity.
  - rewrite FloatAxioms.leb_spec.
    change (Prim2SF 0.1) with (S754_finite false 7205759403792794 (-56)).
    destruct H as [->|[->|(m & e & ->)]]; reflexivity.
Qed.

(** The capped penalty is a number from -0.05 to 0, unless the product is
    NaN. *)
Lemma capped_penalty (x : float) :
  signedAs true (Prim2SF x) ->
  let r := Math_max (-0.05) x in
  is_nan r = false /\ PrimFloat.leb (-0.05) r = true /\ PrimFloat.leb r 0.1 = true /\
  PrimFloat.ltb 0 r = false.
Proof.
  intros H r. subst r. destruct (negative_facts x H) as (Hn & Hp & Hl).
  unfold Math_max. rewrite Hn. cbn [orb].
  change (is_nan (-0.05)) with false. cbn [orb].
  destruct (PrimFloat.ltb (-0.05) x) eqn:E1.
  - repeat split; auto. now apply ltb_leb.
  - destruct (PrimFloat.ltb x (-0.05)); repeat split; reflexivity.
Qed.

Lemma capped_penalty_nan (x : float) :
  Prim2SF x = S754_nan -> PrimFloat.ltb 0 (Math_max (-0.05) x) = false.
Proof.
  intros H. apply is_nan_Prim in H. unfold Math_max. rewrite H, orb_true_r. reflexivity.
Qed.

Lemma binary_round_sign (s : bool) (m : positive) (e : Z) :
  signedAs s (binary_round prec emax s m e).
Proof.
  unfold binary_round. destruct (shl_align m e _) as [mz ez].
  apply binary_round_aux_sign.
Qed.

(** A finite number minus a number is a number. *)
Lemma sub_not_nan (x y : float) (s : bool) (m : positive) (e : Z) :
  Prim2SF x = S754_finite s m e -> is_nan y = false -> is_nan (x - y) = false.
Proof.
  intros Hx Hy. destruct (is_nan (x - y)) eqn:E; [|reflexivity]. exfalso.
  apply is_nan_Prim in E. rewrite sub_spec, Hx in E.
  assert (Hy' : Prim2SF y <> S754_nan).
  { intros H. apply is_nan_Prim in H. congruence. }
  destruct (Prim2SF y) as [sy|sy| |sy my ey]; cbn [SF64sub SFsub] in E;
    try discriminate; [congruence|].
  cbv zeta in E.
  destruct (cond_Zopp s (Zpos (fst (shl_align m e (Z.min e ey))))
            - cond_Zopp sy (Zpos (fst (shl_align my ey (Z.min e ey))))) as [|p|p];
    cbn [binary_normalize] in E; [discriminate | |].
  - pose proof (binary_round_sign false p (Z.min e ey)) as H. rewrite E in H.
    destruct H as [H|[H|(? & ? & H)]]; discriminate.
  - pose proof (binary_round_sign true p (Z.min e ey)) as H. rewrite E in H.
    destruct H as [H|[H|(? & ? & H)]]; discriminate.
Qed.

Lemma abs_not_nan (v : float) : is_nan v = false -> Prim2SF (- abs v * 0.01) <> S754_nan.
Proof.
  intros Hv E. rewrite mul_spec, opp_spec, abs_spec in E.
  assert (Hv' : Prim2SF v <> S754_nan).
  { intros H. apply is_nan_Prim in H. congruence. }
  change (Prim2SF 0.01) with (S754_finite false 5764607523034235 (-59)) in E.
  destruct (Prim2SF v) as [s|s| |s m e]; cbn [SFabs SFopp negb SF64mul SFmul xorb] in E;
    try discriminate; [congruence|].
  pose proof (binary_round_aux_sign true (m * 5764607523034235) (e + -59) loc_Exact) as H.
  rewrite E in H. destruct H as [H|[H|(? & ? & H)]]; discriminate.
Qed.

Lemma finiteYears_all : finiteYears = true.
Proof. vm_compute. reflexivity. Qed.

Lemma year_finite (iy : Z) :
  1900 <= iy <= 2099 -> exists m e, Prim2SF (Number_of_Z iy) = S754_finite false m e.
Proof.
  intros H. pose proof finiteYears_all as F. unfold finiteYears in F.
  rewrite forallb_forall in F.
  specialize (F iy (In_yearRange 1900 200 iy ltac:(lia))).
  destruct (Prim2SF (Number_of_Z iy)) as [| | |[] m e]; try discriminate. now exists m, e.
Qed.

Lemma truthyNumber_not_nan (y : float) : truthyNumber y = true -> is_nan y = false.
Proof.
  unfold truthyNumber. rewrite negb_true_iff, orb_false_iff. tauto.
Qed.

(** With a numeric or null target year the bonus of an entry whose own
    year is one that [extractYear] produces lies between -0.05 and 0.1. *)
Lemma yearBonus_numeric (StringToNumber : string -> float) (targetYear : yearArg)
    (itemYear : option Z) :
  (forall s, targetYear <> YearStr s) ->
  (forall iy, itemYear = Some iy -> 1900 <= iy <= 2099) ->
  let b := computeYearBonus StringToNumber targetYear itemYear in
  is_nan b = false /\ PrimFloat.leb (-0.05) b = true /\ PrimFloat.leb b 0.1 = true.
Proof.
  intros Hstr Hrange b. subst b. unfold computeYearBonus.
  destruct itemYear as [iy|]; [|repeat split; reflexivity].
  specialize (Hrange iy eq_refl).
  destruct targetYear as [|y|s]; [repeat split; reflexivity | | now destruct (Hstr s)].
  cbn [truthyYear strictEqYear yearToNumber].
  destruct (truthyNumber y) eqn:Ty; cbn [andb]; [|repeat split; reflexivity].
  destruct (Z.eqb iy 0); cbn [negb]; [repeat split; reflexivity|].
  destruct (PrimFloat.eqb (Number_of_Z iy) y); [repeat split; reflexivity|].
  destruct (year_finite iy Hrange) as (m & e & Hf).
  pose proof (sub_not_nan _ y _ _ _ Hf (truthyNumber_not_nan y Ty)) as Hv.
  destruct (penalty_sign (Number_of_Z iy - y)) as [Hn|Hs];
    [now destruct (abs_not_nan _ Hv)|].
  destruct (capped_penalty _ Hs) as (H1 & H2 & H3 & _). auto.
Qed.

(** A target year given as text earns no entry a positive bonus. *)
Lemma yearBonus_text (StringToNumber : string -> float) (s : string)
    (itemYear : option Z) :
  PrimFloat.ltb 0 (computeYearBonus StringToNumber (YearStr s) itemYear) = false.
Proof.
  unfold computeYearBonus. destruct itemYear as [iy|]; [|reflexivity].
  cbn [truthyYear strictEqYear yearToNumber].
  destruct (negb (String.eqb s "") && negb (Z.eqb iy 0))%bool; [|reflexivity].
  destruct (penalty_sign (Number_of_Z iy - StringToNumber s)) as [Hn|Hs].
  - now apply capped_penalty_nan.
  - now destruct (capped_penalty _ Hs) as (_ & _ & _ & H).
Qed.

(** With a numeric or null target year every candidate's year bonus is a
    number between -0.05 and +0.1: the adjustment is capped on both
    sides. *)
Theorem year_bonus_bounds (StringToNumber : string -> float)
    (targetTitle : string) (targetYear : yearArg) (contentLibrary : list libraryEntry) :
  (forall s, targetYear <> YearStr s) ->
  Forall (fun c => is_nan (yearBonus c) = false /\
                   PrimFloat.leb (-0.05) (yearBonus c) = true /\
                   PrimFloat.leb (yearBonus c) 0.1 = true)
    (findAllMatches StringToNumber targetTitle targetYear contentLibrary).
Proof.
  intros Hstr.
  eapply List.Forall_impl; [|apply ranked_derived].
  intros c (_ & _ & _ & Hy & Hb & _). rewrite Hb.
  apply yearBonus_numeric; [exact Hstr|].
  intros iy E. rewrite Hy in E. now apply (extractYear_range (title c)).
Qed.

Lemma year_bonus_bounds_witness :
  Forall (fun c => is_nan (yearBonus c) = false /\
                   PrimFloat.leb (-0.05) (yearBonus c) = true /\
                   PrimFloat.leb (yearBonus c) 0.1 = true)
    (findAllMatches (fun _ => nan) "foo bar" (YearNum 2000)
       [entryNamed "foo bar 2000"; entryNamed "foo bar 1950"]).
Proof.
  apply year_bonus_bounds. intros s. discriminate.
Defined.

(** A target year given as text, as the episode search gives it, earns no
    candidate a positive year bonus: an equal year is not rewarded. *)
Theorem text_year_earns_no_bonus (StringToNumber : string -> float)
    (targetTitle s : string) (contentLibrary : list libraryEntry) :
  Forall (fun c => PrimFloat.ltb 0 (yearBonus c) = false)
    (findAllMatches StringToNumber targetTitle (YearStr s) contentLibrary).
Proof.
  eapply List.Forall_impl; [|apply ranked_derived].
  intros c (_ & _ & _ & _ & Hb & _). rewrite Hb. apply yearBonus_text.
Qed.

(** ** The order of doubles *)

Lemma SFcompare_Lt_trans (x y z : spec_float) :
  SFcompare x y = Some Lt -> SFcompare y z = Some Lt -> SFcompare x z = Some Lt.
Proof.
  destruct x as [sx|sx| |sx mx ex], y as [sy|sy| |sy my ey], z as [sz|sz| |sz mz ez];
    try (repeat match goal with s : bool |- _ => destruct s end; cbn; congruence).
  destruct sx, sy, sz; cbn [SFcompare]; try congruence.
  - (* all negative *)
    destruct (Z.compare_spec ex ey), (Z.compare_spec ey ez), (Z.compare_spec ex ez);
      try congruence; try (exfalso; lia); subst;
      rewrite ?Pos.compare_cont_spec; cbn [Pos.switch_Eq];
      destruct (Pos.compare_spec mx my), (Pos.compare_spec my mz), (Pos.compare_spec mx mz);
      cbn [Pos.switch_Eq CompOpp]; try congruence; exfalso; lia.
  - (* all positive *)
    destruct (Z.compare_spec ex ey), (Z.compare_spec ey ez), (Z.compare_spec ex ez);
      try congruence; try (exfalso; lia); subst;
      rewrite ?Pos.compare_cont_spec; cbn [Pos.switch_Eq];
      destruct (Pos.compare_spec mx my), (Pos.compare_spec my mz), (Pos.compare_spec mx mz);
      cbn [Pos.switch_Eq]; try congruence; exfalso; lia.
Qed.

Lemma SFcompare_Le_Lt (x y z : spec_float) :
  SFcompare x y = Some Eq -> SFcompare y z = Some Lt -> SFcompare x z = Some Lt.
Proof.
  destruct x as [sx|sx| |sx mx ex], y as [sy|sy| |sy my ey], z as [sz|sz| |sz mz ez];
    try (repeat match goal with s : bool |- _ => destruct s end; cbn; congruence).
  destruct sx, sy, sz; cbn [SFcompare]; try congruence.
  - destruct (Z.compare_spec ex ey), (Z.compare_spec ey ez), (Z.compare_spec ex ez);
      try congruence; try (exfalso; lia); subst;
      rewrite ?Pos.compare_cont_spec; cbn [Pos.switch_Eq];
      destruct (Pos.compare_spec mx my), (Pos.compare_spec my mz), (Pos.compare_spec mx mz);
      cbn [Pos.switch_Eq CompOpp]; try congruence; exfalso; lia.
  - destruct (Z.compare_spec ex ey), (Z.compare_spec ey ez), (Z.compare_spec ex ez);
      try congruence; try (exfalso; lia); subst;
      rewrite ?Pos.compare_cont_spec; cbn [Pos.switch_Eq];
      destruct (Pos.compare_spec mx my), (Pos.compare_spec my mz), (Pos.compare_spec mx mz);
      cbn [Pos.switch_Eq]; try congruence; exfalso; lia.
Qed.

Lemma ltb_trans (x y z : float) :
  PrimFloat.ltb x y = true -> PrimFloat.ltb y z = true -> PrimFloat.ltb x z = true.
Proof.
  rewrite !FloatAxioms.ltb_spec. unfold SFltb.
  destruct (SFcompare (Prim2SF x) (Prim2SF y)) as [[]|] eqn:E1; try discriminate.
  destruct (SFcompare (Prim2SF y) (Prim2SF z)) as [[]|] eqn:E2; try discriminate.
  now rewrite (SFcompare_Lt_trans _ _ _ E1 E2).
Qed.

Lemma leb_ltb_trans (x y z : float) :
  PrimFloat.leb x y = true -> PrimFloat.ltb y z = true -> PrimFloat.leb x z = true.
Proof.
  rewrite FloatAxioms.ltb_spec, !FloatAxioms.leb_spec. unfold SFltb, SFleb.
  destruct (SFcompare (Prim2SF x) (Prim2SF y)) as [[]|] eqn:E1; try discriminate;
    destruct (SFcompare (Prim2SF y) (Prim2SF z)) as [[]|] eqn:E2; try discriminate.
  - now rewrite (SFcompare_Le_Lt _ _ _ E1 E2).
  - now rewrite (SFcompare_Lt_trans _ _ _ E1 E2).
Qed.

Lemma ltb_irrefl (x : float) : PrimFloat.ltb x x = false.
Proof.
  rewrite FloatAxioms.ltb_spec. unfold SFltb, SFcompare.
  destruct (Prim2SF x) as [s|s| |s m e]; try reflexivity; try (now destruct s).
  rewrite Z.compare_refl, Pos.compare_cont_refl. now destruct s.
Qed.

(** ** The earlier best-match scan *)

Lemma legacy_invariant (targetTitle : string) (lib seen : list libraryEntry)
    (st : option libraryEntry * float) :
  legacyInv targetTitle seen st ->
  legacyInv targetTitle (seen ++ lib) (fold_left (Legacy.step targetTitle) lib st).
Proof.
  revert seen st. induction lib as [|e lib IH]; intros seen st H; simpl.
  - now rewrite app_nil_r.
  - replace (seen ++ e :: lib) with ((seen ++ [e]) ++ lib) by now rewrite <- app_assoc.
    apply IH. clear IH. unfold Legacy.step. destruct st as [[it|] s];
      set (sc := fuzzyMatch targetTitle (itemTitle e)).
    + destruct H as (Hin & Hs & Hth & Hmax).
      destruct (PrimFloat.ltb s sc) eqn:Elt; cbn [andb].
      * destruct (PrimFloat.leb matchingThreshold sc) eqn:Eth.
        -- repeat split; [apply in_or_app; right; now left | assumption |].
           intros e' [He'|[<-|[]]]%in_app_or; [|apply ltb_irrefl].
           specialize (Hmax e' He').
           destruct (PrimFloat.ltb sc (fuzzyMatch targetTitle (itemTitle e'))) eqn:E;
             [|reflexivity].
           rewrite (ltb_trans _ _ _ Elt E) in Hmax. discriminate.
        -- rewrite (leb_ltb_trans _ _ _ Hth Elt) in Eth. discriminate.
      * repeat split; [apply in_or_app; now left | assumption | assumption |].
        intros e' [He'|[<-|[]]]%in_app_or; [now apply Hmax | exact Elt].
    + destruct H as (-> & Hnone).
      destruct (PrimFloat.leb matchingThreshold sc) eqn:Eth.
      * rewrite (threshold_positive _ Eth). cbn [andb].
        repeat split; [apply in_or_app; right; now left | assumption |].
        intros e' [He'|[<-|[]]]%in_app_or; [|apply ltb_irrefl].
        specialize (Hnone e' He'). unfold clearsThreshold in Hnone.
        destruct (PrimFloat.ltb sc (fuzzyMatch targetTitle (itemTitle e'))) eqn:E;
          [|reflexivity].
        rewrite (leb_ltb_trans _ _ _ Eth E) in Hnone. discriminate.
      * rewrite andb_false_r. split; [reflexivity|].
        intros e' [He'|[<-|[]]]%in_app_or; [now apply Hnone | exact Eth].
Qed.

(** The earlier [findBestMatch] returns an entry of the library with its
    own score, which is at least the threshold and which no entry of the
    library exceeds; and it returns no entry, with the score 0, exactly
    when no entry reaches the threshold. *)
Theorem legacy_best_is_maximal (targetTitle : string) (contentLibrary : list libraryEntry) :
  (forall it s, Legacy.findBestMatch targetTitle contentLibrary = (Some it, s) ->
     In it contentLibrary /\
     s = fuzzyMatch targetTitle (itemTitle it) /\
     PrimFloat.leb 0.8 s = true /\
     forall it', In it' contentLibrary ->
       PrimFloat.ltb s (fuzzyMatch targetTitle (itemTitle it')) = false) /\
  (forall s, Legacy.findBestMatch targetTitle contentLibrary = (None, s) ->
     s = 0%float /\
     forall it', In it' contentLibrary ->
       PrimFloat.leb 0.8 (fuzzyMatch targetTitle (itemTitle it')) = false).
Proof.
  pose proof (legacy_invariant targetTitle contentLibrary [] (None, 0%float)) as H.
  simpl in H. fold (Legacy.findBestMatch targetTitle contentLibrary) in H.
  specialize (H (conj eq_refl (fun e (F : In e []) => match F with end))).
  split.
  - intros it s E. rewrite E in H. exact H.
  - intros s E. rewrite E in H. exact H.
Qed.

Lemma legacy_best_is_maximal_witness :
  In (entryNamed "foo bar") [entryNamed "foo baz"; entryNamed "foo bar"; entryNamed "foo bar hd"] /\
  1%float = fuzzyMatch "foo bar" (itemTitle (entryNamed "foo bar")) /\
  PrimFloat.leb 0.8 1 = true /\
  forall it', In it' [entryNamed "foo baz"; entryNamed "foo bar"; entryNamed "foo bar hd"] ->
    PrimFloat.ltb 1 (fuzzyMatch "foo bar" (itemTitle it')) = false.
Proof.
  apply (proj1 (legacy_best_is_maximal "foo bar"
                  [entryNamed "foo baz"; entryNamed "foo bar"; entryNamed "foo bar hd"])).
  reflexivity.
Defined.

(** ** The resolver, the series information and the refresh *)

Lemma nth_error_firstn_Some {A} (n i : nat) (l : list A) (x : A) :
  nth_error (firstn n l) i = Some x -> nth_error l i = Some x.
Proof.
  revert i l. induction n as [|n IH]; intros i l; [now destruct i|].
  destruct l as [|y l]; [now destruct i|]. destruct i as [|i]; simpl; [auto|]. apply IH.
Qed.

Lemma Forall_firstn_list {A} (P : A -> Prop) (n : nat) (l : list A) :
  Forall P l -> Forall P (firstn n l).
Proof.
  intros H. rewrite List.Forall_forall in *. intros x Hx. apply H.
  rewrite <- (firstn_skipn n l). apply in_or_app. now left.
Qed.

Lemma bypass_cache {R : Type} (now : Z) (key : string) (a : addon)
    (hit : cacheEntry -> R) (res : R) :
  notFresh now key a ->
  match realTimeCache a !! key with
  | Some cached => if Z.ltb (now - timestamp cached) cacheWindow then hit cached else res
  | None => res
  end = res.
Proof.
  intros Hnf. destruct (realTimeCache a !! key) as [c|] eqn:Hc; [|reflexivity].
  specialize (Hnf c Hc).
  assert (H : Z.ltb (now - timestamp c) cacheWindow = false) by (apply Z.ltb_ge; lia).
  now rewrite H.
Qed.

Section ServiceFacts.
Variable omdbApiKey : bool.
Variable omdbRequest : string -> omdbOutcome.
Variable CACHE_ENABLED : bool.
Variable providerFetchData :
  list libraryEntry * list libraryEntry * list libraryEntry ->
  option (list libraryEntry * list libraryEntry * list libraryEntry).
Variable fetchSeriesInfo : string -> option (option (list video)).
Variable parseInt : string -> float.
Variable StringToNumber : string -> float.

Abbreviation resolveTitle := (getOfficialTitle omdbApiKey omdbRequest).
Abbreviation seriesInfo := (ensureSeriesInfo fetchSeriesInfo).
Abbreviation refresh := (updateData CACHE_ENABLED providerFetchData).
Abbreviation movieSearch :=
  (searchMovieByImdbId omdbApiKey omdbRequest CACHE_ENABLED providerFetchData
     parseInt StringToNumber).
Abbreviation episodeSearch :=
  (searchEpisodeByImdbId omdbApiKey omdbRequest CACHE_ENABLED providerFetchData
     fetchSeriesInfo StringToNumber).

(** An answer of OMDb, "not found" included, is kept: the next call for
    the same identifier returns it and sends no request. *)
Theorem omdb_answer_is_kept (imdbId : string) (a : addon) :
  omdbApiKey = true -> omdbRequest imdbId <> OmdbFailed ->
  resolveTitle imdbId (snd (resolveTitle imdbId a))
  = (fst (resolveTitle imdbId a),
     logEvent (GetOfficialTitle imdbId) (snd (resolveTitle imdbId a))).
Proof.
  intros Hk Hr. apply getOfficialTitle_cached. now apply getOfficialTitle_stores.
Qed.

(** Without an answer nothing is kept.  With no API key the resolver
    returns null and sends no request; a request that fails returns null
    and leaves the cache as it was, so that the next call sends the
    request again. *)
Theorem omdb_failure_is_retried (imdbId : string) (a : addon) :
  omdbCache a !! imdbId = None ->
  (omdbApiKey = false ->
   resolveTitle imdbId a = (None, logEvent (GetOfficialTitle imdbId) a)) /\
  (omdbApiKey = true -> omdbRequest imdbId = OmdbFailed ->
   let a1 := snd (resolveTitle imdbId a) in
   fst (resolveTitle imdbId a) = None /\
   omdbCache a1 = omdbCache a /\
   trace (snd (resolveTitle imdbId a1))
   = trace a1 ++ [GetOfficialTitle imdbId; OmdbRequest imdbId]).
Proof.
  intros Hc. split.
  - intros Hk. unfold getOfficialTitle. cbn [omdbCache logEvent]. now rewrite Hc, Hk.
  - intros Hk Hr. unfold getOfficialTitle. cbn [omdbCache logEvent].
    rewrite Hc, Hk, Hr. cbn [negb fst snd omdbCache logEvent trace].
    rewrite ?Hc, ?Hr. cbn [snd trace logEvent]. repeat split.
    now rewrite <- !app_assoc.
Qed.

(** The series information is fetched once per series: what the first
    call returns is kept and returned again without a fetch, and that is
    the empty list of videos when the provider failed or has no such
    function.  The empty series identifier is answered with null. *)
Theorem series_info_is_kept (seriesId : string) (a : addon) :
  (seriesId <> "" ->
   seriesInfo seriesId (snd (seriesInfo seriesId a))
   = (fst (seriesInfo seriesId a),
      logEvent (EnsureSeriesInfo seriesId) (snd (seriesInfo seriesId a)))) /\
  (seriesId <> "" -> seriesInfoCache a !! seriesId = None ->
   fetchSeriesInfo seriesId = None -> fst (seriesInfo seriesId a) = Some []) /\
  seriesInfo "" a = (None, logEvent (EnsureSeriesInfo "") a).
Proof.
  split; [|split; [|reflexivity]].
  - intros Hne. unfold ensureSeriesInfo.
    destruct (String.eqb_spec seriesId "") as [E|_]; [congruence|].
    cbn [seriesInfoCache logEvent].
    destruct (seriesInfoCache a !! seriesId) as [info|] eqn:Hc.
    + cbn [fst snd seriesInfoCache logEvent]. now rewrite Hc.
    + destruct (fetchSeriesInfo seriesId) as [info|];
        cbn [fst snd seriesInfoCache setSeriesInfoCache logEvent];
        now rewrite lookup_insert_eq.
  - intros Hne Hc Hf. unfold ensureSeriesInfo.
    destruct (String.eqb_spec seriesId "") as [E|_]; [congruence|].
    cbn [seriesInfoCache logEvent]. now rewrite Hc, Hf.
Qed.

(** After a refresh at the time [t0] that reached the provider and
    succeeded, a call less than an hour later leaves everything as it is
    and does not call the provider (with [CACHE_ENABLED]). *)
Theorem updateData_throttle (t0 now : Z) (a : addon)
    (lib : list libraryEntry * list libraryEntry * list libraryEntry) :
  CACHE_ENABLED = true ->
  3600000 <= t0 - lastUpdate a ->
  providerFetchData (channels a, movies a, series a) = Some lib ->
  t0 <> 0 -> now - t0 < 3600000 ->
  let a1 := refresh t0 a in
  (channels a1, movies a1, series a1) = lib /\ lastUpdate a1 = t0 /\
  refresh now a1 = logEvent UpdateData a1.
Proof.
  intros Hce Hold Hf Ht0 Hnow a1.
  assert (E : a1 = setLibrary lib t0 (logEvent ProviderFetchData (logEvent UpdateData a))).
  { subst a1. unfold updateData. cbn [channels movies series lastUpdate logEvent].
    assert (H1 : Z.ltb (t0 - lastUpdate a) 3600000 = false) by (apply Z.ltb_ge; lia).
    assert (H2 : Z.ltb (t0 - lastUpdate a) 900000 = false) by (apply Z.ltb_ge; lia).
    rewrite H1, H2, !Bool.andb_false_r. cbn [orb]. rewrite ?Bool.andb_false_r.
    now rewrite Hf. }
  rewrite E. destruct lib as [[ch mv] se].
  cbn [setLibrary channels movies series lastUpdate logEvent].
  repeat split. unfold updateData. cbn [channels movies series lastUpdate logEvent].
  rewrite Hce. cbn [andb].
  assert (H1 : Z.ltb (now - t0) 3600000 = true) by (apply Z.ltb_lt; lia).
  assert (H2 : Z.eqb t0 0 = false) by (apply Z.eqb_neq; lia).
  now rewrite H1, H2.
Qed.


(** *** The movie search *)




Lemma movieSearch_resolved (now : Z) (imdbId : string) (a a1 : addon) (r : payload) :
  notFresh now imdbId a ->
  movieSearch now imdbId a = (r, a1) ->
  r = MovieMatches [] \/
  exists (t : string) (y : yearArg),
    r = MovieMatches (firstn 5 (findAllMatches StringToNumber t y (movies a1))).
Proof.
  intros Hnf. unfold searchMovieByImdbId. cbv zeta.
  rewrite bypass_cache by assumption.
  destruct (getOfficialTitle omdbApiKey omdbRequest imdbId a) as [[d|] a0].
  - set (a' := if Nat.eqb (List.length (movies a0)) 0 then _ else a0).
    set (y := if String.eqb (omdb_year d) "" then YearNull else _).
    cbn [movies logEvent].
    destruct (Nat.ltb 0 _).
    + intros H. injection H as <- <-. right. exists (omdb_title d), y. reflexivity.
    + intros H. injection H as <- <-. now left.
  - intros H. injection H as <- <-. now left.
Qed.


(** Without a title from the resolver a search that is not answered from
    the result cache comes back empty (no candidates, null for an
    episode), and the library is neither refreshed nor scanned. *)
Theorem search_without_title (now : Z) (imdbId : string) (season episode : Z) (a : addon) :
  fst (resolveTitle imdbId a) = None ->
  (notFresh now imdbId a ->
   movieSearch now imdbId a = (MovieMatches [], snd (resolveTitle imdbId a))) /\
  (notFresh now (episodeKey imdbId season episode) a ->
   episodeSearch now imdbId season episode a = (None, snd (resolveTitle imdbId a))).
Proof.
  intros Hr. split; intros Hnf.
  - unfold searchMovieByImdbId. cbv zeta. rewrite bypass_cache by assumption.
    now destruct (getOfficialTitle omdbApiKey omdbRequest imdbId a) as [[d|] a0].
  - unfold searchEpisodeByImdbId. cbv zeta. fold (episodeKey imdbId season episode).
    rewrite bypass_cache by assumption.
    now destruct (getOfficialTitle omdbApiKey omdbRequest imdbId a) as [[d|] a0].
Qed.
End ServiceFacts.

(** *** The episode search *)

Lemma episodesApart_sym (a b : episodeMatch) : episodesApart a b = episodesApart b a.
Proof. unfold episodesApart. now rewrite abs_sub_sym. Qed.

Lemma compareEpisodes_before (a b : episodeMatch) :
  episodeTiers a -> episodeTiers b ->
  PrimFloat.ltb (compareEpisodes a b) 0 = true -> rankedEpisodes a b.
Proof.
  intros [Ha1 Ha2] [Hb1 Hb2]. unfold compareEpisodes, rankedEpisodes.
  fold (episodesApart a b). destruct (episodesApart a b).
  - intros H. left. split; [reflexivity|]. now apply ltb_leb, sub_neg.
  - right. destruct (Z.eqb_spec (ep_qualityScore a) (ep_qualityScore b)) as [E|E];
      cbn [negb] in H; rewrite Number_of_Z_negative in H by lia;
      apply Z.ltb_lt in H.
    + right. split; [reflexivity|]. split; [assumption | lia].
    + left. split; [reflexivity | lia].
Qed.

Lemma compareEpisodes_after (a b : episodeMatch) :
  episodeTiers a -> episodeTiers b ->
  PrimFloat.ltb (compareEpisodes a b) 0 = false -> rankedEpisodes b a.
Proof.
  intros [Ha1 Ha2] [Hb1 Hb2]. unfold compareEpisodes, rankedEpisodes.
  rewrite (episodesApart_sym b a).
  fold (episodesApart a b). destruct (episodesApart a b) eqn:Ea.
  - intros H. left. split; [reflexivity|].
    assert (H05 : PrimFloat.ltb 0 0.05 = true) by reflexivity.
    destruct (abs_beyond 0.05 (seriesScore a - seriesScore b) H05 (or_introl Ea)) as [Hn|Hp].
    + now apply ltb_leb, sub_neg.
    + apply sub_flip in Hp. congruence.
  - right. destruct (Z.eqb_spec (ep_qualityScore a) (ep_qualityScore b)) as [E|E];
      cbn [negb] in H; rewrite Number_of_Z_negative in H by lia;
      apply Z.ltb_ge in H.
    + right. split; [reflexivity|]. split; [congruence | lia].
    + left. split; [reflexivity | lia].
Qed.

Lemma episodeOk_tiers (s e : Z) (m : episodeMatch) : episodeOk s e m -> episodeTiers m.
Proof.
  intros (_ & _ & Hq & Hs). unfold episodeTiers.
  replace (ep_qualityScore m) with (fst (extractQuality (orElse (v_title (episode m)) "")))
    by now rewrite <- Hq.
  replace (ep_sourceScore m) with (fst (extractSource (orElse (v_title (episode m)) "")))
    by now rewrite <- Hs.
  split; [apply extractQuality_range | apply extractSource_range].
Qed.

Section EpisodeFacts.
Variable omdbApiKey : bool.
Variable omdbRequest : string -> omdbOutcome.
Variable CACHE_ENABLED : bool.
Variable providerFetchData :
  list libraryEntry * list libraryEntry * list libraryEntry ->
  option (list libraryEntry * list libraryEntry * list libraryEntry).
Variable fetchSeriesInfo : string -> option (option (list video)).
Variable StringToNumber : string -> float.

Abbreviation searchEpisodes :=
  (searchEpisodeByImdbId omdbApiKey omdbRequest CACHE_ENABLED providerFetchData
     fetchSeriesInfo StringToNumber).

Lemma checkSeries_ok (s e : Z) (st : list episodeMatch * addon)
    (m : candidate libraryEntry) :
  Forall (episodeOk s e) (fst st) ->
  Forall (episodeOk s e) (fst (checkSeries fetchSeriesInfo s e st m)).
Proof.
  intros H. unfold checkSeries. destruct st as [eps a]. cbn [fst] in H.
  destruct (ensureSeriesInfo _ _ a) as [[videos|] a']; cbn [fst]; [|exact H].
  apply Forall_app. split; [exact H|].
  apply Forall_map. apply List.Forall_forall. intros v Hv.
  apply filter_In in Hv as [_ Hv]. apply andb_true_iff in Hv as [Hs He].
  unfold episodeOk. cbn. repeat split; try assumption; symmetry; apply surjective_pairing.
Qed.

Lemma checkSeries_fold_ok (s e : Z) (ms : list (candidate libraryEntry))
    (st : list episodeMatch * addon) :
  Forall (episodeOk s e) (fst st) ->
  Forall (episodeOk s e) (fst (fold_left (checkSeries fetchSeriesInfo s e) ms st)).
Proof.
  revert st. induction ms as [|m ms IH]; intros st H; simpl; [exact H|].
  apply IH. now apply checkSeries_ok.
Qed.

Lemma episodeSearch_resolved (now : Z) (imdbId : string) (s e : Z) (a a1 : addon)
    (p : payload) :
  notFresh now (episodeKey imdbId s e) a ->
  searchEpisodes now imdbId s e a = (Some p, a1) ->
  exists all, p = EpisodeMatches (firstn 10 (sortBy compareEpisodes all)) /\
              all <> [] /\ Forall (episodeOk s e) all.
Proof.
  intros Hnf. unfold searchEpisodeByImdbId. cbv zeta. fold (episodeKey imdbId s e).
  rewrite bypass_cache by assumption.
  destruct (getOfficialTitle omdbApiKey omdbRequest imdbId a) as [[d|] a0]; [|discriminate].
  set (a' := logEvent _ _).
  set (ms := findAllMatches _ _ _ _).
  pose proof (checkSeries_fold_ok s e ms ([], a') (Forall_nil _)) as H.
  destruct (fold_left _ ms ([], a')) as [all a2]. cbn [fst] in H.
  destruct all as [|x all]; [discriminate|]. cbn [List.length Nat.ltb Nat.leb].
  intros E. injection E as <- <-. exists (x :: all). repeat split; [discriminate | exact H].
Qed.

(** An episode search that is not answered from the result cache and
    finds something returns between one and ten episode matches; each
    carries the requested season and episode numbers, and the quality and
    source tiers found in the title of its video. *)
Theorem searchEpisode_requested (now : Z) (imdbId : string) (seasonNo episodeNo : Z)
    (a a1 : addon) (p : payload) :
  notFresh now (episodeKey imdbId seasonNo episodeNo) a ->
  searchEpisodes now imdbId seasonNo episodeNo a = (Some p, a1) ->
  exists l, p = EpisodeMatches l /\ l <> [] /\ (List.length l <= 10)%nat /\
            Forall (episodeOk seasonNo episodeNo) l.
Proof.
  intros Hnf H.
  destruct (episodeSearch_resolved now imdbId seasonNo episodeNo a a1 p Hnf H)
    as (all & -> & Hne & Hok).
  eexists. split; [reflexivity|]. split; [|split].
  - apply firstn_nonempty.
    destruct (sortBy compareEpisodes all) eqn:E; [|reflexivity].
    apply sortBy_eq_nil in E. contradiction.
  - apply firstn_le_length.
  - apply Forall_firstn_list. rewrite List.Forall_forall in *. intros m Hm. apply Hok.
    eapply Permutation_in; [apply sortBy_perm | exact Hm].
Qed.

End EpisodeFacts.

Lemma omdb_answer_is_kept_witness :
  let resolve := getOfficialTitle true (fun _ => OmdbError) in
  let a0 := Addon ∅ ∅ [] [] [] ∅ 0 [] in
  resolve "tt1" (snd (resolve "tt1" a0))
  = (fst (resolve "tt1" a0), logEvent (GetOfficialTitle "tt1") (snd (resolve "tt1" a0))).
Proof.
  intros resolve a0.
  apply (omdb_answer_is_kept true (fun _ => OmdbError) "tt1" a0); [reflexivity | discriminate].
Defined.

Lemma omdb_failure_is_retried_witness :
  let resolve := getOfficialTitle true (fun _ => OmdbFailed) in
  let a0 := Addon ∅ ∅ [] [] [] ∅ 0 [] in
  let a1 := snd (resolve "tt1" a0) in
  fst (resolve "tt1" a0) = None /\
  omdbCache a1 = omdbCache a0 /\
  trace (snd (resolve "tt1" a1)) = trace a1 ++ [GetOfficialTitle "tt1"; OmdbRequest "tt1"].
Proof.
  intros resolve a0.
  apply (proj2 (omdb_failure_is_retried true (fun _ => OmdbFailed) "tt1" a0 (lookup_empty _)));
    reflexivity.
Defined.

Lemma series_info_is_kept_witness :
  let info := ensureSeriesInfo (fun _ => None) in
  let a0 := Addon ∅ ∅ [] [] [] ∅ 0 [] in
  info "42" (snd (info "42" a0))
  = (fst (info "42" a0), logEvent (EnsureSeriesInfo "42") (snd (info "42" a0))) /\
  fst (info "42" a0) = Some [].
Proof.
  intros info a0. split.
  - apply (proj1 (series_info_is_kept (fun _ => None) "42" a0)). discriminate.
  - apply (proj1 (proj2 (series_info_is_kept (fun _ => None) "42" a0)));
      [discriminate | apply lookup_empty | reflexivity].
Defined.

Lemma updateData_throttle_witness :
  let refresh := updateData true (fun _ => Some ([], [entryNamed "foo bar"], [])) in
  let a0 := Addon ∅ ∅ [] [] [] ∅ 0 [] in
  let a1 := refresh 3600000 a0 in
  (channels a1, movies a1, series a1) = ([], [entryNamed "foo bar"], []) /\
  lastUpdate a1 = 3600000 /\
  refresh 7199999 a1 = logEvent UpdateData a1.
Proof.
  intros refresh a0.
  apply (updateData_throttle true (fun _ => Some ([], [entryNamed "foo bar"], []))
           3600000 7199999 a0); [reflexivity | simpl; lia | reflexivity | lia | lia].
Defined.


Lemma notFresh_empty (now : Z) (key : string) (a : addon) :
  realTimeCache a = ∅ -> notFresh now key a.
Proof. intros E c Hc. rewrite E, lookup_empty in Hc. discriminate. Qed.


Lemma search_without_title_witness :
  let a0 := Addon ∅ ∅ [] [entryNamed "foo bar"] [] ∅ 0 [] in
  searchMovieByImdbId false (fun _ => OmdbFailed) true (fun lib => Some lib)
    (fun _ => nan) (fun _ => nan) 0 "tt1" a0
  = (MovieMatches [], logEvent (GetOfficialTitle "tt1") a0).
Proof.
  intros a0.
  apply (proj1 (search_without_title false (fun _ => OmdbFailed) true (fun lib => Some lib)
                  (fun _ => None) (fun _ => nan) (fun _ => nan) 0 "tt1" 1 1 a0 eq_refl)).
  now apply notFresh_empty.
Defined.

Lemma searchEpisode_requested_witness :
  let search := searchEpisodeByImdbId true (fun _ => OmdbFound (OmdbData "foo bar" "2010"))
                  true (fun lib => Some lib)
                  (fun _ => Some (Some [Video 1 1 (Some "pilot 720p");
                                        Video 1 2 (Some "second");
                                        Video 1 1 (Some "pilot 1080p bluray")]))
                  (fun _ => 2010%float) in
  let a0 := Addon ∅ ∅ [] [] [LibraryEntry "iptv_series_7" (Some "foo bar") None None] ∅ 0 [] in
  exists l, fst (search 0 "tt1" 1 1 a0) = Some (EpisodeMatches l) /\ l <> [] /\
            (List.length l <= 10)%nat /\ Forall (episodeOk 1 1) l.
Proof.
  intros search a0.
  destruct (searchEpisode_requested true (fun _ => OmdbFound (OmdbData "foo bar" "2010"))
              true (fun lib => Some lib)
              (fun _ => Some (Some [Video 1 1 (Some "pilot 720p");
                                    Video 1 2 (Some "second");
                                    Video 1 1 (Some "pilot 1080p bluray")]))
              (fun _ => 2010%float) 0 "tt1" 1 1 a0 (snd (search 0 "tt1" 1 1 a0))
              (EpisodeMatches
                 (match fst (search 0 "tt1" 1 1 a0) with
                  | Some (EpisodeMatches l) => l
                  | _ => []
                  end)))
    as (l & E & H).
  - now apply notFresh_empty.
  - vm_compute. reflexivity.
  - exists l. split; [|exact H]. rewrite <- E. vm_compute. reflexivity.
Defined.


(** ** Request identifiers *)

Lemma splitOnFrom_length (sep : ascii) (cur s : chars) :
  List.length (splitOnFrom sep cur s)
  = S (List.length (List.filter (Ascii.eqb sep) s)).
Proof.
  revert cur. induction s as [|c s IH]; intros cur; simpl; [reflexivity|].
  rewrite (Ascii.eqb_sym sep c). destruct (Ascii.eqb c sep); simpl; now rewrite IH.
Qed.

Lemma splitOnFrom_plain (sep : ascii) (cur s : chars) :
  List.filter (Ascii.eqb sep) s = [] -> splitOnFrom sep cur s = [cur ++ s].
Proof.
  revert cur. induction s as [|c s IH]; intros cur; simpl.
  - now rewrite app_nil_r.
  - rewrite (Ascii.eqb_sym sep c). destruct (Ascii.eqb c sep); [discriminate|].
    intros H. rewrite IH by assumption. now rewrite <- app_assoc.
Qed.

Lemma splitOnFrom_app (sep : ascii) (cur a rest : chars) :
  List.filter (Ascii.eqb sep) a = [] ->
  splitOnFrom sep cur (a ++ sep :: rest) = (cur ++ a) :: splitOnFrom sep [] rest.
Proof.
  revert cur. induction a as [|c a IH]; intros cur; simpl.
  - intros _. now rewrite Ascii.eqb_refl, app_nil_r.
  - rewrite (Ascii.eqb_sym sep c). destruct (Ascii.eqb c sep); [discriminate|].
    intros H. rewrite IH by assumption. now rewrite <- app_assoc.
Qed.

(** The fields of a split hold no separator, and joined by it they give
    the string back. *)
Lemma splitOnFrom_fields (sep : ascii) (cur s : chars) :
  List.filter (Ascii.eqb sep) cur = [] ->
  Forall (fun f => List.filter (Ascii.eqb sep) f = []) (splitOnFrom sep cur s) /\
  match splitOnFrom sep cur s with
  | [] => False
  | f :: fs => cur ++ s = f ++ List.concat (List.map (fun g => sep :: g) fs)
  end.
Proof.
  revert cur. induction s as [|c s IH]; intros cur Hcur; simpl.
  - split; [now constructor | now rewrite !app_nil_r].
  - destruct (Ascii.eqb c sep) eqn:E.
    + apply Ascii.eqb_eq in E. subst c.
      destruct (IH [] eq_refl) as [H1 H2]. split; [now constructor|].
      destruct (splitOnFrom sep [] s) as [|f fs]; [contradiction|].
      simpl in *. now rewrite H2.
    + assert (Hc : List.filter (Ascii.eqb sep) (cur ++ [c]) = []).
      { rewrite List.filter_app, Hcur. simpl. now rewrite (Ascii.eqb_sym sep c), E. }
      destruct (IH (cur ++ [c]) Hc) as [H1 H2]. split; [exact H1|].
      destruct (splitOnFrom sep (cur ++ [c]) s) as [|f fs]; [contradiction|].
      rewrite <- H2. now rewrite <- app_assoc.
Qed.

Lemma includes_colon (s : chars) :
  includes [":"%char] s = negb (Nat.eqb (List.length (List.filter (Ascii.eqb ":"%char) s)) 0).
Proof.
  induction s as [|c s IH]; [reflexivity|].
  cbn [includes isPrefix List.filter]. rewrite IH, (Ascii.eqb_sym ":"%char c).
  destruct (Ascii.eqb c ":"%char); simpl; [reflexivity|].
  now destruct s.
Qed.

Lemma string_of_chars_inj (a b : chars) :
  string_of_list_ascii a = string_of_list_ascii b -> a = b.
Proof.
  intros H. rewrite <- (list_ascii_of_string_of_list_ascii a),
    <- (list_ascii_of_string_of_list_ascii b). now rewrite H.
Qed.

Lemma chars_app (a b : string) :
  list_ascii_of_string (String.append a b)
  = list_ascii_of_string a ++ list_ascii_of_string b.
Proof. induction a as [|c a IH]; simpl; [reflexivity | now rewrite IH]. Qed.

Lemma string_of_app (a b : chars) :
  string_of_list_ascii (a ++ b)
  = String.append (string_of_list_ascii a) (string_of_list_ascii b).
Proof. induction a as [|c a IH]; simpl; [reflexivity | now rewrite IH]. Qed.

(** An identifier with exactly two colons is an episode request: the text
    before the first colon is the IMDb identifier, and the two texts after
    it are read as the season and the episode by [parseInt].  Any other
    identifier, with no colon, one colon or more than two, is a movie
    request for the whole identifier. *)
Theorem parseImdbRequest_colons (id : string) :
  (colons id = 2%nat ->
   exists a b c,
     id = String.append a (String.append ":" (String.append b (String.append ":" c))) /\
     noColon a /\ noColon b /\ noColon c /\
     parseImdbRequest id = EpisodeRequest a (parseInt b) (parseInt c)) /\
  (colons id <> 2%nat -> parseImdbRequest id = MovieRequest id).
Proof.
  unfold parseImdbRequest, splitOn, noColon, colons.
  set (s := list_ascii_of_string id).
  pose proof (splitOnFrom_length ":"%char [] s) as Hlen.
  pose proof (splitOnFrom_fields ":"%char [] s eq_refl) as [Hf Hj].
  rewrite includes_colon. split.
  - intros H2. rewrite H2 in *. cbn [Nat.eqb negb].
    destruct (splitOnFrom ":"%char [] s) as [|a [|b [|c [|? ?]]]]; try discriminate Hlen.
    exists (string_of_list_ascii a), (string_of_list_ascii b), (string_of_list_ascii c).
    cbn [List.map]. rewrite !list_ascii_of_string_of_list_ascii.
    inversion Hf as [|? ? Ha Hf1]; subst. inversion Hf1 as [|? ? Hb Hf2]; subst.
    inversion Hf2 as [|? ? Hc _]; subst.
    rewrite Ha, Hb, Hc. repeat split; try reflexivity.
    simpl in Hj. rewrite app_nil_r in Hj.
    rewrite <- (string_of_list_ascii_of_string id). fold s. rewrite Hj.
    rewrite string_of_app. cbn [string_of_list_ascii]. rewrite string_of_app. reflexivity.
  - intros H2.
    destruct (Nat.eqb (List.length (List.filter (Ascii.eqb ":"%char) s)) 0); [reflexivity|].
    cbn [negb].
    destruct (splitOnFrom ":"%char [] s) as [|a [|b [|c [|? ?]]]]; try reflexivity.
    simpl in Hlen. exfalso. apply H2. congruence.
Qed.

Lemma parseImdbRequest_colons_witness :
  exists a b c,
    "tt0903747:2:13"
    = String.append a (String.append ":" (String.append b (String.append ":" c))) /\
    noColon a /\ noColon b /\ noColon c /\
    parseImdbRequest "tt0903747:2:13" = EpisodeRequest a (parseInt b) (parseInt c).
Proof.
  apply (proj1 (parseImdbRequest_colons "tt0903747:2:13")). reflexivity.
Defined.

(** *** The key of the episode cache *)

Lemma digit_facts (c : ascii) :
  isDigit c = true ->
  isSpace c = false /\ Ascii.eqb "-" c = false /\ Ascii.eqb "+" c = false /\
  Ascii.eqb "x" c = false /\ Ascii.eqb "X" c = false /\ Ascii.eqb c ":" = false /\
  radixDigit 10 c = Some (digitValue c).
Proof. each_char c; vm_compute; intuition congruence. Qed.

Lemma leadingDigits_digits (s : chars) :
  Forall (fun c => isDigit c = true) s -> leadingDigits 10 s = List.map digitValue s.
Proof.
  induction 1 as [|c s Hc H IH]; simpl; [reflexivity|].
  destruct (digit_facts c Hc) as (_ & _ & _ & _ & _ & _ & ->). now rewrite IH.
Qed.

(** [parseInt] of a run of decimal digits. *)
Lemma parseInt_digits (s : chars) :
  s <> [] -> Forall (fun c => isDigit c = true) s ->
  parseInt (string_of_list_ascii s)
  = Number_of_Z (fold_left (fun acc d => 10 * acc + d) (List.map digitValue s) 0).
Proof.
  intros Hne Hd. unfold parseInt. rewrite list_ascii_of_string_of_list_ascii.
  destruct s as [|c r]; [congruence|].
  inversion Hd as [|? ? Hc Hr]; subst.
  destruct (digit_facts c Hc) as (Hsp & Hm & Hp & _ & _ & _ & _).
  cbn [trimStart]. rewrite Hsp. cbn [isPrefix]. rewrite Hm, Hp. cbn [andb orb].
  assert (Hx : (isPrefix (list_ascii_of_string "0x") (c :: r)
                || isPrefix (list_ascii_of_string "0X") (c :: r))%bool = false).
  { cbn [list_ascii_of_string isPrefix]. destruct r as [|d r]; [now rewrite !andb_false_r|].
    inversion Hr as [|? ? Hd' _]; subst.
    destruct (digit_facts d Hd') as (_ & _ & _ & -> & -> & _ & _).
    now rewrite !andb_false_r. }
  rewrite Hx. rewrite leadingDigits_digits by assumption.
  cbn [List.map]. reflexivity.
Qed.

Lemma uint_digits (d : Decimal.uint) :
  Forall (fun c => isDigit c = true) (list_ascii_of_string (NilEmpty.string_of_uint d)).
Proof. induction d; simpl; constructor; auto. Qed.

Lemma uint_value (d : Decimal.uint) :
  (forall acc : positive,
     fold_left (fun acc d => 10 * acc + d)
       (List.map digitValue (list_ascii_of_string (NilEmpty.string_of_uint d))) (Zpos acc)
     = Zpos (Pos.of_uint_acc d acc)) /\
  fold_left (fun acc d => 10 * acc + d)
    (List.map digitValue (list_ascii_of_string (NilEmpty.string_of_uint d))) 0
  = Z.of_N (Pos.of_uint d).
Proof.
  induction d as [|d [IH1 IH2]|d [IH1 IH2]|d [IH1 IH2]|d [IH1 IH2]|d [IH1 IH2]
                  |d [IH1 IH2]|d [IH1 IH2]|d [IH1 IH2]|d [IH1 IH2]|d [IH1 IH2]];
    (split; [intros acc|]); cbn [NilEmpty.string_of_uint list_ascii_of_string List.map
                                   fold_left Pos.of_uint Pos.of_uint_acc];
    try reflexivity;
    match goal with
    | |- context [digitValue ?c] =>
        let v := eval vm_compute in (digitValue c) in change (digitValue c) with v
    end;
    try (rewrite <- IH1; f_equal; lia);
    try (rewrite <- IH2; f_equal; lia);
    cbn [Z.of_N]; rewrite <- IH1; f_equal.
Qed.

(** The decimal text of a natural number is read back by [parseInt]. *)
Lemma parseInt_Z_to_string (z : Z) : 0 <= z -> parseInt (Z_to_string z) = Number_of_Z z.
Proof.
  intros Hz. unfold Z_to_string. destruct z as [|p|p]; [reflexivity | | lia].
  cbn [Z.to_int NilZero.string_of_int]. unfold NilZero.string_of_uint.
  pose proof (DecimalPos.Unsigned.of_to p) as Hp.
  destruct (Pos.to_uint p) eqn:E; [discriminate Hp | ..];
    rewrite <- E in *;
    rewrite <- (string_of_list_ascii_of_string (NilEmpty.string_of_uint (Pos.to_uint p)));
    (rewrite parseInt_digits; [| rewrite E; discriminate | apply uint_digits]);
    now rewrite (proj2 (uint_value (Pos.to_uint p))), Hp.
Qed.

Lemma digits_noColon (s : chars) :
  Forall (fun c => isDigit c = true) s -> List.filter (Ascii.eqb ":"%char) s = [].
Proof.
  induction 1 as [|c s Hc H IH]; [reflexivity|]. cbn [List.filter].
  destruct (digit_facts c Hc) as (_ & _ & _ & _ & _ & Hk & _).
  now rewrite (Ascii.eqb_sym ":"%char c), Hk.
Qed.

Lemma Z_to_string_digits (z : Z) :
  0 <= z -> Forall (fun c => isDigit c = true) (list_ascii_of_string (Z_to_string z)).
Proof.
  intros Hz. unfold Z_to_string. destruct z as [|p|p]; [repeat constructor | | lia].
  cbn [Z.to_int NilZero.string_of_int]. unfold NilZero.string_of_uint.
  destruct (Pos.to_uint p) eqn:E; [repeat constructor | ..]; rewrite <- E; apply uint_digits.
Qed.



(** ** Streams by identifier *)

Lemma find_app_first {A} (p : A -> bool) (l1 l2 : list A) :
  List.find p (l1 ++ l2)
  = match List.find p l1 with Some x => Some x | None => List.find p l2 end.
Proof. induction l1 as [|x l1 IH]; simpl; [reflexivity|]. now destruct (p x). Qed.

(** [lookupEpisodeById] returns the first video whose [id] is the given
    string, going through the cached series in insertion order and then
    through the direct index; it returns null when no video has it. *)
Theorem lookupEpisodeById_first (c : catalog) (epId : string) :
  lookupEpisodeById c epId
  = List.find (fun v => strictEqString (ev_id v) epId) (allEpisodes c).
Proof.
  unfold lookupEpisodeById, allEpisodes. rewrite find_app_first.
  assert (H1 : forall infos,
            lookupCached epId infos
            = List.find (fun v => strictEqString (ev_id v) epId)
                (List.concat (List.map (fun info => match info with
                                                    | Some videos => videos
                                                    | None => []
                                                    end) infos))).
  { induction infos as [|[videos|] rest IH]; simpl; [reflexivity | | exact IH].
    rewrite find_app_first, IH. now destruct (List.find _ videos). }
  assert (H2 : forall arrays,
            lookupDirect epId arrays
            = List.find (fun v => strictEqString (ev_id v) epId) (List.concat arrays)).
  { induction arrays as [|arr rest IH]; simpl; [reflexivity|].
    rewrite find_app_first, IH. now destruct (List.find _ arr). }
  rewrite H1, H2. now destruct (List.find _ _).
Qed.

Lemma allDigits_noColon (w : chars) :
  allDigits w = true -> List.filter (Ascii.eqb ":"%char) w = [].
Proof.
  unfold allDigits. rewrite andb_true_iff, forallb_forall. intros [_ H].
  apply digits_noColon. now apply List.Forall_forall.
Qed.

Lemma series_id_split (a s e : string) :
  allDigits (list_ascii_of_string a) = true ->
  allDigits (list_ascii_of_string s) = true ->
  allDigits (list_ascii_of_string e) = true ->
  let id := template ["iptv_series_"; a; ":"; s; ":"; e] in
  splitOnFrom ":"%char [] (list_ascii_of_string id)
  = [list_ascii_of_string "iptv_series_" ++ list_ascii_of_string a;
     list_ascii_of_string s; list_ascii_of_string e] /\
  includes [":"%char] (list_ascii_of_string id) = true.
Proof.
  intros Ha Hs He id.
  assert (E0 : list_ascii_of_string id
               = (list_ascii_of_string "iptv_series_" ++ list_ascii_of_string a)
                 ++ ":"%char :: list_ascii_of_string s
                 ++ ":"%char :: list_ascii_of_string e).
  { subst id. unfold template. cbn [String.concat String.append].
    rewrite !chars_app. cbn [list_ascii_of_string app]. reflexivity. }
  rewrite E0.
  assert (Hpre : List.filter (Ascii.eqb ":"%char)
                   (list_ascii_of_string "iptv_series_" ++ list_ascii_of_string a) = []).
  { rewrite List.filter_app, (allDigits_noColon _ Ha). reflexivity. }
  split.
  - rewrite splitOnFrom_app by exact Hpre.
    rewrite splitOnFrom_app by now apply allDigits_noColon.
    rewrite splitOnFrom_plain by now apply allDigits_noColon. reflexivity.
  - apply includes_spec. now eexists _, _.
Qed.

(** The series part of an episode identifier is not used: two
    identifiers [iptv_series_<a>:<s>:<e>] and [iptv_series_<b>:<s>:<e>]
    get the same stream, whatever series the videos belong to. *)
Theorem getStream_ignores_series (StringToNumber : string -> float)
    (NumberToString : float -> string) (starEmoji tvEmoji clapperEmoji antennaEmoji : string)
    (c : catalog) (a b s e : string) :
  allDigits (list_ascii_of_string a) = true ->
  allDigits (list_ascii_of_string b) = true ->
  allDigits (list_ascii_of_string s) = true ->
  allDigits (list_ascii_of_string e) = true ->
  getStream StringToNumber NumberToString starEmoji tvEmoji clapperEmoji antennaEmoji c
    (template ["iptv_series_"; a; ":"; s; ":"; e])
  = getStream StringToNumber NumberToString starEmoji tvEmoji clapperEmoji antennaEmoji c
      (template ["iptv_series_"; b; ":"; s; ":"; e]).
Proof.
  intros Ha Hb Hs He.
  assert (P : forall x, allDigits (list_ascii_of_string x) = true ->
            isSeriesEpisodeId (template ["iptv_series_"; x; ":"; s; ":"; e]) = true /\
            includes [":"%char]
              (list_ascii_of_string (template ["iptv_series_"; x; ":"; s; ":"; e])) = true /\
            nth 1 (splitOn ":" (template ["iptv_series_"; x; ":"; s; ":"; e])) "" = s /\
            nth 2 (splitOn ":" (template ["iptv_series_"; x; ":"; s; ":"; e])) "" = e).
  { intros x Hx. destruct (series_id_split x s e Hx Hs He) as [Hsplit Hinc].
    unfold isSeriesEpisodeId, splitOn. rewrite Hsplit. repeat split.
    - rewrite Hs, He, !andb_true_r. apply andb_true_iff. split.
      + apply isPrefix_spec. now eexists.
      + exact Hx.
    - exact Hinc.
    - cbn [List.map nth]. apply string_of_list_ascii_of_string.
    - cbn [List.map nth]. apply string_of_list_ascii_of_string. }
  destruct (P a Ha) as (A1 & A2 & A3 & A4). destruct (P b Hb) as (B1 & B2 & B3 & B4).
  unfold getStream. rewrite A1, A2, B1, B2. cbn [andb]. cbv zeta.
  now rewrite A3, A4, B3, B4.
Qed.

Lemma getStream_ignores_series_witness :
  let c := Catalog [] [] []
             [Some [EpisodeVideo (JStr "x") (JStr "1") (JNum 2) JUndefined (JStr "http://h/1")]]
             [] in
  getStream (fun _ => 1%float) (fun _ => "1") "*" "tv" "clap" "live" c
    (template ["iptv_series_"; "42"; ":"; "1"; ":"; "2"])
  = getStream (fun _ => 1%float) (fun _ => "1") "*" "tv" "clap" "live" c
      (template ["iptv_series_"; "7"; ":"; "1"; ":"; "2"]).
Proof.
  intros c.
  apply (getStream_ignores_series (fun _ => 1%float) (fun _ => "1") "*" "tv" "clap" "live"
           c "42" "7" "1" "2"); reflexivity.
Defined.

(** ** The EPG offset of an instance *)

Lemma SFcompare_swap (x y : spec_float) (c : comparison) :
  SFcompare x y = Some c -> SFcompare y x = Some (CompOpp c).
Proof.
  destruct x as [sx|sx| |sx mx ex], y as [sy|sy| |sy my ey];
    try (repeat match goal with s : bool |- _ => destruct s end; cbn; intros H;
         injection H as <-; reflexivity);
    try (cbn; discriminate).
  destruct sx, sy; cbn [SFcompare]; intros H; injection H as <-; try reflexivity.
  - rewrite (Z.compare_antisym ex ey).
    destruct (ex ?= ey)%Z; cbn [CompOpp]; try reflexivity.
    f_equal. f_equal. symmetry. apply (Pos.compare_cont_antisym mx my Eq).
  - rewrite (Z.compare_antisym ex ey).
    destruct (ex ?= ey)%Z; cbn [CompOpp]; try reflexivity.
    f_equal. symmetry. apply (Pos.compare_cont_antisym mx my Eq).
Qed.

(** Of two numbers, the first is above the second or at most equal to
    it. *)
Lemma not_ltb_leb (x y : float) :
  is_nan x = false -> is_nan y = false ->
  PrimFloat.ltb y x = false -> PrimFloat.leb x y = true.
Proof.
  intros Hx Hy. rewrite FloatAxioms.ltb_spec, FloatAxioms.leb_spec. unfold SFltb, SFleb.
  assert (Nx : Prim2SF x <> S754_nan) by (intros E; apply is_nan_Prim in E; congruence).
  assert (Ny : Prim2SF y <> S754_nan) by (intros E; apply is_nan_Prim in E; congruence).
  destruct (SFcompare (Prim2SF y) (Prim2SF x)) as [c|] eqn:E.
  - rewrite (SFcompare_swap _ _ _ E). now destruct c.
  - exfalso. destruct (Prim2SF x), (Prim2SF y); try congruence; discriminate.
Qed.

Lemma abs_not_nan_iff (x : float) : is_nan (abs x) = is_nan x.
Proof.
  destruct (is_nan x) eqn:E.
  - apply is_nan_Prim in E. apply is_nan_Prim. now rewrite abs_spec, E.
  - destruct (is_nan (abs x)) eqn:E'; [|reflexivity].
    apply is_nan_Prim in E'. rewrite abs_spec in E'.
    assert (Prim2SF x = S754_nan) by (destruct (Prim2SF x); try discriminate; reflexivity).
    apply is_nan_Prim in H. congruence.
Qed.

(** Whatever the configuration holds, the offset that the constructor
    leaves is a finite number of at most 48 in absolute value. *)
Theorem epg_offset_bounded (parseFloat : string -> float) (epgOffsetHours : jsval) :
  isFiniteNumber (normalizeEpgOffset parseFloat epgOffsetHours) = true /\
  PrimFloat.leb (abs (normalizeEpgOffset parseFloat epgOffsetHours)) 48 = true.
Proof.
  assert (K : forall x, isFiniteNumber x = true ->
            let r := if PrimFloat.ltb 48 (abs x) then 0%float else x in
            isFiniteNumber r = true /\ PrimFloat.leb (abs r) 48 = true).
  { intros x Hx r. subst r.
    destruct (PrimFloat.ltb 48 (abs x)) eqn:E; [split; reflexivity|].
    split; [exact Hx|].
    apply not_ltb_leb; [|reflexivity | exact E].
    rewrite abs_not_nan_iff. unfold isFiniteNumber in Hx.
    rewrite negb_true_iff, orb_false_iff in Hx. tauto. }
  unfold normalizeEpgOffset.
  destruct epgOffsetHours as [| |x|s]; try (split; reflexivity).
  - destruct (isFiniteNumber x) eqn:Hx; cbn [negb]; [now apply K | split; reflexivity].
  - destruct (is_nan (parseFloat s)); cbn [negb]; [split; reflexivity|].
    destruct (isFiniteNumber (parseFloat s)) eqn:Hx; cbn [negb];
      [now apply K | split; reflexivity].
Qed.

(** ** The genres of the manifest *)

Lemma existsb_eqb_In (x : string) (l : list string) :
  existsb (String.eqb x) l = true <-> In x l.
Proof.
  rewrite existsb_exists. split.
  - intros (y & Hy & E). apply String.eqb_eq in E. now subst.
  - intros H. exists x. split; [assumption | apply String.eqb_refl].
Qed.

Lemma setAdd_fold (xs acc : list string) :
  List.NoDup acc ->
  List.NoDup (fold_left setAdd xs acc) /\
  forall g, In g (fold_left setAdd xs acc) <-> In g acc \/ In g xs.
Proof.
  revert acc. induction xs as [|x xs IH]; intros acc Hnd; simpl.
  - split; [assumption | intros g; tauto].
  - unfold setAdd at 2 4. destruct (existsb (String.eqb x) acc) eqn:E.
    + destruct (IH acc Hnd) as [H1 H2]. split; [exact H1|].
      intros g. rewrite H2. apply existsb_eqb_In in E.
      split; [tauto|]. intros [H|[<-|H]]; auto.
    + assert (Hx : ~ In x acc).
      { intros H. apply existsb_eqb_In in H. congruence. }
      assert (Hnd' : List.NoDup (acc ++ [x])).
      { eapply Permutation_NoDup; [apply Permutation_cons_append|]. now constructor. }
      destruct (IH (acc ++ [x]) Hnd') as [H1 H2]. split; [exact H1|].
      intros g. rewrite H2, in_app_iff. simpl. tauto.
Qed.

Lemma mapThrowing_In {A B} (f : A -> option B) (xs : list A) (ys : list B) :
  mapThrowing f xs = Some ys ->
  forall y, In y ys <-> exists x, In x xs /\ f x = Some y.
Proof.
  revert ys. induction xs as [|x xs IH]; intros ys; simpl.
  - intros H. injection H as <-. intros y. split; [intros [] | intros (? & [] & _)].
  - destruct (f x) as [y0|] eqn:E; [|discriminate].
    destruct (mapThrowing f xs) as [ys0|]; [|discriminate].
    intros H. injection H as <-. intros y. simpl. rewrite (IH ys0 eq_refl). split.
    + intros [<-|(x' & Hx & Hf)]; [exists x | exists x']; auto.
    + intros (x' & [<-|Hx] & Hf); [left; congruence | right; now exists x'].
Qed.

Section GenreFacts.
Variable localeCompare : string -> string -> float.

Lemma groupsOf_spec (items : list catalogItem) (groups : list string) :
  groupsOf localeCompare items = Some groups ->
  List.NoDup groups /\ forall g, In g groups <-> isGroupOf items g.
Proof.
  unfold groupsOf.
  destruct (mapThrowing trimValue _) as [gs|] eqn:E; [|discriminate].
  intros H. injection H as <-.
  destruct (setAdd_fold gs [] (List.NoDup_nil _)) as [H1 H2]. fold (setOf gs) in H1, H2.
  split.
  - eapply Permutation_NoDup; [symmetry; apply sortBy_perm | exact H1].
  - intros g. split.
    + intros Hg. eapply Permutation_in in Hg; [|apply sortBy_perm].
      apply H2 in Hg as [[]|Hg].
      apply (mapThrowing_In _ _ _ E) in Hg as (v & Hv & Ht).
      apply filter_In in Hv as [Hv Htr]. apply in_map_iff in Hv as (it & <- & Hit).
      destruct (groupOf it) as [| |x|s] eqn:Eg; try discriminate Ht.
      injection Ht as <-. exists it, s. repeat split; try assumption.
      simpl in Htr. intros ->. discriminate.
    + intros (it & s & Hit & Eg & Hs & ->).
      eapply Permutation_in; [symmetry; apply sortBy_perm|].
      apply H2. right. apply (mapThrowing_In _ _ _ E).
      exists (JStr s). split; [|reflexivity].
      apply filter_In. split.
      * apply in_map_iff. now exists it.
      * simpl. now destruct (String.eqb_spec s "").
Qed.

Lemma genresOf_setGenres (id : string) (genres : list string)
    (catalogs : list manifestCatalog) :
  hasCatalog id catalogs = true ->
  genresOf id (setGenres id genres catalogs) = Some genres.
Proof.
  unfold hasCatalog, genresOf. induction catalogs as [|c rest IH]; simpl; [discriminate|].
  destruct (String.eqb (mc_id c) id) eqn:E; simpl.
  - intros _. now rewrite E.
  - intros H. rewrite E. now apply IH.
Qed.

Lemma genresOf_other (id id' : string) (genres : list string)
    (catalogs : list manifestCatalog) :
  id <> id' -> genresOf id (setGenres id' genres catalogs) = genresOf id catalogs.
Proof.
  intros Hne. unfold genresOf. induction catalogs as [|c rest IH]; simpl; [reflexivity|].
  destruct (String.eqb_spec (mc_id c) id') as [E'|E']; simpl.
  - destruct (String.eqb_spec (mc_id c) id) as [E|E]; [congruence | reflexivity].
  - destruct (String.eqb (mc_id c) id); [reflexivity|].
    unfold genresOf in IH. exact IH.
Qed.

Lemma hasCatalog_setGenres (id id' : string) (genres : list string)
    (catalogs : list manifestCatalog) :
  hasCatalog id (setGenres id' genres catalogs) = hasCatalog id catalogs.
Proof.
  unfold hasCatalog. induction catalogs as [|c rest IH]; simpl; [reflexivity|].
  destruct (String.eqb (mc_id c) id'); simpl; [reflexivity | now rewrite IH].
Qed.

(** When [buildGenresInManifest] completes, the genres of each of the
    three catalogues that the manifest has are free of duplicates, and
    they are the trimmed groups of the items of its list (category, or
    else the group-title attribute); the channel catalogue has
    "All Channels" in addition. *)
Theorem genres_of_manifest (c : catalog) (catalogs catalogs' : list manifestCatalog) :
  buildGenresInManifest localeCompare c catalogs = (catalogs', true) ->
  (hasCatalog "iptv_channels" catalogs = true ->
   exists genres, genresOf "iptv_channels" catalogs' = Some genres /\
     List.NoDup genres /\
     forall g, In g genres <-> g = "All Channels" \/ isGroupOf (cat_channels c) g) /\
  (hasCatalog "iptv_movies" catalogs = true ->
   exists genres, genresOf "iptv_movies" catalogs' = Some genres /\
     List.NoDup genres /\ forall g, In g genres <-> isGroupOf (cat_movies c) g) /\
  (hasCatalog "iptv_series" catalogs = true ->
   exists genres, genresOf "iptv_series" catalogs' = Some genres /\
     List.NoDup genres /\ forall g, In g genres <-> isGroupOf (cat_series c) g).
Proof.
  unfold buildGenresInManifest.
  set (tv := hasCatalog "iptv_channels" catalogs).
  set (mv := hasCatalog "iptv_movies" catalogs).
  set (se := hasCatalog "iptv_series" catalogs).
  (* the channel catalogue *)
  assert (T : forall catalogs1,
            (if tv then
               match groupsOf localeCompare (cat_channels c) with
               | Some groups =>
                   Some (setGenres "iptv_channels"
                           (if negb (existsb (String.eqb "All Channels") groups)
                            then "All Channels" :: groups else groups) catalogs)
               | None => None
               end
             else Some catalogs) = Some catalogs1 ->
            hasCatalog "iptv_movies" catalogs1 = mv /\
            hasCatalog "iptv_series" catalogs1 = se /\
            (tv = true ->
             exists genres, genresOf "iptv_channels" catalogs1 = Some genres /\
               List.NoDup genres /\
               forall g, In g genres <-> g = "All Channels" \/ isGroupOf (cat_channels c) g)).
  { intros catalogs1. destruct tv eqn:Etv.
    - destruct (groupsOf localeCompare (cat_channels c)) as [groups|] eqn:Eg; [|discriminate].
      set (groups' := if negb _ then _ else groups).
      intros H. injection H as <-. rewrite !hasCatalog_setGenres.
      split; [reflexivity|]. split; [reflexivity|]. intros _.
      destruct (groupsOf_spec _ _ Eg) as [Hnd Hin].
      exists groups'. split; [apply genresOf_setGenres; exact Etv|]. subst groups'.
      destruct (existsb (String.eqb "All Channels") groups) eqn:Ea; cbn [negb].
      + split; [exact Hnd|]. intros g. rewrite <- Hin. apply existsb_eqb_In in Ea.
        split; [tauto|]. intros [->|H]; assumption.
      + assert (Hn : ~ In "All Channels" groups).
        { intros H. apply existsb_eqb_In in H. congruence. }
        split; [now constructor|]. intros g. simpl. rewrite <- Hin.
        split; intros [H|H]; auto.
    - intros H. injection H as <-. repeat split. discriminate. }
  destruct (if tv then _ else Some catalogs) as [catalogs1|] eqn:E1; [|discriminate].
  destruct (T catalogs1 eq_refl) as (Hmv & Hse & Htv). clear T.
  destruct mv eqn:Emv.
  - destruct (groupsOf localeCompare (cat_movies c)) as [mg|] eqn:Eg; [|discriminate].
    destruct (groupsOf_spec _ _ Eg) as [Hnd Hin].
    destruct se eqn:Ese.
    + destruct (groupsOf localeCompare (cat_series c)) as [sg|] eqn:Egs; [|discriminate].
      destruct (groupsOf_spec _ _ Egs) as [Hnds Hins].
      intros H. injection H as <-. split; [|split].
      * intros Ht. destruct (Htv Ht) as (genres & G & Hg).
        exists genres. split; [|exact Hg].
        now rewrite !genresOf_other by discriminate.
      * intros _. exists mg. split; [|now split].
        rewrite genresOf_other by discriminate.
        apply genresOf_setGenres. exact Hmv.
      * intros _. exists sg. split; [|now split].
        apply genresOf_setGenres. now rewrite hasCatalog_setGenres.
    + intros H. injection H as <-. split; [|split].
      * intros Ht. destruct (Htv Ht) as (genres & G & Hg).
        exists genres. split; [|exact Hg].
        now rewrite !genresOf_other by discriminate.
      * intros _. exists mg. split; [|now split].
        apply genresOf_setGenres. exact Hmv.
      * discriminate.
  - destruct se eqn:Ese.
    + destruct (groupsOf localeCompare (cat_series c)) as [sg|] eqn:Egs; [|discriminate].
      destruct (groupsOf_spec _ _ Egs) as [Hnds Hins].
      intros H. injection H as <-. split; [|split].
      * intros Ht. destruct (Htv Ht) as (genres & G & Hg).
        exists genres. split; [|exact Hg].
        now rewrite !genresOf_other by discriminate.
      * discriminate.
      * intros _. exists sg. split; [|now split].
        apply genresOf_setGenres. exact Hse.
    + intros H. injection H as <-. split; [|split]; [|discriminate..].
      intros Ht. destruct (Htv Ht) as (genres & G & Hg). now exists genres.
Qed.
End GenreFacts.

Lemma genres_of_manifest_witness :
  let c := Catalog [CatalogItem (JStr "c1") (JStr "http://h/1") (JStr "tv") (JStr "One")
                      (JStr " News ") None;
                    CatalogItem (JStr "c2") (JStr "http://h/2") (JStr "tv") (JStr "Two")
                      JUndefined (Some {["group-title" := JStr "News"]})]
             [] [] [] [] in
  let catalogs := [ManifestCatalog "iptv_channels" []; ManifestCatalog "iptv_movies" ["old"]] in
  exists genres,
    genresOf "iptv_channels" (fst (buildGenresInManifest (fun _ _ => 0%float) c catalogs))
    = Some genres /\
    List.NoDup genres /\
    forall g, In g genres <-> g = "All Channels" \/ isGroupOf (cat_channels c) g.
Proof.
  intros c catalogs.
  apply (proj1 (genres_of_manifest (fun _ _ => 0%float) c catalogs
                  (fst (buildGenresInManifest (fun _ _ => 0%float) c catalogs))
                  ltac:(vm_compute; reflexivity))).
  reflexivity.
Defined.


(** ** The playlist parser *)

Lemma takeWhile_all (p : ascii -> bool) (a r : chars) :
  forallb p a = true ->
  match r with [] => True | c :: _ => p c = false end ->
  takeWhile p (a ++ r) = a /\ dropWhile p (a ++ r) = r.
Proof.
  intros Ha Hr. induction a as [|c a IH]; simpl in *.
  - destruct r as [|c r]; [now split|]. simpl. now rewrite Hr.
  - apply andb_true_iff in Ha as [Hc Ha]. rewrite Hc.
    destruct (IH Ha) as [H1 H2]. now rewrite H1, H2.
Qed.

Lemma takeWhile_whole (p : ascii -> bool) (a : chars) :
  forallb p a = true -> takeWhile p a = a.
Proof.
  intros Ha. destruct (takeWhile_all p a [] Ha I) as [H _].
  now rewrite app_nil_r in H.
Qed.

Lemma dropWhile_space (s : chars) : dropWhile isSpace s = trimStart s.
Proof. induction s as [|c s IH]; simpl; [reflexivity | now rewrite IH]. Qed.

Lemma trimStart_spaces (sp x : chars) :
  forallb isSpace sp = true -> trimStart (sp ++ x) = trimStart x.
Proof.
  induction sp as [|c sp IH]; simpl; [reflexivity|].
  intros H. apply andb_true_iff in H as [Hc H]. rewrite Hc. now apply IH.
Qed.

Lemma trimStart_app_clean (a : chars) (c : ascii) (b : chars) :
  isSpace c = false -> trimStart (a ++ c :: b) = trimStart a ++ c :: b.
Proof.
  intros Hc. induction a as [|d a IH]; simpl.
  - now rewrite Hc.
  - destruct (isSpace d); [assumption | reflexivity].
Qed.

Lemma trimEnd_spaces (x sp : chars) :
  forallb isSpace sp = true -> trimEnd (x ++ sp) = trimEnd x.
Proof.
  intros H. unfold trimEnd. rewrite rev_app_distr, trimStart_spaces; [reflexivity|].
  rewrite forallb_forall in *. intros c Hc. apply H. now apply in_rev.
Qed.

Lemma trimEnd_cons (c : ascii) (n : chars) :
  trimEnd (c :: n)
  = if (isSpace c && match trimEnd n with [] => true | _ => false end)%bool
    then [] else c :: trimEnd n.
Proof.
  unfold trimEnd. simpl.
  assert (H : forall a, trimStart (a ++ [c])
              = match trimStart a with [] => trimStart [c] | _ => trimStart a ++ [c] end).
  { induction a as [|d a IH]; simpl; [reflexivity|].
    destruct (isSpace d); [assumption | reflexivity]. }
  rewrite H. destruct (trimStart (rev n)) as [|d t] eqn:E.
  - simpl. destruct (isSpace c); reflexivity.
  - assert (E' : exists x l, rev (d :: t) = x :: l).
    { simpl. destruct (rev t); simpl; eauto. }
    destruct E' as (x & l & E'). rewrite E', Bool.andb_false_r, <- E'.
    rewrite rev_app_distr. reflexivity.
Qed.

Lemma trimStart_trimEnd (n : chars) : trimStart (trimEnd n) = trimEnd (trimStart n).
Proof.
  induction n as [|c n IH]; [reflexivity|].
  rewrite trimEnd_cons. simpl trimStart at 2.
  destruct (isSpace c) eqn:Hc; simpl.
  - destruct (trimEnd n) as [|d t] eqn:E; simpl.
    + now rewrite <- IH.
    + rewrite Hc. now rewrite <- IH.
  - rewrite Hc. now rewrite trimEnd_cons, Hc.
Qed.

Lemma trimEnd_idem (n : chars) : trimEnd (trimEnd n) = trimEnd n.
Proof.
  unfold trimEnd. rewrite rev_involutive.
  now rewrite (trimStart_clean _ (trimStart_startsClean (rev n))).
Qed.

Lemma trim_trimEnd (n : chars) : trim (trimEnd n) = trim n.
Proof. unfold trim. now rewrite trimStart_trimEnd, trimEnd_idem. Qed.

Lemma trim_spaces (x sp : chars) : forallb isSpace sp = true -> trim (x ++ sp) = trim x.
Proof.
  intros H. unfold trim. rewrite <- !trimStart_trimEnd. now rewrite trimEnd_spaces.
Qed.

(** A line between a first code unit that is no white space and a comma:
    trimming leaves them and trims what follows the comma. *)
Lemma trim_line (c : ascii) (pre n : chars) :
  isSpace c = false ->
  trim (c :: pre ++ ","%char :: n) = c :: pre ++ ","%char :: trimEnd n.
Proof.
  intros Hc. unfold trim. simpl trimStart. rewrite Hc.
  unfold trimEnd at 1.
  change (c :: pre ++ ","%char :: n) with ((c :: pre) ++ ","%char :: n).
  replace (rev ((c :: pre) ++ ","%char :: n)) with (rev n ++ ","%char :: rev (c :: pre))
    by (rewrite rev_app_distr; simpl; now rewrite <- !app_assoc).
  rewrite trimStart_app_clean by reflexivity.
  rewrite rev_app_distr. simpl. rewrite rev_app_distr, rev_involutive. simpl.
  rewrite <- !app_assoc. reflexivity.
Qed.

Lemma Forall_trimEnd (P : ascii -> Prop) (n : chars) : Forall P n -> Forall P (trimEnd n).
Proof.
  intros H. destruct (trimEnd_split n) as (sp & Hs & _).
  rewrite Hs in H. now apply Forall_app in H as [H _].
Qed.

Lemma forallb_trimEnd (p : ascii -> bool) (n : chars) :
  forallb p n = true -> forallb p (trimEnd n) = true.
Proof.
  intros H. apply forallb_forall. apply Forall_forall.
  apply Forall_trimEnd. apply Forall_forall. now apply forallb_forall.
Qed.

(** *** The last comma *)

Lemma splitLastCommaFrom_plain (before cur n : chars) :
  forallb (fun c => negb (isComma c)) n = true ->
  splitLastCommaFrom (Some before) cur n = Some (before, cur ++ n).
Proof.
  revert cur. induction n as [|c n IH]; intros cur H; simpl in *.
  - now rewrite app_nil_r.
  - apply andb_true_iff in H as [Hc H]. apply negb_true_iff in Hc. rewrite Hc.
    rewrite IH by assumption. now rewrite <- app_assoc.
Qed.

Lemma splitLastCommaFrom_last (found : option chars) (cur b n : chars) :
  forallb (fun c => negb (isComma c)) n = true ->
  splitLastCommaFrom found cur (b ++ ","%char :: n) = Some (textSoFar found cur ++ b, n).
Proof.
  intros Hn. revert found cur. induction b as [|c b IH]; intros found cur; simpl.
  - rewrite splitLastCommaFrom_plain by assumption.
    rewrite app_nil_r. unfold textSoFar. now destruct found.
  - destruct (isComma c) eqn:Hc.
    + rewrite IH. unfold isComma in Hc. apply Ascii.eqb_eq in Hc. subst c.
      f_equal. f_equal. unfold textSoFar.
      destruct found; simpl; rewrite <- ?app_assoc; simpl; rewrite <- ?app_assoc; reflexivity.
    + rewrite IH. f_equal. f_equal. unfold textSoFar.
      destruct found; simpl; rewrite <- ?app_assoc; simpl; rewrite <- ?app_assoc; reflexivity.
Qed.

Lemma splitLastComma_last (b n : chars) :
  forallb (fun c => negb (isComma c)) n = true ->
  splitLastComma (b ++ ","%char :: n) = Some (b, n).
Proof. intros H. unfold splitLastComma. now rewrite splitLastCommaFrom_last. Qed.

(** *** Attributes *)

Lemma hyphenated_start (k : chars) :
  hyphenated false k = true -> exists c k', k = c :: k' /\ isWord c = true.
Proof.
  destruct k as [|c k']; simpl; [discriminate|].
  destruct (isWord c) eqn:E; [eauto|]. rewrite andb_false_r. discriminate.
Qed.

Lemma scanName_name (k : chars) (prevWord : bool) (cur r : chars) :
  hyphenated prevWord k = true ->
  scanName cur (k ++ "="%char :: r) = (cur ++ k, "="%char :: r).
Proof.
  revert prevWord cur. induction k as [|c k IH]; intros prevWord cur H.
  - simpl. now rewrite app_nil_r.
  - simpl in H. cbn [app scanName]. destruct (isWord c) eqn:Hw.
    + rewrite (IH true) by assumption. now rewrite <- app_assoc.
    + apply andb_true_iff in H as [H Hk]. apply andb_true_iff in H as [Hc _].
      rewrite Hc. destruct (hyphenated_start k Hk) as (d & k' & -> & Hd).
      cbn [app]. rewrite Hd. change (d :: k' ++ "="%char :: r) with ((d :: k') ++ "="%char :: r).
      rewrite (IH false) by assumption. now rewrite <- app_assoc.
Qed.

Lemma matchAttributeHere_attribute (k v : string) (r : chars) :
  validAttribute (k, v) = true ->
  matchAttributeHere
    (list_ascii_of_string k ++ "="%char :: doubleQuote :: list_ascii_of_string v ++ doubleQuote :: r)
  = Some (list_ascii_of_string k, list_ascii_of_string v, r).
Proof.
  unfold validAttribute. cbn [fst snd]. intros H. apply andb_true_iff in H as [Hk Hv].
  destruct (hyphenated_start _ Hk) as (c & k' & E & Hc).
  unfold matchAttributeHere. rewrite E at 1. cbn [app]. rewrite Hc.
  rewrite (scanName_name _ false) by assumption. cbn [app isPrefix skipn].
  rewrite !Ascii.eqb_refl. cbn [andb]. rewrite !skipn_O.
  destruct (takeWhile_all (fun c => negb (isQuote c)) (list_ascii_of_string v)
              (doubleQuote :: r) Hv eq_refl) as [H1 H2].
  now rewrite H1, H2.
Qed.

Lemma scanAttributes_skip (a r : chars) (attrs : gmap string string) :
  scanAttributes (List.length a) (a ++ r) attrs = scanAttributes 0 r attrs.
Proof. induction a as [|c a IH]; simpl; [now destruct r | assumption]. Qed.

Lemma scanAttributes_space (sp r : chars) (attrs : gmap string string) :
  forallb isSpace sp = true ->
  scanAttributes 0 (sp ++ r) attrs = scanAttributes 0 r attrs.
Proof.
  induction sp as [|c sp IH]; [reflexivity|]. simpl. intros H.
  apply andb_true_iff in H as [Hc H]. rewrite (space_not_word c Hc). now apply IH.
Qed.

Lemma scanAttributes_text (kvs : list (string * string)) (attrs : gmap string string) :
  forallb validAttribute kvs = true ->
  scanAttributes 0 (attributeText kvs) attrs
  = fold_left (fun m kv => setAttribute (fst kv) (snd kv) m) kvs attrs.
Proof.
  revert attrs. induction kvs as [|[k v] kvs IH]; intros attrs H; [reflexivity|].
  simpl in H. apply andb_true_iff in H as [Hkv H].
  unfold attributeText. cbn [List.map List.concat fst snd fold_left].
  fold (attributeText kvs).
  change ((" "%char :: ?x) ++ ?y) with ([" "%char] ++ x ++ y).
  rewrite (scanAttributes_space [" "%char]) by reflexivity.
  rewrite <- app_assoc. cbn [app]. rewrite <- app_assoc. cbn [app].
  pose proof (matchAttributeHere_attribute k v (attributeText kvs) Hkv) as Hm.
  destruct (hyphenated_start (list_ascii_of_string k)) as (c & k' & E & Hc).
  { unfold validAttribute in Hkv. now apply andb_true_iff in Hkv as [Hk _]. }
  rewrite E in Hm |- *. cbn [app] in Hm |- *.
  cbn [scanAttributes]. rewrite Hm. rewrite <- E.
  rewrite !string_of_list_ascii_of_string.
  replace (k' ++ "="%char :: doubleQuote :: list_ascii_of_string v ++ doubleQuote :: attributeText kvs)
    with ((k' ++ "="%char :: doubleQuote :: list_ascii_of_string v ++ [doubleQuote]) ++ attributeText kvs)
    by (rewrite <- !app_assoc; cbn [app]; rewrite <- !app_assoc; reflexivity).
  rewrite length_app, Nat.add_sub, scanAttributes_skip.
  now apply IH.
Qed.

Lemma parseAttributes_text (kvs : list (string * string)) :
  forallb validAttribute kvs = true ->
  parseAttributes (string_of_list_ascii (attributeText kvs)) = attributesOf kvs.
Proof.
  intros H. unfold parseAttributes, attributesOf.
  rewrite list_ascii_of_string_of_list_ascii. now apply scanAttributes_text.
Qed.

Lemma parseAttributes_tail (kvs : list (string * string)) :
  forallb validAttribute kvs = true ->
  parseAttributes (string_of_list_ascii (trimStart (attributeText kvs))) = attributesOf kvs.
Proof.
  intros H. rewrite <- (parseAttributes_text kvs H).
  unfold parseAttributes. rewrite !list_ascii_of_string_of_list_ascii.
  destruct (trimStart_split (attributeText kvs)) as (sp & E & Hsp).
  rewrite E at 2. rewrite scanAttributes_space; [reflexivity|].
  apply forallb_forall. now apply Forall_forall.
Qed.

Lemma setAttributes_lookup (kvs : list (string * string)) (attrs : gmap string string)
    (k : string) :
  fold_left (fun m kv => setAttribute (fst kv) (snd kv) m) kvs attrs !! k
  = if String.eqb k "__proto__" then attrs !! k
    else match lastValue k kvs with Some v => Some v | None => attrs !! k end.
Proof.
  revert attrs. induction kvs as [|[k' v'] kvs IH]; intros attrs; cbn [fold_left lastValue fst snd].
  - now destruct (String.eqb k "__proto__").
  - rewrite IH. destruct (String.eqb k "__proto__") eqn:Ep.
    + unfold setAttribute. destruct (String.eqb k' "__proto__") eqn:Ep'; [reflexivity|].
      apply String.eqb_eq in Ep. subst k.
      rewrite lookup_insert_ne; [reflexivity|].
      intros ->. now rewrite String.eqb_refl in Ep'.
    + destruct (lastValue k kvs); [reflexivity|].
      unfold setAttribute. destruct (String.eqb k' k) eqn:Ek.
      * apply String.eqb_eq in Ek. subst k'. rewrite Ep. now rewrite lookup_insert_eq.
      * assert (k' <> k) by (intros ->; now rewrite String.eqb_refl in Ek).
        destruct (String.eqb k' "__proto__"); [reflexivity|].
        now rewrite lookup_insert_ne.
Qed.

Lemma parseAttributes_list (kvs : list (string * string)) :
  parseAttributes (string_of_list_ascii (attributeList kvs))
  = parseAttributes (string_of_list_ascii (attributeText kvs)).
Proof.
  unfold parseAttributes, attributeList. rewrite !list_ascii_of_string_of_list_ascii.
  destruct kvs as [|kv kvs]; reflexivity.
Qed.

(** [parseAttributes] reads attributes back as they are written: for
    names made of runs of word characters joined by hyphens and values
    without a double quote, written as name="value" and separated by
    spaces, the object maps every name to the value of its last
    occurrence and holds nothing else; the name [__proto__] is never a
    key of it. *)
Theorem parseAttributes_round_trip (kvs : list (string * string)) (k : string) :
  forallb validAttribute kvs = true ->
  parseAttributes (string_of_list_ascii (attributeList kvs)) !! k
  = if String.eqb k "__proto__" then None else lastValue k kvs.
Proof.
  intros H. rewrite parseAttributes_list, (parseAttributes_text kvs H). unfold attributesOf.
  rewrite setAttributes_lookup, lookup_empty.
  destruct (String.eqb k "__proto__"); [reflexivity|].
  now destruct (lastValue k kvs).
Qed.

Lemma parseAttributes_round_trip_witness :
  let kvs := [("tvg-id", "bbc"); ("group-title", "News, UK"); ("__proto__", "x");
              ("tvg-id", "bbc1")] in
  forallb validAttribute kvs = true /\
  parseAttributes (string_of_list_ascii (attributeList kvs)) !! "tvg-id" = Some "bbc1".
Proof.
  intros kvs. split; [reflexivity|].
  exact (parseAttributes_round_trip kvs "tvg-id" eq_refl).
Defined.

(** *** The [#EXTINF] line *)

Lemma space_facts (c : ascii) :
  isSpace c = true -> isDigit c = false /\ isComma c = false /\ Ascii.eqb c "#"%char = false.
Proof. each_char c; vm_compute; intuition congruence. Qed.

Lemma dot_facts (c : ascii) : isDot c = true -> Ascii.eqb lineFeed c = false.
Proof. each_char c; vm_compute; congruence. Qed.

Lemma duration_parts (d r : chars) :
  isDuration d = true ->
  isPrefix ["-"%char] (d ++ r) = isPrefix ["-"%char] d /\
  List.tl (d ++ r) = List.tl d ++ r /\
  signOf d ++ digitsOf d = d /\ digitsOf d <> [] /\ forallb isDigit (digitsOf d) = true.
Proof.
  unfold isDuration, signOf, digitsOf. intros H. apply andb_true_iff in H as [Hl Hd].
  destruct d as [|c d]; [discriminate|]. cbn [app isPrefix List.tl] in *.
  repeat split; try assumption.
  - destruct (Ascii.eqb "-" c) eqn:E; cbn [andb]; [|reflexivity].
    apply Ascii.eqb_eq in E. now subst c.
  - destruct (Ascii.eqb "-" c && true)%bool; [|discriminate].
    destruct d; [discriminate | discriminate].
Qed.

Lemma extinf_prefix (x : chars) :
  isPrefix (list_ascii_of_string "#EXTINF:") (list_ascii_of_string "#EXTINF:" ++ x) = true /\
  skipn 8 (list_ascii_of_string "#EXTINF:" ++ x) = x.
Proof. split; reflexivity. Qed.

Lemma matchExtinf_here (s : chars) m :
  matchExtinfHere s = Some m -> matchExtinf s = Some m.
Proof. intros H. destruct s; cbn [matchExtinf]; now rewrite H. Qed.

Lemma matchExtinfHere_duration (d r : chars) :
  isDuration d = true ->
  match r with [] => True | c :: _ => isDigit c = false end ->
  matchExtinfHere (list_ascii_of_string "#EXTINF:" ++ d ++ r)
  = match takeWhile isSpace r with
    | [] =>
        match r with
        | c :: rest => if isComma c then Some (d, None, takeWhile isDot rest) else None
        | [] => None
        end
    | _ =>
        match splitLastComma (takeWhile isDot (dropWhile isSpace r)) with
        | Some (before, after) => Some (d, Some before, after)
        | None => None
        end
    end.
Proof.
  intros Hd Hr. unfold matchExtinfHere.
  destruct (extinf_prefix (d ++ r)) as [-> ->].
  destruct (duration_parts d r Hd) as (-> & -> & Hs & Hne & Hdig).
  assert (E : (if isPrefix ["-"%char] d then List.tl d ++ r else d ++ r) = digitsOf d ++ r)
    by (unfold digitsOf; now destruct (isPrefix _ d)).
  rewrite E. destruct (takeWhile_all isDigit (digitsOf d) r Hdig Hr) as [-> ->].
  change (if isPrefix ["-"%char] d then ["-"%char] else []) with (signOf d).
  rewrite Hs. destruct (digitsOf d); [contradiction | reflexivity].
Qed.

(** Without white space after the duration: the name is all that follows
    the first comma. *)
Lemma matchExtinf_plain (d n : chars) :
  isDuration d = true -> forallb isDot n = true ->
  matchExtinf (list_ascii_of_string "#EXTINF:" ++ d ++ ","%char :: n) = Some (d, None, n).
Proof.
  intros Hd Hn. apply matchExtinf_here.
  rewrite matchExtinfHere_duration by (assumption || reflexivity).
  cbn [takeWhile]. change (isSpace ","%char) with false. cbv iota.
  change (isComma ","%char) with true. cbv iota.
  now rewrite takeWhile_whole.
Qed.

(** With white space after the duration: the name is what follows the
    last comma, and the attributes are read from what comes before it. *)
Lemma matchExtinf_attributed (d : chars) (c : ascii) (body n : chars) :
  isDuration d = true -> isSpace c = true ->
  forallb isDot (body ++ ","%char :: n) = true ->
  forallb (fun c => negb (isComma c)) n = true ->
  matchExtinf (list_ascii_of_string "#EXTINF:" ++ d ++ c :: body ++ ","%char :: n)
  = Some (d, Some (trimStart body), n).
Proof.
  intros Hd Hc Hdot Hn. apply matchExtinf_here.
  destruct (space_facts c Hc) as (Hcd & _ & _).
  rewrite matchExtinfHere_duration by assumption.
  cbn [takeWhile]. rewrite Hc. rewrite dropWhile_space. cbn [trimStart]. rewrite Hc.
  rewrite trimStart_app_clean by reflexivity.
  rewrite takeWhile_whole.
  - now rewrite splitLastComma_last by assumption.
  - rewrite <- trimStart_app_clean by reflexivity.
    apply forallb_forall, Forall_forall, trimStart_Forall, Forall_forall.
    now apply forallb_forall.
Qed.

Lemma parseAttributes_trimStart (body : chars) :
  parseAttributes (string_of_list_ascii (trimStart body))
  = parseAttributes (string_of_list_ascii body).
Proof.
  unfold parseAttributes. rewrite !list_ascii_of_string_of_list_ascii.
  destruct (trimStart_split body) as (sp & E & Hsp).
  rewrite E at 2. rewrite scanAttributes_space; [reflexivity|].
  apply forallb_forall. now apply Forall_forall.
Qed.

Lemma extinf_trim (x n : chars) :
  trim (list_ascii_of_string "#EXTINF:" ++ x ++ ","%char :: n)
  = list_ascii_of_string "#EXTINF:" ++ x ++ ","%char :: trimEnd n.
Proof.
  replace (list_ascii_of_string "#EXTINF:" ++ x ++ ","%char :: n)
    with ("#"%char :: (list_ascii_of_string "EXTINF:" ++ x) ++ ","%char :: n)
    by (cbn [list_ascii_of_string app]; rewrite <- ?app_assoc; reflexivity).
  rewrite trim_line by reflexivity.
  cbn [list_ascii_of_string app]. rewrite <- ?app_assoc. reflexivity.
Qed.

Section PlaylistFacts.
Variable md5hex : string -> string.

Lemma parseLine_extinf (st : list m3uItem * option pendingItem) (raw : string)
    (line d n : chars) (a : option chars) :
  trim (list_ascii_of_string raw) = list_ascii_of_string "#EXTINF:" ++ line ->
  matchExtinf (list_ascii_of_string "#EXTINF:" ++ line) = Some (d, a, n) ->
  parseLine md5hex st raw
  = (fst st,
     Some {| pending_duration := parseInt (string_of_list_ascii d);
             pending_attributes :=
               parseAttributes
                 (string_of_list_ascii match a with Some x => x | None => [] end);
             pending_name := string_of_list_ascii (trim n) |}).
Proof.
  intros Ht Hm. destruct st as [items cur]. unfold parseLine.
  rewrite Ht. destruct (extinf_prefix line) as [-> _]. now rewrite Hm.
Qed.

(** The name and the attributes of an [#EXTINF] line.  When a comma
    follows the duration at once, the name is all the text after that
    comma, commas included, and the item has no attributes.  When white
    space follows the duration, the name is the text after the last
    comma of the line, and the attributes are read from the text before
    that comma. *)
Theorem extinf_name_after_comma (st : list m3uItem * option pendingItem) (d n : chars) :
  isDuration d = true ->
  forallb isDot n = true ->
  parseLine md5hex st
    (string_of_list_ascii (list_ascii_of_string "#EXTINF:" ++ d ++ ","%char :: n))
  = (fst st,
     Some {| pending_duration := parseInt (string_of_list_ascii d);
             pending_attributes := ∅;
             pending_name := string_of_list_ascii (trim n) |})
  /\
  forall (c : ascii) (body : chars),
    isSpace c = true ->
    forallb isDot body = true ->
    forallb (fun c => negb (isComma c)) n = true ->
    parseLine md5hex st
      (string_of_list_ascii
         (list_ascii_of_string "#EXTINF:" ++ d ++ c :: body ++ ","%char :: n))
    = (fst st,
       Some {| pending_duration := parseInt (string_of_list_ascii d);
               pending_attributes := parseAttributes (string_of_list_ascii body);
               pending_name := string_of_list_ascii (trim n) |}).
Proof.
  intros Hd Hn. split.
  - rewrite (parseLine_extinf st _ (d ++ ","%char :: trimEnd n) d (trimEnd n) None).
    + now rewrite trim_trimEnd.
    + rewrite list_ascii_of_string_of_list_ascii. apply extinf_trim.
    + apply matchExtinf_plain; [assumption | now apply forallb_trimEnd].
  - intros c body Hc Hb Hcomma.
    rewrite (parseLine_extinf st _ (d ++ c :: body ++ ","%char :: trimEnd n) d (trimEnd n)
               (Some (trimStart body))).
    + now rewrite trim_trimEnd, parseAttributes_trimStart.
    + rewrite list_ascii_of_string_of_list_ascii.
      pose proof (extinf_trim (d ++ c :: body) n) as E.
      rewrite <- !app_assoc in E. exact E.
    + apply matchExtinf_attributed; try assumption.
      * rewrite forallb_app. rewrite Hb. cbn [forallb andb].
        change (isDot ","%char) with true. cbn [andb]. now apply forallb_trimEnd.
      * now apply forallb_trimEnd.
Qed.
End PlaylistFacts.

(** *** Whole playlists *)

Lemma noLineFeed_filter (a : chars) :
  forallb (fun c => negb (Ascii.eqb c lineFeed)) a = true ->
  List.filter (Ascii.eqb lineFeed) a = [].
Proof.
  induction a as [|c a IH]; cbn [List.filter forallb]; [reflexivity|]. intros H.
  apply andb_true_iff in H as [Hc H]. apply negb_true_iff in Hc.
  rewrite (Ascii.eqb_sym lineFeed c), Hc. now apply IH.
Qed.

Lemma dots_filter (a : chars) :
  forallb isDot a = true -> List.filter (Ascii.eqb lineFeed) a = [].
Proof.
  induction a as [|c a IH]; cbn [List.filter forallb]; [reflexivity|]. intros H.
  apply andb_true_iff in H as [Hc H]. rewrite (dot_facts c Hc). now apply IH.
Qed.

Lemma lineEnd_facts (eol : chars) :
  validLineEnd eol = true ->
  forallb isSpace eol = true /\ List.filter (Ascii.eqb lineFeed) eol = [].
Proof.
  unfold validLineEnd. intros H. rewrite forallb_forall in H. split.
  - apply forallb_forall. intros c Hc. specialize (H c Hc).
    now apply andb_true_iff in H as [H _].
  - apply noLineFeed_filter. apply forallb_forall. intros c Hc. specialize (H c Hc).
    now apply andb_true_iff in H as [_ H].
Qed.

Lemma filter_app_nil (a b : chars) :
  List.filter (Ascii.eqb lineFeed) a = [] -> List.filter (Ascii.eqb lineFeed) b = [] ->
  List.filter (Ascii.eqb lineFeed) (a ++ b) = [].
Proof. intros Ha Hb. now rewrite List.filter_app, Ha, Hb. Qed.

Lemma attributeText_start (kvs : list (string * string)) :
  kvs <> [] -> exists body, attributeText kvs = " "%char :: body.
Proof. destruct kvs as [|kv kvs]; [contradiction|]. intros _. unfold attributeText. simpl. eauto. Qed.

Lemma validEntry_parts (e : playlistEntry) :
  validEntry e = true ->
  isDuration (list_ascii_of_string (written_duration e)) = true /\
  forallb validAttribute (written_attributes e) = true /\
  (written_attributes e = [] \/
   forallb (fun c => negb (isComma c)) (list_ascii_of_string (written_name e)) = true) /\
  forallb isDot (attributeText (written_attributes e)) = true /\
  forallb isDot (list_ascii_of_string (written_name e)) = true /\
  forallb isDot (extinfLine e) = true /\
  match trim (list_ascii_of_string (written_url e)) with
  | c :: _ => negb (Ascii.eqb c "#"%char)
  | [] => false
  end = true /\
  forallb (fun c => negb (Ascii.eqb c lineFeed)) (list_ascii_of_string (written_url e)) = true.
Proof.
  unfold validEntry. intros H.
  apply andb_true_iff in H as [H H6]. apply andb_true_iff in H as [H H5].
  apply andb_true_iff in H as [H H4]. apply andb_true_iff in H as [H H3].
  apply andb_true_iff in H as [H1 H2].
  pose proof H4 as Hdots. unfold extinfLine in Hdots.
  rewrite !forallb_app in Hdots. cbn [forallb] in Hdots.
  apply andb_true_iff in Hdots as [_ Hdots]. apply andb_true_iff in Hdots as [_ Hdots].
  apply andb_true_iff in Hdots as [Ha Hn]. apply andb_true_iff in Hn as [_ Hn].
  repeat split; try assumption.
  destruct (written_attributes e); [now left | now right].
Qed.

Section PlaylistRoundTrip.
Variable md5hex : string -> string.

Lemma parseLine_trim (st : list m3uItem * option pendingItem) (raw : string) (line : chars) :
  trim (list_ascii_of_string raw) = trim line ->
  parseLine md5hex st raw = parseLine md5hex st (string_of_list_ascii line).
Proof.
  intros H. destruct st as [items cur]. unfold parseLine.
  now rewrite list_ascii_of_string_of_list_ascii, H.
Qed.

(** The [#EXTINF] line of an entry starts the item of the entry. *)
Lemma parseLine_entry (st : list m3uItem * option pendingItem) (eol : chars)
    (e : playlistEntry) :
  validLineEnd eol = true -> validEntry e = true ->
  parseLine md5hex st (string_of_list_ascii (extinfLine e ++ eol))
  = (fst st,
     Some {| pending_duration := parseInt (written_duration e);
             pending_attributes := attributesOf (written_attributes e);
             pending_name :=
               string_of_list_ascii (trim (list_ascii_of_string (written_name e))) |}).
Proof.
  intros Heol He. destruct (lineEnd_facts eol Heol) as [Hsp _].
  destruct (validEntry_parts e He) as (Hd & Hattrs & Hcomma & Ha & Hn & _).
  rewrite (parseLine_trim st _ (extinfLine e)).
  2: { rewrite list_ascii_of_string_of_list_ascii. now apply trim_spaces. }
  unfold extinfLine in *.
  set (d := list_ascii_of_string (written_duration e)) in *.
  set (n := list_ascii_of_string (written_name e)) in *.
  destruct (written_attributes e) as [|kv kvs] eqn:Ea.
  - cbn [attributeText List.map List.concat app] in *.
    rewrite (parseLine_extinf md5hex st _ (d ++ ","%char :: trimEnd n) d (trimEnd n) None).
    + rewrite trim_trimEnd. subst d. now rewrite string_of_list_ascii_of_string.
    + rewrite list_ascii_of_string_of_list_ascii. apply extinf_trim.
    + apply matchExtinf_plain; [assumption | now apply forallb_trimEnd].
  - destruct (attributeText_start (kv :: kvs)) as (body & Eb); [discriminate|].
    destruct Hcomma as [Hcomma | Hcomma]; [discriminate|].
    rewrite Eb in *.
    assert (Hbody : forallb isDot body = true) by now apply andb_true_iff in Ha as [_ Ha].
    rewrite (parseLine_extinf md5hex st _ (d ++ " "%char :: body ++ ","%char :: trimEnd n) d
               (trimEnd n) (Some (trimStart body))).
    + rewrite trim_trimEnd. subst d. rewrite string_of_list_ascii_of_string.
      replace (trimStart body) with (trimStart (attributeText (kv :: kvs)))
        by (rewrite Eb; reflexivity).
      now rewrite parseAttributes_tail.
    + rewrite list_ascii_of_string_of_list_ascii.
      pose proof (extinf_trim (d ++ " "%char :: body) n) as E.
      rewrite <- !app_assoc in E. exact E.
    + apply matchExtinf_attributed; try assumption; try reflexivity.
      * rewrite forallb_app, Hbody. cbn [forallb andb].
        change (isDot ","%char) with true. cbn [andb]. now apply forallb_trimEnd.
      * now apply forallb_trimEnd.
Qed.

(** The URL line of an entry completes the current item. *)
Lemma parseLine_url (items : list m3uItem) (cur : pendingItem) (eol : chars)
    (e : playlistEntry) :
  validLineEnd eol = true -> validEntry e = true ->
  parseLine md5hex (items, Some cur)
    (string_of_list_ascii (list_ascii_of_string (written_url e) ++ eol))
  = (items ++ [completeItem md5hex cur
                 (string_of_list_ascii (trim (list_ascii_of_string (written_url e))))],
     None).
Proof.
  intros Heol He. destruct (lineEnd_facts eol Heol) as [Hsp _].
  destruct (validEntry_parts e He) as (_ & _ & _ & _ & _ & _ & Hu & _).
  unfold parseLine. rewrite list_ascii_of_string_of_list_ascii, trim_spaces by assumption.
  destruct (trim (list_ascii_of_string (written_url e))) as [|c u]; [discriminate|].
  assert (Hc : Ascii.eqb "#"%char c = false).
  { rewrite Ascii.eqb_sym. now apply negb_true_iff. }
  cbn [list_ascii_of_string isPrefix]. rewrite Hc. cbn [andb]. now rewrite Hu.
Qed.

Lemma parseLine_ignored (items : list m3uItem) (raw : string) :
  match trim (list_ascii_of_string raw) with
  | [] => True
  | _ => isExtinfLine raw = false
  end ->
  parseLine md5hex (items, None) raw = (items, None).
Proof.
  unfold isExtinfLine, parseLine. destruct (trim (list_ascii_of_string raw)) as [|c l].
  - reflexivity.
  - intros ->. reflexivity.
Qed.

Lemma parse_entries (eol : chars) (entries : list playlistEntry) (items : list m3uItem) :
  validLineEnd eol = true -> forallb validEntry entries = true ->
  fold_left (parseLine md5hex)
    (List.map string_of_list_ascii
       (splitOnFrom lineFeed [] (List.concat (List.map (entryLines eol) entries))))
    (items, None)
  = (items ++ List.map (entryItem md5hex) entries, None).
Proof.
  intros Heol. destruct (lineEnd_facts eol Heol) as [Hsp Hlf].
  revert items. induction entries as [|e entries IH]; intros items H.
  - cbn. now rewrite app_nil_r.
  - cbn [forallb] in H. apply andb_true_iff in H as [He H].
    cbn [List.map List.concat]. unfold entryLines at 1.
    assert (Hline : List.filter (Ascii.eqb lineFeed) (extinfLine e ++ eol) = []).
    { apply filter_app_nil; [|assumption]. apply dots_filter.
      now destruct (validEntry_parts e He) as (_ & _ & _ & _ & _ & Hl & _). }
    assert (Hurl : List.filter (Ascii.eqb lineFeed) (list_ascii_of_string (written_url e) ++ eol) = []).
    { apply filter_app_nil; [|assumption]. apply noLineFeed_filter.
      now destruct (validEntry_parts e He) as (_ & _ & _ & _ & _ & _ & _ & Hl). }
    replace ((extinfLine e ++ eol ++ lineFeed
                :: list_ascii_of_string (written_url e) ++ eol ++ [lineFeed])
             ++ List.concat (List.map (entryLines eol) entries))
      with ((extinfLine e ++ eol) ++ lineFeed
              :: (list_ascii_of_string (written_url e) ++ eol) ++ lineFeed
              :: List.concat (List.map (entryLines eol) entries))
      by (rewrite <- !app_assoc; cbn [app]; rewrite <- !app_assoc; reflexivity).
    rewrite splitOnFrom_app by assumption. rewrite splitOnFrom_app by assumption.
    cbn [List.map fold_left app].
    rewrite parseLine_entry by assumption. cbn [fst].
    rewrite parseLine_url by assumption.
    rewrite IH by assumption. now rewrite <- app_assoc.
Qed.

(** A playlist that is written line by line is read back entry by
    entry: after the [#EXTM3U] line, every entry with its [#EXTINF] line
    and its URL line, each line ended by optional white space (a
    carriage return) and a line feed, gives one item, in the order of
    the playlist, with the duration, the attributes, the trimmed name
    and the trimmed URL of the entry. *)
Theorem parseM3U_reads_entries (eol : chars) (entries : list playlistEntry) :
  validLineEnd eol = true ->
  forallb validEntry entries = true ->
  parseM3U md5hex (playlistText eol entries) = List.map (entryItem md5hex) entries.
Proof.
  intros Heol H. destruct (lineEnd_facts eol Heol) as [Hsp Hlf].
  unfold parseM3U, splitOn, playlistText.
  rewrite list_ascii_of_string_of_list_ascii.
  fold (entryLines eol). change (ascii_of_nat 10) with lineFeed.
  rewrite (app_assoc (list_ascii_of_string "#EXTM3U") eol).
  rewrite splitOnFrom_app by (apply filter_app_nil; [reflexivity | assumption]).
  cbn [List.map fold_left app].
  rewrite parseLine_ignored.
  - now rewrite parse_entries.
  - unfold isExtinfLine.
    rewrite list_ascii_of_string_of_list_ascii, trim_spaces by assumption.
    reflexivity.
Qed.

(** The playlist parser yields at most one item for each line that
    starts with [#EXTINF:]: a URL line without such a line before it
    gives no item, and of several URL lines after one [#EXTINF] line
    only the first gives one. *)
Theorem parseM3U_items_bounded (content : string) :
  (List.length (parseM3U md5hex content)
   <= List.length (List.filter isExtinfLine (splitOn lineFeed content)))%nat.
Proof.
  unfold parseM3U. change (ascii_of_nat 10) with lineFeed.
  set (pending := fun st : list m3uItem * option pendingItem =>
                    (List.length (fst st) + match snd st with Some _ => 1 | None => 0 end)%nat).
  assert (Hstep : forall lines st,
             (pending (fold_left (parseLine md5hex) lines st)
              <= pending st + List.length (List.filter isExtinfLine lines))%nat).
  { induction lines as [|raw lines IH]; intros st; cbn [fold_left List.filter].
    - lia.
    - specialize (IH (parseLine md5hex st raw)).
      assert (Hone : (pending (parseLine md5hex st raw)
                      <= pending st + if isExtinfLine raw then 1 else 0)%nat).
      { destruct st as [items cur]. unfold parseLine, isExtinfLine, pending.
        destruct (isPrefix _ (trim (list_ascii_of_string raw))).
        - destruct (matchExtinf _) as [[[? ?] ?]|]; cbn [fst snd]; destruct cur; lia.
        - destruct (trim (list_ascii_of_string raw)) as [|c l]; cbn [fst snd]; [lia|].
          destruct cur; [|cbn [fst snd]; lia].
          destruct (negb _); cbn [fst snd]; [|lia].
          rewrite length_app. simpl. lia. }
      destruct (isExtinfLine raw); cbn [List.length] in *; lia. }
  specialize (Hstep (splitOn lineFeed content) ([], None)).
  unfold pending in Hstep at 1. cbn [pending fst snd List.length] in Hstep.
  unfold pending in Hstep. cbn [fst snd List.length] in Hstep. lia.
Qed.
End PlaylistRoundTrip.

Lemma extinf_name_after_comma_witness :
  let d := list_ascii_of_string "-1" in
  let n := list_ascii_of_string " BBC One " in
  let body := attributeList [("tvg-id", "a,b")] ++ list_ascii_of_string " x" in
  isDuration d = true /\ forallb isDot n = true /\
  parseLine (fun s => s) ([], None)
    (string_of_list_ascii
       (list_ascii_of_string "#EXTINF:" ++ d ++ " "%char :: body ++ ","%char :: n))
  = ([], Some {| pending_duration := parseInt "-1";
                 pending_attributes := parseAttributes (string_of_list_ascii body);
                 pending_name := "BBC One" |}).
Proof.
  intros d n body. split; [reflexivity|]. split; [reflexivity|].
  exact (proj2 (extinf_name_after_comma (fun s => s) ([], None) d n eq_refl eq_refl)
           " "%char body eq_refl eq_refl eq_refl).
Defined.

Lemma parseM3U_reads_entries_witness :
  let eol := [ascii_of_nat 13] in
  let entries :=
    [PlaylistEntry "-1" [("tvg-id", "bbc1"); ("group-title", "News, UK")] "BBC One"
       "http://h/1";
     PlaylistEntry "7200" [] "Alien, The (1979)" "http://h/2"] in
  validLineEnd eol = true /\ forallb validEntry entries = true /\
  parseM3U (fun s => s) (playlistText eol entries) = List.map (entryItem (fun s => s)) entries.
Proof.
  intros eol entries. split; [reflexivity|]. split; [vm_compute; reflexivity|].
  apply (parseM3U_reads_entries (fun s => s) eol entries); vm_compute; reflexivity.
Defined.

(** *** The type of an item *)

Lemma matchClasses_spec (classes : list (ascii -> bool)) (s : chars) :
  matchClasses classes s = true <->
  exists m post, s = m ++ post /\ Forall2 (fun p c => p c = true) classes m.
Proof.
  revert s. induction classes as [|p classes IH]; intros s.
  - simpl. split; [intros _; exists [], s; split; [reflexivity | constructor] | reflexivity].
  - destruct s as [|c s]; simpl.
    + split; [discriminate|]. intros (m & post & E & H). inversion H; subst. discriminate.
    + rewrite andb_true_iff, IH. split.
      * intros (Hc & m & post & -> & H). exists (c :: m), post. split; [reflexivity|].
        now constructor.
      * intros (m & post & E & H). inversion H as [|? d ? m' Hd H']; subst.
        injection E as -> ->. split; [assumption|]. now exists m', post.
Qed.

Lemma includesClasses_spec (classes : list (ascii -> bool)) (s : chars) :
  includesClasses classes s = true <->
  exists pre m post, s = pre ++ m ++ post /\ Forall2 (fun p c => p c = true) classes m.
Proof.
  induction s as [|c s IH].
  - cbn [includesClasses]. rewrite orb_false_r, matchClasses_spec. split.
    + intros (m & post & E & H). now exists [], m, post.
    + intros (pre & m & post & E & H). destruct pre; [|discriminate]. now exists m, post.
  - cbn [includesClasses]. rewrite orb_true_iff, matchClasses_spec, IH. split.
    + intros [(m & post & E & H) | (pre & m & post & E & H)].
      * now exists [], m, post.
      * exists (c :: pre), m, post. split; [now rewrite E | assumption].
    + intros (pre & m & post & E & H). destruct pre as [|d pre].
      * left. now exists m, post.
      * injection E as -> ->. right. now exists pre, m, post.
Qed.

Lemma yearInParentheses_spec (s : chars) :
  includesClasses
    [Ascii.eqb "("%char; isDigit; isDigit; isDigit; isDigit; Ascii.eqb ")"%char] s = true
  <-> holdsYear ["("%char] ")"%char s.
Proof.
  rewrite includesClasses_spec. unfold holdsYear. split.
  - intros (pre & m & post & -> & H).
    repeat match goal with
           | H : Forall2 _ (_ :: _) _ |- _ => inversion H; clear H; subst
           | H : Forall2 _ [] _ |- _ => inversion H; clear H; subst
           end.
    repeat match goal with H : Ascii.eqb _ _ = true |- _ => apply Ascii.eqb_eq in H; subst end.
    match goal with
    | |- exists _ _ _, _ ++ [_; ?a; ?b; ?c; ?d; _] ++ _ = _ /\ _ =>
        exists pre, [a; b; c; d], post
    end.
    split; [reflexivity|]. split; [reflexivity|]. cbn [forallb].
    repeat match goal with H : isDigit _ = true |- _ => rewrite H; clear H end. reflexivity.
  - intros (pre & y & post & -> & Hl & Hy).
    destruct y as [|a [|b [|c [|d [|? ?]]]]]; try discriminate.
    cbn [forallb] in Hy.
    repeat match goal with
           | H : (_ && _)%bool = true |- _ => apply andb_true_iff in H as [? ?]
           end.
    exists pre, ["("%char; a; b; c; d; ")"%char], post. split; [reflexivity|].
    repeat constructor; assumption.
Qed.

Lemma yearBeforeStop_spec (s : chars) :
  includesClasses [isDigit; isDigit; isDigit; isDigit; Ascii.eqb "."%char] s = true
  <-> holdsYear [] "."%char s.
Proof.
  rewrite includesClasses_spec. unfold holdsYear. split.
  - intros (pre & m & post & -> & H).
    repeat match goal with
           | H : Forall2 _ (_ :: _) _ |- _ => inversion H; clear H; subst
           | H : Forall2 _ [] _ |- _ => inversion H; clear H; subst
           end.
    repeat match goal with H : Ascii.eqb _ _ = true |- _ => apply Ascii.eqb_eq in H; subst end.
    match goal with
    | |- exists _ _ _, _ ++ [?a; ?b; ?c; ?d; _] ++ _ = _ /\ _ =>
        exists pre, [a; b; c; d], post
    end.
    split; [reflexivity|]. split; [reflexivity|]. cbn [forallb].
    repeat match goal with H : isDigit _ = true |- _ => rewrite H; clear H end. reflexivity.
  - intros (pre & y & post & -> & Hl & Hy).
    destruct y as [|a [|b [|c [|d [|? ?]]]]]; try discriminate.
    cbn [forallb] in Hy.
    repeat match goal with
           | H : (_ && _)%bool = true |- _ => apply andb_true_iff in H as [? ?]
           end.
    exists pre, [a; b; c; d; "."%char], post. split; [reflexivity|].
    repeat constructor; assumption.
Qed.

Lemma endsWithIgnoringCase_spec (x : string) (s : chars) :
  endsWithIgnoringCase x s = true <-> endsIn x s.
Proof.
  unfold endsWithIgnoringCase, endsIn, toLowerCase. rewrite isPrefix_spec. split.
  - intros (post & E). apply (f_equal (@rev ascii)) in E.
    rewrite rev_involutive, rev_app_distr, rev_involutive in E.
    apply map_eq_app in E as (pre & suf & -> & _ & Hs). now exists pre, suf.
  - intros (pre & suf & -> & Hs). exists (rev (List.map lowerChar pre)).
    now rewrite List.map_app, rev_app_distr, Hs.
Qed.

(** The alternative [FHD$] of the third pattern adds nothing to [HD$]. *)
Lemma endsIn_fhd (s : chars) : endsIn "fhd" s -> endsIn "hd" s.
Proof.
  intros (pre & suf & -> & Hs). destruct suf as [|a [|b [|c [|? ?]]]]; try discriminate.
  exists (pre ++ [a]), [b; c]. split; [now rewrite <- app_assoc|].
  cbn in Hs |- *. now injection Hs as _ -> ->.
Qed.

Lemma isMovieFormat_spec (name : string) :
  isMovieFormat name = true <->
  holdsYear ["("%char] ")"%char (list_ascii_of_string name) \/
  holdsYear [] "."%char (list_ascii_of_string name) \/
  endsIn "hd" (list_ascii_of_string name) \/ endsIn "4k" (list_ascii_of_string name).
Proof.
  unfold isMovieFormat. rewrite !orb_true_iff.
  rewrite yearInParentheses_spec, yearBeforeStop_spec, !endsWithIgnoringCase_spec.
  pose proof (endsIn_fhd (list_ascii_of_string name)). tauto.
Qed.

Section ItemTypes.
Variable md5hex : string -> string.

Lemma completeItem_movie (cur : pendingItem) (line : string) :
  m3u_type (completeItem md5hex cur line) = KindMovie
  <-> movieMark (completeItem md5hex cur line).
Proof.
  unfold movieMark. cbn [completeItem m3u_type m3u_category m3u_name].
  rewrite <- isMovieFormat_spec, <- !orb_true_iff, <- orb_assoc.
  destruct (containsText "movie" _ || (containsText "movie" _ || isMovieFormat _))%bool;
    cbn [negb andb]; [tauto|].
  split; [|discriminate]. now destruct (_ || _ || _ || _)%bool.
Qed.

Lemma parseLine_items (P : m3uItem -> Prop) (st : list m3uItem * option pendingItem)
    (raw : string) :
  (forall cur line, P (completeItem md5hex cur line)) ->
  Forall P (fst st) -> Forall P (fst (parseLine md5hex st raw)).
Proof.
  intros HP H. destruct st as [items cur]. unfold parseLine.
  destruct (isPrefix _ _).
  - now destruct (matchExtinf _) as [[[? ?] ?]|].
  - destruct (trim _) as [|c l]; [assumption|]. destruct cur; [|assumption].
    destruct (negb _); [|assumption]. cbn [fst] in *.
    apply Forall_app. split; [assumption|]. constructor; [apply HP | constructor].
Qed.

(** An item of a playlist is typed movie exactly when it has a mark of a
    movie: "movie" in its group or its name, in any letter case, or a
    name that holds four digits in parentheses or before a full stop, or
    that ends in HD or 4K in any letter case.  The group and the episode
    marks of a series never overrule these; so a channel whose name ends
    in HD is typed movie. *)
Theorem movie_marks_decide (content : string) (it : m3uItem) :
  In it (parseM3U md5hex content) ->
  (m3u_type it = KindMovie <-> movieMark it).
Proof.
  unfold parseM3U.
  assert (H : forall lines st,
             Forall (fun it => m3u_type it = KindMovie <-> movieMark it) (fst st) ->
             Forall (fun it => m3u_type it = KindMovie <-> movieMark it)
               (fst (fold_left (parseLine md5hex) lines st))).
  { induction lines as [|raw lines IH]; intros st Hst; [assumption|].
    cbn [fold_left]. apply IH. apply parseLine_items; [|assumption].
    apply completeItem_movie. }
  specialize (H (splitOn (ascii_of_nat 10) content) ([], None) (Forall_nil _)).
  rewrite Forall_forall in H. apply H.
Qed.
End ItemTypes.

Lemma movie_marks_decide_witness :
  let content :=
    playlistText [] [PlaylistEntry "-1" [("group-title", "News")] "BBC One HD" "http://h/1"] in
  exists it, In it (parseM3U (fun s => s) content) /\ m3u_type it = KindMovie.
Proof.
  intros content.
  assert (Hin : In (completeItem (fun s => s)
                      {| pending_duration := parseInt "-1";
                         pending_attributes := {["group-title" := "News"]};
                         pending_name := "BBC One HD" |} "http://h/1")
                  (parseM3U (fun s => s) content)).
  { vm_compute. left. reflexivity. }
  eexists. split; [exact Hin|].
  apply (proj2 (movie_marks_decide (fun s => s) content _ Hin)).
  right. right. right. right. left.
  exists (list_ascii_of_string "BBC One "), (list_ascii_of_string "HD").
  split; reflexivity.
Defined.
